(** * xml-mover: the document-normalisation core of [main_batch_home_refactored.py]

    A shallow embedding of the patent-XML to JSON converter: the generic
    structural accessor ([safe_get], [extract_text]), the field-derivation
    rules ([format_numbers], the description splitter, [extract_claims]),
    the three variant parsers, the per-file status derivation of
    [process_xml_file] and the chunking / statistics loop of [process_year].

    Python values produced by [xmltodict] are [None], [str], [dict] and
    [list]; a [dict] keeps insertion order, so it is an association list
    here (keys of a well-formed dict are pairwise distinct and lookup takes
    the first binding).  A Python [str] is kept as its UTF-8 bytes.

    The file has three parts: the program, the vocabulary in which its
    properties are stated (with some concrete documents), and the
    properties. *)

From Stdlib Require Import String Ascii ZArith Lia Permutation.
From stdpp Require Import base option list gmap strings pretty.

Open Scope string_scope.
Open Scope list_scope.
Set Warnings "-register-all".
Set Default Proof Using "Type".

(** ** Python values *)

Inductive value : Type :=
  | VNone
  | VStr (s : string)
  | VDict (items : list (string * value))
  | VList (elems : list value).

(** [bool(v)] *)
Definition truthy (v : value) : bool :=
  match v with
  | VNone => false
  | VStr s => negb (String.eqb s "")
  | VDict items => match items with [] => false | _ => true end
  | VList elems => match elems with [] => false | _ => true end
  end.

(** [v is None] *)
Definition is_none (v : value) : bool :=
  match v with VNone => true | _ => false end.

(** [isinstance(v, (dict, list))] *)
Definition is_container (v : value) : bool :=
  match v with VDict _ | VList _ => true | _ => false end.

(** [d[key]] for [key in d]; the position of the binding is kept because
    the breadth-first search identifies objects by where they sit. *)
Fixpoint dict_find_from (i : nat) (items : list (string * value)) (key : string)
  : option (nat * value) :=
  match items with
  | [] => None
  | (k, v) :: rest =>
      if String.eqb k key then Some (i, v) else dict_find_from (S i) rest key
  end.

Definition dict_find := dict_find_from 0.

Definition dict_get (items : list (string * value)) (key : string) : option value :=
  snd <$> dict_find items key.

(** [a or b] on values *)
Definition por (a b : value) : value := if truthy a then a else b.

(** The induction principle that reaches the values nested in lists. *)
Section value_induction.
Variable P : value → Prop.
Hypothesis HNone : P VNone.
Hypothesis HStr : ∀ s, P (VStr s).
Hypothesis HDict : ∀ items, Forall (λ kv, P kv.2) items → P (VDict items).
Hypothesis HList : ∀ elems, Forall P elems → P (VList elems).

Fixpoint value_ind' (v : value) : P v :=
  match v with
  | VNone => HNone
  | VStr s => HStr s
  | VDict items =>
      HDict items
        ((fix go (l : list (string * value)) : Forall (λ kv, P kv.2) l :=
            match l with
            | [] => List.Forall_nil _
            | kv :: r => List.Forall_cons _ kv r (value_ind' kv.2) (go r)
            end) items)
  | VList elems =>
      HList elems
        ((fix go (l : list value) : Forall P l :=
            match l with
            | [] => List.Forall_nil _
            | x :: r => List.Forall_cons _ x r (value_ind' x) (go r)
            end) elems)
  end.
End value_induction.

(** ** [safe_dict_get] *)

Definition safe_dict_get (d : value) (key : string) (default : value) : value :=
  match d with
  | VDict items => match dict_get items key with Some v => v | None => default end
  | _ => default
  end.

(** ** [safe_get]: the breadth-first key search

    The source guards the queue with [visited], a set of [id(current)].
    The search runs over one tree of live objects, so the identity of an
    object is its position: the path of child indices from [obj].  The
    guard is not idle even on a tree: the elements of a matched list are
    queued once directly and once more when the list itself is expanded. *)

Definition node_id := list nat.

Definition children (p : node_id) (vs : list value) : list (node_id * value) :=
  imap (λ i v, (p ++ [i], v)) vs.

Definition not_none_child (c : node_id * value) : bool := negb (is_none c.2).

(** What a visited dict that holds [key] adds to [results]. *)
Definition unwrap_text (v : value) : value :=
  match v with
  | VDict inner =>
      match dict_get inner "#text" with
      | Some t => t
      | None => match dict_get inner "text" with Some t => t | None => v end
      end
  | _ => v
  end.

Fixpoint bfs_loop (fuel : nat) (key : string) (queue : list (node_id * value))
    (visited : list node_id) (results : list value) : option (list value) :=
  match fuel with
  | O => None
  | S fuel =>
      match queue with
      | [] => Some results
      | (p, current) :: queue =>
          if is_container current && bool_decide (p ∈ visited)
          then bfs_loop fuel key queue visited results
          else
            match current with
            | VDict items =>
                let visited := p :: visited in
                let '(queue, results) :=
                  match dict_find items key with
                  | Some (i, VDict inner) => (queue, results ++ [unwrap_text (VDict inner)])
                  | Some (i, VList (x :: xs)) => (queue ++ children (p ++ [i]) (x :: xs), results)
                  | Some (i, v) => (queue, results ++ [v])
                  | None => (queue, results)
                  end in
                bfs_loop fuel key
                  (queue ++ filter (λ c, not_none_child c) (children p (items.*2)))
                  visited results
            | VList elems =>
                bfs_loop fuel key
                  (queue ++ filter (λ c, not_none_child c) (children p elems))
                  (p :: visited) results
            | _ => bfs_loop fuel key queue visited results
            end
      end
  end.

(** An upper bound on the number of queue entries one entry can cause. *)
Fixpoint weight (v : value) : nat :=
  match v with
  | VDict items => S (2 * sum_list (map (λ kv, weight (snd kv)) items))
  | VList elems => S (sum_list (map weight elems))
  | _ => 1
  end.

(** [len(results) == 1], [elif results], [return None] *)
Definition finish (results : list value) : value :=
  match results with
  | [] => VNone
  | [r] => r
  | _ => VList results
  end.

Definition safe_get_results (obj : value) (key : string) : option (list value) :=
  bfs_loop (S (weight obj)) key [([], obj)] [] [].

Definition safe_get (obj : value) (key : string) : value :=
  match obj with
  | VNone => VNone
  | _ =>
      match (match obj with VDict items => dict_get items key | _ => None end) with
      | Some v => v
      | None =>
          match safe_get_results obj key with
          | Some results => finish results
          | None => VNone
          end
      end
  end.

(** ** Strings

    The builtins of [str] that the code calls and that depend on the
    Unicode tables are an interface: the embedding is the same program for
    every instance.  [ascii_builtins] below is the instance that agrees
    with Python on ASCII text. *)

Class PyBuiltins := {
  py_strip : string → string;            (* s.strip() *)
  py_lower : string → string;            (* s.lower() *)
  py_upper : string → string;            (* s.upper() *)
  py_splitlines : string → list string;  (* s.splitlines() *)
  py_count_isdigit : string → nat;       (* sum(c.isdigit() for c in s) *)
  (* datetime.strptime(s, "%Y%m%d"): its year and month, None for ValueError *)
  py_strptime_ymd : string → option (Z * Z);
  py_repr : value → string;              (* str(v) of a dict or a list *)
  py_basename : string → string;         (* os.path.basename(path) *)
}.

Definition nl : string := String (ascii_of_nat 10) EmptyString.

(** [sep.join(l)] *)
Definition py_join (sep : string) (l : list string) : string := String.concat sep l.

(** [bool(s)] of a [str] or [None] *)
Definition text_truthy (t : option string) : bool :=
  match t with Some s => negb (String.eqb s "") | None => false end.

(** [s.startswith(p)] and [s.endswith(p)] *)
Fixpoint starts_with (p s : string) : bool :=
  match p, s with
  | EmptyString, _ => true
  | String a p', String b s' => Ascii.eqb a b && starts_with p' s'
  | String _ _, EmptyString => false
  end.

Definition ends_with (p s : string) : bool :=
  (String.length p <=? String.length s)%nat &&
  String.eqb (String.substring (String.length s - String.length p) (String.length p) s) p.

(** [sub in s] *)
Fixpoint contains (sub s : string) : bool :=
  starts_with sub s ||
  match s with
  | EmptyString => false
  | String _ rest => contains sub rest
  end.

(** [s.split('.')[0]] *)
Fixpoint before_dot (s : string) : string :=
  match s with
  | EmptyString => EmptyString
  | String c rest => if Ascii.eqb c "."%char then EmptyString else String c (before_dot rest)
  end.

(** [len(s)]: the number of code points, that is of bytes which are not
    UTF-8 continuation bytes. *)
Fixpoint py_len (s : string) : nat :=
  match s with
  | EmptyString => 0
  | String c rest =>
      let n := nat_of_ascii c in
      if (128 <=? n)%nat && (n <? 192)%nat then py_len rest else S (py_len rest)
  end.

(** [sum(c in '-+*/,.()%' for c in s)] *)
Fixpoint count_punct (s : string) : nat :=
  match s with
  | EmptyString => 0
  | String c rest =>
      if existsb (Ascii.eqb c)
           ["-"; "+"; "*"; "/"; ","; "."; "("; ")"; "%"]%char
      then S (count_punct rest) else count_punct rest
  end.

(** [str(v)] *)
Definition py_str `{PyBuiltins} (v : value) : string :=
  match v with
  | VStr s => s
  | VNone => "None"
  | _ => py_repr v
  end.

Section Core.
Context `{PyBuiltins}.

(** ** [extract_text] *)

Fixpoint extract_text (node : value) : option string :=
  match node with
  | VNone => None
  | VStr s => Some (py_strip s)
  | VDict items =>
      (* [key in node and node[key]]: the text under [key] when it is truthy *)
      let text_under :=
        fix text_under (key : string) (l : list (string * value)) : option (option string) :=
          match l with
          | [] => None
          | (k, v) :: rest =>
              if String.eqb k key
              then (if truthy v then Some (extract_text v) else None)
              else text_under key rest
          end in
      match text_under "#text" items with
      | Some t => t
      | None =>
          match text_under "text" items with
          | Some t => t
          | None =>
              let texts :=
                (fix go (l : list (string * value)) : list string :=
                   match l with
                   | [] => []
                   | (k, v) :: rest =>
                       if starts_with "@" k then go rest
                       else match extract_text v with
                            | Some t => if String.eqb t "" then go rest else t :: go rest
                            | None => go rest
                            end
                   end) items in
              match texts with [] => None | _ => Some (py_join nl texts) end
          end
      end
  | VList elems =>
      let texts :=
        (fix go (l : list value) : list string :=
           match l with
           | [] => []
           | v :: rest =>
               match extract_text v with
               | Some t => if String.eqb t "" then go rest else t :: go rest
               | None => go rest
               end
           end) elems in
      match texts with [] => None | _ => Some (py_join nl texts) end
  end.

(** The texts of a run of paragraphs, the empty ones dropped. *)
Definition paragraph_texts (ps : list value) : list string :=
  omap (λ p, match extract_text p with
             | Some t => if String.eqb t "" then None else Some t
             | None => None
             end) ps.

(** ** [get_abstract_text] *)

Definition get_abstract_text (abstract : value) : option string :=
  match abstract with
  | VNone => None
  | _ =>
      let paragraphs :=
        match abstract with
        | VDict items =>
            por (default VNone (dict_get items "Paragraphs")) (default VNone (dict_get items "p"))
        | _ => VNone
        end in
      if truthy paragraphs then extract_text paragraphs else extract_text abstract
  end.

(** ** The description splitter *)

Definition DRAWING_MARKERS : list string :=
  ["[도면의 간단한 설명]"; "도면의 간단한 설명"].

Definition EMBODIMENT_MARKERS : list string :=
  ["[발명을 실시하기 위한 구체적인 내용]"; "더욱 상세하게 설명한다"; "구체적인 실시방식:"].

(** [any(marker.lower() in lower_text for marker in markers) and len(text) < 100] *)
Definition is_marker (markers : list string) (text : string) : bool :=
  existsb (λ marker, contains (py_lower marker) (py_lower text)) markers
  && (py_len text <? 100)%nat.

(** The state of the marker scan: the two start indices ([None] for the
    source's [-1]) and the drawings section found so far. *)
Record scan_state := {
  drawings_start_idx : option nat;
  embodiment_start_idx : option nat;
  brief_description_of_drawings : option string;
}.

Definition scan_paragraph (paragraphs : list value) (st : scan_state)
    (ip : nat * value) : scan_state :=
  let '(i, p) := ip in
  match extract_text p with
  | None => st
  | Some text =>
      if String.eqb text "" then st
      else if is_marker DRAWING_MARKERS text then
        {| drawings_start_idx := Some i;
           embodiment_start_idx := embodiment_start_idx st;
           brief_description_of_drawings := brief_description_of_drawings st |}
      else if is_marker EMBODIMENT_MARKERS text then
        let brief :=
          match drawings_start_idx st with
          | Some d =>
              if (d <? i)%nat then
                match paragraph_texts (take (i - S d) (drop (S d) paragraphs)) with
                | [] => brief_description_of_drawings st
                | drawing_paragraphs => Some (py_join (nl +:+ nl) drawing_paragraphs)
                end
              else brief_description_of_drawings st
          | None => brief_description_of_drawings st
          end in
        {| drawings_start_idx := drawings_start_idx st;
           embodiment_start_idx := Some i;
           brief_description_of_drawings := brief |}
      else st
  end.

Definition extract_description_sections (paragraphs : list value)
  : option string * option string * option string :=
  let full_description := paragraph_texts paragraphs in
  let full_description_text :=
    match full_description with
    | [] => None
    | _ => Some (py_join (nl +:+ nl) full_description)
    end in
  let st :=
    fold_left (scan_paragraph paragraphs) (imap pair paragraphs)
      {| drawings_start_idx := None; embodiment_start_idx := None;
         brief_description_of_drawings := None |} in
  let description_of_embodiments :=
    match embodiment_start_idx st with
    | Some e =>
        match paragraph_texts (drop (S e) paragraphs) with
        | [] => None
        | embodiment_paragraphs => Some (py_join (nl +:+ nl) embodiment_paragraphs)
        end
    | None => None
    end in
  (brief_description_of_drawings st, description_of_embodiments, full_description_text).

(** [is_table_like]: the source compares the float [count / max(len, 1)]
    with [0.4]; on counts of this size that is [5 * count > 2 * max(len, 1)]. *)
Definition is_table_like (text : string) : bool :=
  if String.eqb text "" then false
  else
    let count := py_count_isdigit text + count_punct text in
    (2 * Nat.max (py_len text) 1 <? 5 * count)%nat.

Definition scrub_tables (raw_text : option string) : option string :=
  if text_truthy raw_text then
    let clean_lines :=
      filter (λ line, negb (String.eqb (py_strip line) "") && negb (is_table_like line))
             (py_splitlines (default "" raw_text)) in
    let result := py_strip (py_join (nl +:+ nl) clean_lines) in
    if String.eqb result "" then None else Some result
  else None.

(** ** Exceptions

    A function of the source either returns or raises; whatever is raised
    inside a parser is caught by [process_xml_file]. *)

Inductive outcome (A : Type) : Type :=
  | Returns (a : A)
  | Raises (e : string).
#[global] Arguments Returns {A} a.
#[global] Arguments Raises {A} e.

#[global] Instance outcome_bind : MBind outcome := λ A B k m,
  match m with
  | Returns a => k a
  | Raises e => Raises e
  end.

Definition of_text (t : option string) : value :=
  match t with Some s => VStr s | None => VNone end.

(** [key in root], for whatever [root] is *)
Definition key_in (key : string) (root : value) : outcome bool :=
  match root with
  | VDict items => Returns (bool_decide (is_Some (dict_get items key)))
  | VStr s => Returns (contains key s)
  | VList elems =>
      Returns (existsb (λ e, match e with VStr s => String.eqb s key | _ => false end) elems)
  | VNone => Raises "TypeError"
  end.

(** [root[key]] *)
Definition subscript (root : value) (key : string) : outcome value :=
  match root with
  | VDict items =>
      match dict_get items key with
      | Some v => Returns v
      | None => Raises "KeyError"
      end
  | _ => Raises "TypeError"
  end.

(** ** [find_description_in_document], [extract_description_paragraphs] *)

(** The [elif] chain of [find_description_in_document] on [root] itself. *)
Definition description_of_root (root : value) : outcome value :=
  key_in "description" root ≫= λ b : bool,
  if b then subscript root "description" else
  key_in "cn-description" root ≫= λ b : bool,
  if b then subscript root "cn-description" else
  key_in "Description" root ≫= λ b : bool,
  if b then subscript root "Description" else Returns VNone.

Definition find_description_in_document (root : value) : outcome value :=
  let app_body := safe_dict_get root "application-body" (VDict []) in
  match app_body with
  | VDict items =>
      match dict_get items "description" with
      | Some d => Returns d
      | None => description_of_root root
      end
  | _ => description_of_root root
  end.

Definition extract_description_paragraphs (description : value) : list value :=
  match description with
  | VDict items =>
      match dict_get items "p" with
      | Some (VList ps) => ps
      | Some p => [p]
      | None =>
          match dict_get items "Paragraphs" with
          | Some (VList ps) => ps
          | Some p => [p]
          | None => []
          end
      end
  | _ => []
  end.

(** [for key in keys: if key in description: found = description[key]; break] *)
Fixpoint first_present (items : list (string * value)) (keys : list string) : value :=
  match keys with
  | [] => VNone
  | key :: rest =>
      match dict_get items key with
      | Some v => v
      | None => first_present items rest
      end
  end.

(** ** [extract_structured_description] *)

Definition extract_structured_description (description : value) (all_paragraphs : list value)
  : option string * option string * option string :=
  let '(drawing_section, embodiment_section) :=
    match description with
    | VDict items =>
        let drawings_desc :=
          first_present items
            ["drawings-description"; "description-of-drawings"; "DrawingsDescription"; "drawings"] in
        let embodiments :=
          first_present items
            ["detailed-description"; "invention-description"; "embodiments";
             "mode-for-invention"; "InventionMode"] in
        (if truthy drawings_desc then scrub_tables (extract_text drawings_desc) else None,
         if truthy embodiments then scrub_tables (extract_text embodiments) else None)
    | _ => (None, None)
    end in
  let '(drawing_section, embodiment_section) :=
    if negb (text_truthy drawing_section) || negb (text_truthy embodiment_section) then
      match all_paragraphs with
      | [] => (drawing_section, embodiment_section)
      | _ =>
          let '(marker_drawing_section, marker_embodiment_section, _) :=
            extract_description_sections all_paragraphs in
          (if negb (text_truthy drawing_section) && text_truthy marker_drawing_section
           then marker_drawing_section else drawing_section,
           if negb (text_truthy embodiment_section) && text_truthy marker_embodiment_section
           then marker_embodiment_section else embodiment_section)
      end
    else (drawing_section, embodiment_section) in
  let full_description_text :=
    match description with
    | VDict _ => extract_text description
    | _ => None
    end in
  (drawing_section, embodiment_section, full_description_text).

(** ** The canonical record, [create_parsed_result] *)

Record meta_block := {
  convertedDate : string;
  originalFileName : string;
}.

(** [meta] is absent until [process_xml_file] adds it. *)
Record parsed := {
  MainCPC : value;
  Kind : value;
  OpenNumber : value;
  OpenDate : value;
  RegisterNumber : value;
  RegisterDate : value;
  PublicationNumber : value;
  PublicationDate : value;
  ApplicationNumber : value;
  ApplicationDate : value;
  ApplicantName : value;
  InventorName : value;
  AgentName : value;
  Title : value;
  Summary : value;
  SummaryOfInvention : value;
  BriefDescriptionOfDrawings : value;
  DescriptionOfEmbodiments : value;
  Description : value;
  Claims : value;
  meta : option meta_block;
}.

Definition create_parsed_result
    (main_cpc kind open_number open_date register_number register_date
     pub_number pub_date app_number app_date applicant_name inventor_name
     agent_name title summary drawing_section embodiment_section
     full_description_text claims : value) : parsed :=
  {| MainCPC := main_cpc;
     Kind := kind;
     OpenNumber := open_number;
     OpenDate := open_date;
     RegisterNumber := register_number;
     RegisterDate := register_date;
     PublicationNumber := pub_number;
     PublicationDate := pub_date;
     ApplicationNumber := app_number;
     ApplicationDate := app_date;
     ApplicantName := applicant_name;
     InventorName := inventor_name;
     AgentName := agent_name;
     Title := title;
     Summary := summary;
     SummaryOfInvention := VNone;
     BriefDescriptionOfDrawings := drawing_section;
     DescriptionOfEmbodiments := embodiment_section;
     Description :=
       if negb (truthy drawing_section) || negb (truthy embodiment_section)
       then full_description_text else VNone;
     Claims := claims;
     meta := None |}.

(** [parsed.update({"meta": m})] *)
Definition update_meta (r : parsed) (m : meta_block) : parsed :=
  {| MainCPC := MainCPC r;
     Kind := Kind r;
     OpenNumber := OpenNumber r;
     OpenDate := OpenDate r;
     RegisterNumber := RegisterNumber r;
     RegisterDate := RegisterDate r;
     PublicationNumber := PublicationNumber r;
     PublicationDate := PublicationDate r;
     ApplicationNumber := ApplicationNumber r;
     ApplicationDate := ApplicationDate r;
     ApplicantName := ApplicantName r;
     InventorName := InventorName r;
     AgentName := AgentName r;
     Title := Title r;
     Summary := Summary r;
     SummaryOfInvention := SummaryOfInvention r;
     BriefDescriptionOfDrawings := BriefDescriptionOfDrawings r;
     DescriptionOfEmbodiments := DescriptionOfEmbodiments r;
     Description := Description r;
     Claims := Claims r;
     meta := Some m |}.

(** The dict as [parsed.items()] walks it, [meta] apart. *)
Definition parsed_items (r : parsed) : list (string * value) :=
  [("MainCPC", MainCPC r); ("Kind", Kind r); ("OpenNumber", OpenNumber r);
   ("OpenDate", OpenDate r); ("RegisterNumber", RegisterNumber r);
   ("RegisterDate", RegisterDate r); ("PublicationNumber", PublicationNumber r);
   ("PublicationDate", PublicationDate r); ("ApplicationNumber", ApplicationNumber r);
   ("ApplicationDate", ApplicationDate r); ("ApplicantName", ApplicantName r);
   ("InventorName", InventorName r); ("AgentName", AgentName r); ("Title", Title r);
   ("Summary", Summary r); ("SummaryOfInvention", SummaryOfInvention r);
   ("BriefDescriptionOfDrawings", BriefDescriptionOfDrawings r);
   ("DescriptionOfEmbodiments", DescriptionOfEmbodiments r);
   ("Description", Description r); ("Claims", Claims r)].

(** ** Numbers and dates: [clean_application_number], [calculate_date_diff],
    [format_numbers] *)

Definition clean_application_number (app_number : value) : value :=
  if negb (truthy app_number) then app_number
  else
    let app_number_str := py_str app_number in
    if contains "." app_number_str then VStr (before_dot app_number_str)
    else VStr app_number_str.

Definition calculate_date_diff (app_date pub_date : value) : option Z :=
  if negb (truthy app_date) || negb (truthy pub_date) then None
  else
    match py_strptime_ymd (py_str app_date), py_strptime_ymd (py_str pub_date) with
    | Some (app_year, app_month), Some (pub_year, pub_month) =>
        Some ((pub_year - app_year) * 12 + (pub_month - app_month))%Z
    | _, _ => None
    end.

(** [kind and kind.upper()]: [None] when [kind] is falsy; a truthy [kind]
    that is not a [str] has no [upper]. *)
Definition kind_upper (kind : value) : outcome (option string) :=
  if truthy kind then
    match kind with
    | VStr s => Returns (Some (py_upper s))
    | _ => Raises "AttributeError"
    end
  else Returns None.

(** [x if x else None] *)
Definition or_none (x : value) : value := if truthy x then x else VNone.

Definition upper_in (k : option string) (codes : list string) : bool :=
  match k with
  | Some u => existsb (String.eqb u) codes
  | None => false
  end.

Record numbers := {
  n_clean_app : value;
  n_publication_number : value;
  n_publication_date : value;
  n_open_number : value;
  n_open_date : value;
  n_register_number : value;
  n_register_date : value;
}.

Definition format_numbers (app_number pub_number pub_date kind app_date : value)
  : outcome numbers :=
  let clean_app := clean_application_number app_number in
  k ← kind_upper kind;
  if upper_in k ["B"; "C"] then
    let months_diff_for_BC := calculate_date_diff app_date pub_date in
    let open_number :=
      match months_diff_for_BC with
      | Some months => if (18 <? months)%Z then pub_number else VNone
      | None => VNone
      end in
    Returns {| n_clean_app := clean_app;
               n_publication_number := or_none pub_number;
               n_publication_date := pub_date;
               n_open_number := open_number;
               n_open_date := VNone;
               n_register_number := or_none clean_app;
               n_register_date := pub_date |}
  else if upper_in k ["U"; "Y"] then
    Returns {| n_clean_app := clean_app;
               n_publication_number := or_none pub_number;
               n_publication_date := pub_date;
               n_open_number := VNone;
               n_open_date := VNone;
               n_register_number := or_none clean_app;
               n_register_date := pub_date |}
  else if upper_in k ["A"] then
    Returns {| n_clean_app := clean_app;
               n_publication_number := VNone;
               n_publication_date := VNone;
               n_open_number := or_none pub_number;
               n_open_date := pub_date;
               n_register_number := VNone;
               n_register_date := VNone |}
  else
    Returns {| n_clean_app := clean_app;
               n_publication_number := VNone;
               n_publication_date := VNone;
               n_open_number := VNone;
               n_open_date := VNone;
               n_register_number := VNone;
               n_register_date := VNone |}.

(** ** [extract_claims] *)

Definition pilcrow : string := "¶".

(** One claim of the primary path: [claim_num] defaults to [default_num],
    the text comes from [text_key] when the claim has it. *)
Definition claim_text_of (text_key : string) (claim : value) : option string :=
  match claim with
  | VDict items =>
      match dict_get items text_key with
      | Some t => extract_text t
      | None => extract_text claim
      end
  | _ => extract_text claim
  end.

Definition numbered_claim (default_num : string) (claim : value) : option string :=
  let claim_num := safe_dict_get claim "@num" (VStr default_num) in
  match claim_text_of "ClaimText" claim with
  | Some claim_text =>
      if String.eqb claim_text "" then None
      else Some (py_str claim_num +:+ ". " +:+ claim_text)
  | None => None
  end.

Definition plain_claim (claim : value) : option string :=
  match claim_text_of "claim-text" claim with
  | Some claim_text => if String.eqb claim_text "" then None else Some claim_text
  | None => None
  end.

(** [for i, claim in enumerate(claim_list, 1)], the claims that are not
    dicts skipped *)
Definition claims_of_list (one : nat → value → option string) (claim_list : list value)
  : list string :=
  omap (λ ic : nat * value,
          match ic.2 with
          | VDict _ => one (S ic.1) ic.2
          | _ => None
          end) (imap pair claim_list).

Definition business_claims (root : value) : option string :=
  let claims_section :=
    match root with
    | VDict items => default VNone (dict_get items "Claims")
    | _ => VNone
    end in
  if truthy claims_section then
    let claim_list := safe_get claims_section "Claim" in
    if truthy claim_list then
      let all_claims :=
        match claim_list with
        | VList l => claims_of_list (λ i claim, numbered_claim (pretty i) claim) l
        | VDict _ => option_list (numbered_claim "1" claim_list)
        | _ => []
        end in
      match all_claims with
      | [] => None
      | _ => Some (py_join pilcrow all_claims)
      end
    else None
  else None.

Definition cn_claims (root : value) : option string :=
  match root with
  | VDict items =>
      match dict_get items "application-body" with
      | Some (VDict body) =>
          let claims_section := safe_dict_get (VDict body) "claims" VNone in
          match claims_section with
          | VDict (_ :: _) =>
              let claim_list := safe_get claims_section "claim" in
              if truthy claim_list then
                let all_claims :=
                  match claim_list with
                  | VList l => claims_of_list (λ _ claim, plain_claim claim) l
                  | VDict _ => option_list (plain_claim claim_list)
                  | _ => []
                  end in
                match all_claims with
                | [] => None
                | _ => Some (py_join pilcrow all_claims)
                end
              else None
          | _ => None
          end
      | _ => None
      end
  | _ => None
  end.

Definition deep_claims (root : value) : option string :=
  let deep := por (safe_get root "claim-text") (safe_get root "ClaimText") in
  if truthy deep then extract_text deep else None.

Definition extract_claims (root : value) : option string :=
  match business_claims root with
  | Some claims => Some claims
  | None =>
      match cn_claims root with
      | Some claims => Some claims
      | None => deep_claims root
      end
  end.

End Core.

(** ** The variant parsers

    The classification code and the three party names are produced by
    regular-expression cleaners ([clean_ipc_text], [clean_organization_name])
    inside [extract_cpc_info], [extract_applicant_info],
    [extract_inventor_info], [extract_agent_info] and their inline
    counterparts in [parse_cn_patent].  They read the document and feed
    nothing but their own four fields of the record, so the parsers take
    them as an interface: what is proved holds for whatever they return. *)

Record party_fields := {
  pf_main_cpc : value;
  pf_applicant_name : value;
  pf_inventor_name : value;
  pf_agent_name : value;
}.

Class PartyExtractors := {
  cn_party_fields : value → outcome party_fields;
  business_party_fields : value → outcome party_fields;
}.

Section Parsers.
Context `{PyBuiltins} `{PartyExtractors}.

(** [isinstance(v, dict)] or the empty dict *)
Definition dict_or_empty (v : value) : value :=
  match v with VDict _ => v | _ => VDict [] end.

Definition parse_cn_patent (root : value) : outcome parsed :=
  let biblio := safe_dict_get root "cn-bibliographic-data" (VDict []) in
  let pub_ref_container := safe_dict_get biblio "cn-publication-reference" (VDict []) in
  let pub_ref := dict_or_empty (por (safe_get pub_ref_container "document-id") (VDict [])) in
  let app_ref_container := safe_dict_get biblio "application-reference" (VDict []) in
  let app_ref := dict_or_empty (por (safe_get app_ref_container "document-id") (VDict [])) in
  let doc_number := safe_dict_get pub_ref "doc-number" VNone in
  let app_number := safe_dict_get app_ref "doc-number" VNone in
  let pub_date := safe_dict_get pub_ref "date" VNone in
  let app_date := safe_dict_get app_ref "date" VNone in
  let kind := safe_dict_get pub_ref "kind" VNone in
  nums ← format_numbers app_number doc_number pub_date kind app_date;
  pf ← cn_party_fields root;
  let title := safe_dict_get biblio "invention-title" VNone in
  let title :=
    match title with
    | VDict _ => por (safe_dict_get title "#text" VNone) (safe_dict_get title "text" VNone)
    | _ => title
    end in
  let abstract := safe_dict_get biblio "abstract" VNone in
  let summary := get_abstract_text abstract in
  let claims := extract_claims root in
  description ← find_description_in_document root;
  let all_paragraphs := extract_description_paragraphs description in
  let '(drawing_section, embodiment_section, full_description_text) :=
    extract_structured_description description all_paragraphs in
  Returns (create_parsed_result
    (pf_main_cpc pf) kind (n_open_number nums) (n_open_date nums)
    (n_register_number nums) (n_register_date nums)
    (n_publication_number nums) (n_publication_date nums) (n_clean_app nums) app_date
    (pf_applicant_name pf) (pf_inventor_name pf) (pf_agent_name pf) title (of_text summary)
    (of_text drawing_section) (of_text embodiment_section) (of_text full_description_text)
    (of_text claims)).

(** [ref.get("@dataFormat") == "standard"] on a dict *)
Definition is_standard (ref : value) : bool :=
  match ref with
  | VDict items =>
      match dict_get items "@dataFormat" with
      | Some (VStr s) => String.eqb s "standard"
      | _ => false
      end
  | _ => false
  end.

(** [for x in l: if <x is a standard dict>: found = x; break] *)
Definition first_standard (l : list value) : option value :=
  head (filter (λ ref, is_standard ref) l).

Definition extract_publication_info (root biblio : value) : value * value :=
  let pub_refs := safe_get biblio "PublicationReference" in
  let pub_info :=
    match pub_refs with
    | VList l => default (VDict []) (first_standard l)
    | VDict _ => pub_refs
    | _ => VDict []
    end in
  let pub_doc :=
    if is_standard pub_info then por (safe_get pub_info "DocumentID") (VDict [])
    else
      match safe_get pub_info "DocumentID" with
      | VList l => default (VDict []) (first_standard l)
      | _ => VDict []
      end in
  (pub_info, dict_or_empty pub_doc).

Definition extract_application_info (biblio : value) : value * value :=
  let app_refs := safe_get biblio "ApplicationReference" in
  let '(application_number, application_date) :=
    match app_refs with
    | VList l =>
        (* the first standard reference whose DocumentID is a dict ends the loop *)
        match head (filter (λ app_ref, is_standard app_ref
                              && match safe_get app_ref "DocumentID" with
                                 | VDict _ => true | _ => false end) l) with
        | Some app_ref =>
            let doc_id := safe_get app_ref "DocumentID" in
            (or_none (safe_dict_get doc_id "DocNumber" VNone),
             or_none (safe_dict_get doc_id "Date" VNone))
        | None => (VNone, VNone)
        end
    | _ => (VNone, VNone)
    end in
  if negb (truthy application_number) || negb (truthy application_date) then
    let app_info := por (safe_get biblio "ApplicationReference") (VDict []) in
    match app_info with
    | VDict _ =>
        if is_standard app_info then
          match por (safe_get app_info "DocumentID") (VDict []) with
          | VDict app_doc =>
              (if negb (truthy application_number)
               then safe_dict_get (VDict app_doc) "DocNumber" VNone else application_number,
               if negb (truthy application_date)
               then safe_dict_get (VDict app_doc) "Date" VNone else application_date)
          | _ => (application_number, application_date)
          end
        else
          match safe_get app_info "DocumentID" with
          | VList l =>
              match first_standard l with
              | Some doc =>
                  (if negb (truthy application_number)
                   then safe_dict_get doc "DocNumber" VNone else application_number,
                   if negb (truthy application_date)
                   then safe_dict_get doc "Date" VNone else application_date)
              | None => (application_number, application_date)
              end
          | _ => (application_number, application_date)
          end
    | _ => (application_number, application_date)
    end
  else (application_number, application_date).

Definition parse_business (root : value) : outcome parsed :=
  let biblio := safe_dict_get root "BibliographicData" (VDict []) in
  let '(pub_info, pub_doc) := extract_publication_info root biblio in
  let pub_no := safe_dict_get pub_doc "DocNumber" VNone in
  let pub_dt := safe_dict_get pub_doc "Date" VNone in
  let pub_no :=
    if negb (truthy pub_no)
    then por (safe_dict_get pub_info "DocNumber" VNone) (safe_dict_get root "@docNumber" VNone)
    else pub_no in
  let pub_dt :=
    if negb (truthy pub_dt) then safe_dict_get pub_info "Date" VNone else pub_dt in
  let '(application_number, application_date) := extract_application_info biblio in
  pf ← business_party_fields root;
  let title := extract_text (safe_get biblio "InventionTitle") in
  let abstract := por (safe_get root "Abstract") (safe_get biblio "Abstract") in
  let summary := get_abstract_text abstract in
  let claims := extract_claims root in
  description ← find_description_in_document root;
  let all_paragraphs := extract_description_paragraphs description in
  let '(drawing_section, embodiment_section, full_description_text) :=
    extract_structured_description description all_paragraphs in
  let kind := por (safe_dict_get pub_doc "Kind" VNone) (safe_dict_get root "@kind" VNone) in
  nums ← format_numbers application_number pub_no pub_dt kind application_date;
  k ← kind_upper kind;
  let register_date :=
    if upper_in k ["B"; "C"] && negb (truthy (n_register_date nums)) && truthy pub_dt
    then pub_dt else n_register_date nums in
  Returns (create_parsed_result
    (pf_main_cpc pf) kind (n_open_number nums) (n_open_date nums)
    (n_register_number nums) register_date
    (n_publication_number nums) (n_publication_date nums) (n_clean_app nums) application_date
    (pf_applicant_name pf) (pf_inventor_name pf) (pf_agent_name pf)
    (of_text title) (of_text summary)
    (of_text drawing_section) (of_text embodiment_section) (of_text full_description_text)
    (of_text claims)).

(** [process_fallback_xml]: [None] is the "unknown structure" answer. *)
Definition process_fallback_xml (root : value) : outcome (option parsed) :=
  has_body ← key_in "application-body" root;
  if negb has_body then Returns None else
  body ← subscript root "application-body";
  has_description ← key_in "description" body;
  if negb has_description then Returns None else
  description ← subscript body "description";
  let claims := extract_claims root in
  let title := extract_text (safe_dict_get root "invention-title" VNone) in
  let abstract := safe_get root "abstract" in
  let summary := get_abstract_text abstract in
  let all_paragraphs := extract_description_paragraphs description in
  let '(drawing_section, embodiment_section, full_description_text) :=
    extract_structured_description description all_paragraphs in
  let app_number := safe_get root "@applicationNumber" in
  let app_date := safe_get root "@applicationDate" in
  let kind := por (safe_get root "@kind") (safe_get root "kind") in
  nums ← format_numbers app_number VNone VNone kind app_date;
  Returns (Some (create_parsed_result
    VNone kind (n_open_number nums) (n_open_date nums)
    (n_register_number nums) (n_register_date nums)
    (n_publication_number nums) (n_publication_date nums) (n_clean_app nums) app_date
    VNone VNone VNone (of_text title) (of_text summary)
    (of_text drawing_section) (of_text embodiment_section) (of_text full_description_text)
    (of_text claims))).

(** ** [process_xml_file]

    Reading and decoding the file, [strip_xmlns], [xmltodict.parse] and
    [strip_prefix] are input to the model: a file either has no usable
    encoding, or fails to parse, or is a document. *)

Inductive loaded :=
  | NoEncoding
  | Malformed (e : string)
  | Document (data : value).

Record missing_report := {
  full_file_path : string;
  missing_fields : list string;
  contextual_issues : option (list string);
}.

(** The 5-tuple [(file_path, parsed_data, error, extraction_status,
    missing_details)]. *)
Record file_result := {
  fr_file_path : string;
  fr_parsed_data : option parsed;
  fr_error : option string;
  fr_extraction_status : list (string * bool);
  fr_missing_details : option missing_report;
}.

(** [value is not None and value != ""] *)
Definition extracted (v : value) : bool :=
  match v with
  | VNone => false
  | VStr s => negb (String.eqb s "")
  | _ => true
  end.

Definition extraction_status_of (r : parsed) : list (string * bool) :=
  map (λ kv : string * value, (kv.1, extracted kv.2)) (parsed_items r).

Definition detected_missing_fields_of (status : list (string * bool)) : list string :=
  map fst (filter (λ fe : string * bool, negb fe.2) status).

Definition mem_string (s : string) (l : list string) : bool := existsb (String.eqb s) l.

Definition contextual_issues_of (r : parsed) (detected_missing_fields : list string)
  : list string :=
  let brief_drawings_present := truthy (BriefDescriptionOfDrawings r) in
  let embodiments_present := truthy (DescriptionOfEmbodiments r) in
  let issue1 :=
    if (negb brief_drawings_present || negb embodiments_present)
       && mem_string "Description" detected_missing_fields
    then ["Description_missing_when_drawings_or_embodiments_absent"] else [] in
  let issue2 :=
    match Kind r with
    | VStr "A" =>
        let missing_A_fields :=
          (if mem_string "OpenNumber" detected_missing_fields then ["OpenNumber"] else [])
          ++ (if mem_string "OpenDate" detected_missing_fields then ["OpenDate"] else []) in
        match missing_A_fields with
        | [] => []
        | _ => ["Kind_A_missing_" +:+ py_join "_and_" missing_A_fields]
        end
    | _ => []
    end in
  issue1 ++ issue2.

Definition missing_details_of (file_path : string) (r : parsed)
    (status : list (string * bool)) : option missing_report :=
  let detected_missing_fields := detected_missing_fields_of status in
  match detected_missing_fields with
  | [] => None
  | _ =>
      let current_contextual_issues := contextual_issues_of r detected_missing_fields in
      Some {| full_file_path := file_path;
              missing_fields := detected_missing_fields;
              contextual_issues :=
                match current_contextual_issues with
                | [] => None
                | _ => Some current_contextual_issues
                end |}
  end.

(** The dispatch on the root tag. *)
Definition dispatch (data : value) : outcome (option parsed) :=
  match data with
  | VDict ((root_key, root) :: _) =>
      if starts_with "cn-patent-document" (py_lower root_key) then
        (r ← parse_cn_patent root; Returns (Some r))
      else if ends_with "patentdocumentandrelated" (py_lower root_key) then
        (r ← parse_business root; Returns (Some r))
      else process_fallback_xml root
  | _ => Raises "StopIteration"
  end.

Definition failure (file_path error : string) : file_result :=
  {| fr_file_path := file_path; fr_parsed_data := None; fr_error := Some error;
     fr_extraction_status := []; fr_missing_details := None |}.

(** [now] is [datetime.now().strftime("%Y-%m-%d %H:%M:%S")].  Of the
    message built in [except Exception] the text of the exception is kept,
    the traceback is not. *)
Definition process_xml_file (now : string) (file_path : string) (xml : loaded)
  : file_result :=
  match xml with
  | NoEncoding => failure file_path "인코딩을 인식할 수 없음"
  | Malformed e => failure file_path ("Error: " +:+ e)
  | Document data =>
      match dispatch data with
      | Raises e => failure file_path ("Error: " +:+ e)
      | Returns None => failure file_path "알 수 없는 XML 구조"
      | Returns (Some r) =>
          let r := update_meta r {| convertedDate := now;
                                    originalFileName := py_basename file_path |} in
          let extraction_status := extraction_status_of r in
          {| fr_file_path := file_path;
             fr_parsed_data := Some r;
             fr_error := None;
             fr_extraction_status := extraction_status;
             fr_missing_details := missing_details_of file_path r extraction_status |}
      end
  end.

End Parsers.

(** ** Statistics: the accumulators and [generate_stats_dict] *)

Record kind_A_stats := {
  OpenNumber_success : nat;
  OpenDate_success : nat;
  total_A_items : nat;
}.

Record desc_fallback_stats := {
  Description_success_when_partial_missing : nat;
  total_partial_missing_items : nat;
}.

(** The four variables the source keeps per level: the item count, the
    [defaultdict(int)] of per-field successes and the two special dicts. *)
Record accumulator := {
  items_count : nat;
  field_success_counts : gmap string nat;
  kind_A : kind_A_stats;
  desc_fallback : desc_fallback_stats;
}.

Definition empty_accumulator : accumulator :=
  {| items_count := 0;
     field_success_counts := ∅;
     kind_A := {| OpenNumber_success := 0; OpenDate_success := 0; total_A_items := 0 |};
     desc_fallback := {| Description_success_when_partial_missing := 0;
                         total_partial_missing_items := 0 |} |}.

(** [counts[field]] of a [defaultdict(int)] *)
Definition count_of (counts : gmap string nat) (field : string) : nat :=
  default 0 (counts !! field).

(** [for field, extracted in extraction_status.items(): if extracted: counts[field] += 1] *)
Definition count_fields (status : list (string * bool)) (counts : gmap string nat)
  : gmap string nat :=
  fold_left (λ m (fe : string * bool),
               if fe.2 then <[fe.1 := S (count_of m fe.1)]> m else m) status counts.

(** [extraction_status.get(field, False)] *)
Definition status_get (status : list (string * bool)) (field : string) : bool :=
  match find (λ fe : string * bool, String.eqb fe.1 field) status with
  | Some fe => fe.2
  | None => false
  end.

Definition b2n (b : bool) : nat := if b then 1 else 0.

(** The update both levels apply for one parsed record. *)
Definition record_item (acc : accumulator) (parsed_data : parsed)
    (status : list (string * bool)) : accumulator :=
  let is_A := match Kind parsed_data with VStr "A" => true | _ => false end in
  let partial := negb (truthy (BriefDescriptionOfDrawings parsed_data))
                 || negb (truthy (DescriptionOfEmbodiments parsed_data)) in
  {| items_count := S (items_count acc);
     field_success_counts := count_fields status (field_success_counts acc);
     kind_A :=
       if is_A then
         {| OpenNumber_success :=
              OpenNumber_success (kind_A acc) + b2n (status_get status "OpenNumber");
            OpenDate_success :=
              OpenDate_success (kind_A acc) + b2n (status_get status "OpenDate");
            total_A_items := S (total_A_items (kind_A acc)) |}
       else kind_A acc;
     desc_fallback :=
       if partial then
         {| Description_success_when_partial_missing :=
              Description_success_when_partial_missing (desc_fallback acc)
              + b2n (status_get status "Description");
            total_partial_missing_items := S (total_partial_missing_items (desc_fallback acc)) |}
       else desc_fallback acc |}.

(** One row of [field_extraction_success_rate]; [success_rate_percent] is
    the float [round(count / items_count * 100, 2)] of the two counts and is
    not kept.  The rows are sorted by field name in the file, one per
    field: a finite map here. *)
Record field_rate := {
  success_count : nat;
  total_items : nat;
}.

Record stats_report := {
  total_processed_items : nat;
  field_extraction_success_rate : gmap string field_rate;
  kind_A_special_stats : option kind_A_stats;        (* None: the message block *)
  description_fallback_stats : option desc_fallback_stats;
}.

Definition generate_stats_dict (items_count : nat) (field_success_counts : gmap string nat)
    (kind_A_stats : kind_A_stats) (desc_fallback_stats : desc_fallback_stats) : stats_report :=
  {| total_processed_items := items_count;
     field_extraction_success_rate :=
       if (0 <? items_count)%nat
       then (λ count, {| success_count := count; total_items := items_count |})
              <$> field_success_counts
       else ∅;
     kind_A_special_stats :=
       if (0 <? total_A_items kind_A_stats)%nat then Some kind_A_stats else None;
     description_fallback_stats :=
       if (0 <? total_partial_missing_items desc_fallback_stats)%nat
       then Some desc_fallback_stats else None |}.

Definition report_of (acc : accumulator) : stats_report :=
  generate_stats_dict (items_count acc) (field_success_counts acc)
    (kind_A acc) (desc_fallback acc).

(** The [success_count] a report shows for a field, 0 when it has no row. *)
Definition report_success_count (report : stats_report) (field : string) : nat :=
  match field_extraction_success_rate report !! field with
  | Some row => success_count row
  | None => 0
  end.

(** ** [process_year]

    Files of the year's output directory, by the pattern of their names:
    [<year>_chunk_<N>.json], [<year>_chunk_<N>_extraction_stats_report.json],
    [<year>_chunk_<N>_missing_items_report.json],
    [<year>_extraction_stats_report.json], [<year>_missing_items_report.json].
    The disk is the sequence of writes; writing is taken to succeed.  A
    write that the user's interruption cuts short leaves its file
    [Incomplete]: the file exists and holds a part of its JSON text. *)

Inductive file_name :=
  | ChunkData (n : nat)
  | ChunkStats (n : nat)
  | ChunkMissing (n : nat)
  | YearStats
  | YearMissing.

Inductive file_content :=
  | DataFile (records : list parsed)
  | StatsFile (report : stats_report)
  | MissingFile (items : list missing_report)
  | Incomplete.

Definition write := (file_name * file_content)%type.

(** Where [KeyboardInterrupt] reaches the [try] block, which holds the loop
    and the writes of the last chunk.  It is taken to arrive where the
    program waits or writes: while the loop waits for the next result
    ([Waiting]); while the loop handles [res], after its bookkeeping and
    inside the seal that [res] sets off ([Sealing]); or after the loop,
    inside the writes of the last chunk ([Flushing]).  Of the files of the
    seal, [written] are complete, and when [cut] the next one is cut
    short. *)
Inductive interruption_point :=
  | Waiting
  | Sealing (res : file_result) (written : nat) (cut : bool)
  | Flushing (written : nat) (cut : bool).

(** What the consumer loop meets: the next completed result of
    [pool.imap_unordered], or the user's interruption. *)
Inductive event :=
  | Completed (res : file_result)
  | KeyboardInterrupt (point : interruption_point).

(** The variables of the loop.  [success_count_] is the source's
    [success_count] (the name is taken by the report row); the four
    statistics variables of a level are one [accumulator]. *)
Record loop_state := {
  chunk_count : nat;
  current_chunk_data : list parsed;
  current_size_bytes : nat;
  success_count_ : nat;
  fail_count : nat;
  failed_files : list (string * string);
  year_acc : accumulator;
  yearly_total_missing_item_reports : list missing_report;
  chunk_acc : accumulator;
  current_chunk_missing_details_list : list missing_report;
  disk : list write;
}.

Definition initial_state : loop_state :=
  {| chunk_count := 0; current_chunk_data := []; current_size_bytes := 0;
     success_count_ := 0; fail_count := 0; failed_files := [];
     year_acc := empty_accumulator; yearly_total_missing_item_reports := [];
     chunk_acc := empty_accumulator; current_chunk_missing_details_list := [];
     disk := [] |}.

Section Batch.
(** [len(json.dumps(parsed_data, ensure_ascii=False).encode('utf-8'))] *)
Variable json_size : parsed → nat.
Variable max_items_per_file : Z.
Variable max_size_bytes : Z.

(** [current_chunk_data and (len(current_chunk_data) >= max_items_per_file
     or current_size_bytes + item_size > max_size_bytes)] *)
Definition must_seal (st : loop_state) (item_size : nat) : bool :=
  match current_chunk_data st with
  | [] => false
  | _ =>
      (max_items_per_file <=? Z.of_nat (length (current_chunk_data st)))%Z
      || (max_size_bytes <? Z.of_nat (current_size_bytes st + item_size))%Z
  end.

(** The files of one sealed chunk; inside the loop the data file is
    written twice (by [save_report_to_json] and again by [json.dump]). *)
Definition chunk_writes (in_loop : bool) (n : nat) (data : list parsed)
    (acc : accumulator) (missing : list missing_report) : list write :=
  (if in_loop then [(ChunkData n, DataFile data)] else [])
  ++ [(ChunkData n, DataFile data); (ChunkStats n, StatsFile (report_of acc))]
  ++ match missing with
     | [] => []
     | _ => [(ChunkMissing n, MissingFile missing)]
     end.

Definition process_result (st : loop_state) (res : file_result) : loop_state :=
  if text_truthy (fr_error res) then
    {| chunk_count := chunk_count st;
       current_chunk_data := current_chunk_data st;
       current_size_bytes := current_size_bytes st;
       success_count_ := success_count_ st;
       fail_count := S (fail_count st);
       failed_files := failed_files st ++ [(fr_file_path res, default "" (fr_error res))];
       year_acc := year_acc st;
       yearly_total_missing_item_reports := yearly_total_missing_item_reports st;
       chunk_acc := chunk_acc st;
       current_chunk_missing_details_list := current_chunk_missing_details_list st;
       disk := disk st |}
  else
    match fr_parsed_data res with
    | None =>
        {| chunk_count := chunk_count st;
           current_chunk_data := current_chunk_data st;
           current_size_bytes := current_size_bytes st;
           success_count_ := S (success_count_ st);
           fail_count := fail_count st;
           failed_files := failed_files st;
           year_acc := year_acc st;
           yearly_total_missing_item_reports := yearly_total_missing_item_reports st;
           chunk_acc := chunk_acc st;
           current_chunk_missing_details_list := current_chunk_missing_details_list st;
           disk := disk st |}
    | Some parsed_data =>
        let status := fr_extraction_status res in
        let year := record_item (year_acc st) parsed_data status in
        let yearly_missing :=
          yearly_total_missing_item_reports st ++ option_list (fr_missing_details res) in
        let chunk_missing :=
          current_chunk_missing_details_list st ++ option_list (fr_missing_details res) in
        let chunk := record_item (chunk_acc st) parsed_data status in
        let item_size := json_size parsed_data in
        if must_seal st item_size then
          {| chunk_count := S (chunk_count st);
             current_chunk_data := [parsed_data];
             current_size_bytes := item_size;
             success_count_ := S (success_count_ st);
             fail_count := fail_count st;
             failed_files := failed_files st;
             year_acc := year;
             yearly_total_missing_item_reports := yearly_missing;
             chunk_acc := empty_accumulator;
             current_chunk_missing_details_list := [];
             disk := disk st ++ chunk_writes true (S (chunk_count st))
                                  (current_chunk_data st) chunk chunk_missing |}
        else
          {| chunk_count := chunk_count st;
             current_chunk_data := current_chunk_data st ++ [parsed_data];
             current_size_bytes := current_size_bytes st + item_size;
             success_count_ := S (success_count_ st);
             fail_count := fail_count st;
             failed_files := failed_files st;
             year_acc := year;
             yearly_total_missing_item_reports := yearly_missing;
             chunk_acc := chunk;
             current_chunk_missing_details_list := chunk_missing;
             disk := disk st |}
    end.

(** The results the [for] loop handles to their end, and the point of the
    interruption that ends the [try] block, if any. *)
Fixpoint consume (st : loop_state) (events : list event)
  : loop_state * option interruption_point :=
  match events with
  | [] => (st, None)
  | KeyboardInterrupt point :: _ => (st, Some point)
  | Completed res :: rest => consume (process_result st res) rest
  end.

(** The writes an interruption leaves of [writes]. *)
Definition cut_short (writes : list write) (written : nat) (cut : bool) : list write :=
  take written writes
  ++ match drop written writes with
     | (name, _) :: _ => if cut then [(name, Incomplete)] else []
     | [] => []
     end.

(** The variables when the interruption arrives inside the seal that [res]
    sets off: the bookkeeping of [res] is done and [chunk_count] is
    incremented, the chunk is not yet reset.  When [res] sets off no seal
    there is no write to cut, and [res] is handled to its end. *)
Definition interrupted_seal (st : loop_state) (res : file_result)
    (written : nat) (cut : bool) : loop_state :=
  if text_truthy (fr_error res) then process_result st res
  else
    match fr_parsed_data res with
    | None => process_result st res
    | Some parsed_data =>
        let status := fr_extraction_status res in
        let year := record_item (year_acc st) parsed_data status in
        let yearly_missing :=
          yearly_total_missing_item_reports st ++ option_list (fr_missing_details res) in
        let chunk_missing :=
          current_chunk_missing_details_list st ++ option_list (fr_missing_details res) in
        let chunk := record_item (chunk_acc st) parsed_data status in
        let item_size := json_size parsed_data in
        if must_seal st item_size then
          {| chunk_count := S (chunk_count st);
             current_chunk_data := current_chunk_data st;
             current_size_bytes := current_size_bytes st;
             success_count_ := S (success_count_ st);
             fail_count := fail_count st;
             failed_files := failed_files st;
             year_acc := year;
             yearly_total_missing_item_reports := yearly_missing;
             chunk_acc := chunk;
             current_chunk_missing_details_list := chunk_missing;
             disk := disk st
                     ++ cut_short (chunk_writes true (S (chunk_count st))
                                     (current_chunk_data st) chunk chunk_missing)
                          written cut |}
        else process_result st res
    end.

(** [if current_chunk_data:] after the loop *)
Definition seal_last_chunk (st : loop_state) : loop_state :=
  match current_chunk_data st with
  | [] => st
  | _ =>
      {| chunk_count := S (chunk_count st);
         current_chunk_data := current_chunk_data st;
         current_size_bytes := current_size_bytes st;
         success_count_ := success_count_ st;
         fail_count := fail_count st;
         failed_files := failed_files st;
         year_acc := year_acc st;
         yearly_total_missing_item_reports := yearly_total_missing_item_reports st;
         chunk_acc := chunk_acc st;
         current_chunk_missing_details_list := current_chunk_missing_details_list st;
         disk := disk st ++ chunk_writes false (S (chunk_count st))
                              (current_chunk_data st) (chunk_acc st)
                              (current_chunk_missing_details_list st) |}
  end.

(** The variables when the interruption arrives inside the writes of
    the last chunk. *)
Definition interrupted_flush (st : loop_state) (written : nat) (cut : bool) : loop_state :=
  match current_chunk_data st with
  | [] => st
  | _ =>
      {| chunk_count := S (chunk_count st);
         current_chunk_data := current_chunk_data st;
         current_size_bytes := current_size_bytes st;
         success_count_ := success_count_ st;
         fail_count := fail_count st;
         failed_files := failed_files st;
         year_acc := year_acc st;
         yearly_total_missing_item_reports := yearly_total_missing_item_reports st;
         chunk_acc := chunk_acc st;
         current_chunk_missing_details_list := current_chunk_missing_details_list st;
         disk := disk st
                 ++ cut_short (chunk_writes false (S (chunk_count st))
                                 (current_chunk_data st) (chunk_acc st)
                                 (current_chunk_missing_details_list st))
                      written cut |}
  end.

(** The variables the handler of [KeyboardInterrupt] finds, from those at
    the end of the last result handled in full. *)
Definition interrupted (st : loop_state) (point : interruption_point) : loop_state :=
  match point with
  | Waiting => st
  | Sealing res written cut => interrupted_seal st res written cut
  | Flushing written cut => interrupted_flush st written cut
  end.

Definition year_writes (st : loop_state) : list write :=
  [(YearStats, StatsFile (report_of (year_acc st)))]
  ++ match yearly_total_missing_item_reports st with
     | [] => []
     | items => [(YearMissing, MissingFile items)]
     end.

(** What [process_year] hands back, and the disk it leaves. *)
Record year_result := {
  yr_success : nat;
  yr_fail : nat;
  yr_failed_files : list (string * string);
  (* [{}] when there were no files *)
  yr_data : option (stats_report * list missing_report);
  yr_disk : list write;
}.

Definition process_year (events : list event) : year_result :=
  match events with
  | [] => {| yr_success := 0; yr_fail := 0; yr_failed_files := []; yr_data := None;
             yr_disk := [] |}
  | _ =>
      match consume initial_state events with
      | (st, Some point) =>
          (* except KeyboardInterrupt: the report is built and returned *)
          let st := interrupted st point in
          {| yr_success := success_count_ st; yr_fail := fail_count st;
             yr_failed_files := failed_files st;
             yr_data := Some (report_of (year_acc st), yearly_total_missing_item_reports st);
             yr_disk := disk st |}
      | (st, None) =>
          (* the last chunk, still inside the [try]; then the year's files *)
          let st := seal_last_chunk st in
          {| yr_success := success_count_ st; yr_fail := fail_count st;
             yr_failed_files := failed_files st;
             yr_data := Some (report_of (year_acc st), yearly_total_missing_item_reports st);
             yr_disk := disk st ++ year_writes st |}
      end
  end.

End Batch.

(** ** Python on ASCII text

    The instance used to run the embedding on concrete documents.  It is
    Python's behaviour on ASCII strings; [strptime] is given for dates of
    eight digits, and the [repr] of a container is not rendered (no
    document below reaches it). *)

Module Ascii_text.

Definition is_space (c : ascii) : bool :=
  let n := nat_of_ascii c in
  (n =? 32)%nat || ((9 <=? n)%nat && (n <=? 13)%nat) || ((28 <=? n)%nat && (n <=? 31)%nat).

Fixpoint lstrip (s : string) : string :=
  match s with
  | String c rest => if is_space c then lstrip rest else s
  | EmptyString => EmptyString
  end.

Fixpoint rstrip (s : string) : string :=
  match s with
  | EmptyString => EmptyString
  | String c rest =>
      match rstrip rest with
      | EmptyString => if is_space c then EmptyString else String c EmptyString
      | rest' => String c rest'
      end
  end.

Definition strip (s : string) : string := rstrip (lstrip s).

Definition lower_char (c : ascii) : ascii :=
  let n := nat_of_ascii c in
  if (65 <=? n)%nat && (n <=? 90)%nat then ascii_of_nat (n + 32) else c.

Definition upper_char (c : ascii) : ascii :=
  let n := nat_of_ascii c in
  if (97 <=? n)%nat && (n <=? 122)%nat then ascii_of_nat (n - 32) else c.

Fixpoint map_string (f : ascii → ascii) (s : string) : string :=
  match s with
  | EmptyString => EmptyString
  | String c rest => String (f c) (map_string f rest)
  end.

Definition is_line_break (c : ascii) : bool :=
  let n := nat_of_ascii c in
  ((10 <=? n)%nat && (n <=? 13)%nat) || ((28 <=? n)%nat && (n <=? 30)%nat).

(** [splitlines]: [cur] is the line being read, reversed; ["\r\n"] is one break. *)
Fixpoint splitlines_from (cur : string) (s : string) : list string :=
  match s with
  | EmptyString => match cur with EmptyString => [] | _ => [String.rev cur] end
  | String c rest =>
      if is_line_break c then
        String.rev cur ::
          match rest with
          | String c' rest' =>
              if (nat_of_ascii c =? 13)%nat && (nat_of_ascii c' =? 10)%nat
              then splitlines_from EmptyString rest'
              else splitlines_from EmptyString rest
          | EmptyString => []
          end
      else splitlines_from (String c cur) rest
  end.

Definition is_digit (c : ascii) : bool :=
  let n := nat_of_ascii c in (48 <=? n)%nat && (n <=? 57)%nat.

Fixpoint count_isdigit (s : string) : nat :=
  match s with
  | EmptyString => 0
  | String c rest => if is_digit c then S (count_isdigit rest) else count_isdigit rest
  end.

Fixpoint digits_value (acc : Z) (s : string) : option Z :=
  match s with
  | EmptyString => Some acc
  | String c rest =>
      if is_digit c then digits_value (10 * acc + Z.of_nat (nat_of_ascii c - 48))%Z rest
      else None
  end.

Definition days_in_month (year month : Z) : Z :=
  if (month =? 2)%Z then
    if ((year mod 4 =? 0) && (negb (year mod 100 =? 0) || (year mod 400 =? 0)))%Z
    then 29%Z else 28%Z
  else if ((month =? 4) || (month =? 6) || (month =? 9) || (month =? 11))%Z then 30%Z
  else 31%Z.

Definition strptime_ymd (s : string) : option (Z * Z) :=
  if (String.length s =? 8)%nat then
    match digits_value 0 (String.substring 0 4 s), digits_value 0 (String.substring 4 2 s),
          digits_value 0 (String.substring 6 2 s) with
    | Some year, Some month, Some day =>
        if ((1 <=? year) && (1 <=? month) && (month <=? 12) && (1 <=? day)
            && (day <=? days_in_month year month))%Z
        then Some (year, month) else None
    | _, _, _ => None
    end
  else None.

(** [os.path.basename] of a POSIX path: what follows the last slash. *)
Fixpoint basename (cur : string) (path : string) : string :=
  match path with
  | EmptyString => String.rev cur
  | String c rest =>
      if Ascii.eqb c "/"%char then basename EmptyString rest
      else basename (String c cur) rest
  end.

Definition ascii_builtins : PyBuiltins :=
  {| py_strip := strip;
     py_lower := map_string lower_char;
     py_upper := map_string upper_char;
     py_splitlines := splitlines_from EmptyString;
     py_count_isdigit := count_isdigit;
     py_strptime_ymd := strptime_ymd;
     py_repr := λ _, "<container>";
     py_basename := basename EmptyString |}.

(** Documents without classification and party blocks: the four extractors
    find nothing. *)
Definition no_parties : PartyExtractors :=
  let nothing := λ _ : value,
    Returns {| pf_main_cpc := VNone; pf_applicant_name := VNone;
               pf_inventor_name := VNone; pf_agent_name := VNone |} in
  {| cn_party_fields := nothing; business_party_fields := nothing |}.

End Ascii_text.

(** * The vocabulary of the properties *)

(** ** Records of the variant parsers *)

Section Record_vocabulary.
Context `{PyBuiltins} `{PartyExtractors}.

(** [r] is the record one of the three variant parsers returns for [root]. *)
Definition parser_returns (root : value) (r : parsed) : Prop :=
  parse_cn_patent root = Returns r
  ∨ parse_business root = Returns r
  ∨ process_fallback_xml root = Returns (Some r).

(** [Kind] is a non-empty string whose upper case is one of [codes]. *)
Definition kind_among (codes : list string) (r : parsed) : Prop :=
  ∃ s, Kind r = VStr s ∧ s ≠ "" ∧ py_upper s ∈ codes.

(** How every parser assembles its record: the numbering fields are those
    of one call of [format_numbers] on the record's [Kind], the three
    description fields come from one call of
    [extract_structured_description]. *)
Definition numbering_fields (r : parsed) (nums : numbers) : Prop :=
  OpenNumber r = n_open_number nums
  ∧ OpenDate r = n_open_date nums
  ∧ RegisterNumber r = n_register_number nums
  ∧ RegisterDate r = n_register_date nums
  ∧ PublicationNumber r = n_publication_number nums
  ∧ PublicationDate r = n_publication_date nums
  ∧ ApplicationNumber r = n_clean_app nums.

Definition description_fields (r : parsed)
    (sections : option string * option string * option string) : Prop :=
  BriefDescriptionOfDrawings r = of_text sections.1.1
  ∧ DescriptionOfEmbodiments r = of_text sections.1.2
  ∧ Description r =
      if negb (truthy (of_text sections.1.1)) || negb (truthy (of_text sections.1.2))
      then of_text sections.2 else VNone.

Definition assembled (root : value) (r : parsed) : Prop :=
  ∃ app_number pub_number pub_date app_date nums description,
    format_numbers app_number pub_number pub_date (Kind r) app_date = Returns nums
    ∧ numbering_fields r nums
    ∧ SummaryOfInvention r = VNone
    ∧ find_description_in_document root = Returns description
    ∧ description_fields r
        (extract_structured_description description
           (extract_description_paragraphs description)).

End Record_vocabulary.

(** ** The chunking loop *)

Section Batch_vocabulary.
Variable json_size : parsed → nat.
Variable max_items_per_file : Z.
Variable max_size_bytes : Z.
Abbreviation process_result := (process_result json_size max_items_per_file max_size_bytes).
Abbreviation must_seal := (must_seal max_items_per_file max_size_bytes).
Abbreviation consume := (consume json_size max_items_per_file max_size_bytes).
Abbreviation process_year := (process_year json_size max_items_per_file max_size_bytes).

(** The cumulative serialized size of a chunk's records. *)
Definition total_size (records : list parsed) : nat := sum_list_with json_size records.

(** The state after the loop has consumed [results]. *)
Definition run (results : list file_result) : loop_state :=
  fold_left process_result results initial_state.

(** Appending a record of [item_size] bytes would exceed a bound. *)
Definition would_exceed (st : loop_state) (item_size : nat) : Prop :=
  (max_items_per_file < Z.of_nat (S (length (current_chunk_data st))))%Z
  ∨ (max_size_bytes < Z.of_nat (current_size_bytes st + item_size))%Z.

Definition chunk_ok (records : list parsed) : Prop :=
  records ≠ []
  ∧ (Z.of_nat (length records) ≤ max_items_per_file)%Z
  ∧ ((Z.of_nat (total_size records) ≤ max_size_bytes)%Z ∨ length records = 1).

(** [res] is a success that carries a record. *)
Definition carries (res : file_result) (parsed_data : parsed) : Prop :=
  text_truthy (fr_error res) = false ∧ fr_parsed_data res = Some parsed_data.

Definition data_files (d : list write) : list (nat * list parsed) :=
  omap (λ w : write,
          match w with
          | (ChunkData n, DataFile records) => Some (n, records)
          | _ => None
          end) d.

Definition chunk_reports (d : list write) : list stats_report :=
  omap (λ w : write,
          match w with
          | (ChunkStats _, StatsFile report) => Some report
          | _ => None
          end) d.

Definition bounded (st : loop_state) : Prop :=
  (∀ n records, (n, records) ∈ data_files (disk st) → chunk_ok records)
  ∧ current_size_bytes st = total_size (current_chunk_data st)
  ∧ (current_chunk_data st ≠ [] → chunk_ok (current_chunk_data st)).

(** How often [status] lists [field] as extracted. *)
Definition hits (status : list (string * bool)) (field : string) : nat :=
  length (filter (λ fe : string * bool, fe.1 = field ∧ fe.2 = true) status).

(** An accumulator that has seen no item has counted no field. *)
Definition acc_ok (acc : accumulator) : Prop :=
  items_count acc = 0 → field_success_counts acc = ∅.

Definition sum_of_reports (reports : list stats_report) (field : string) : nat :=
  sum_list_with (λ report, report_success_count report field) reports.

Definition additive (st : loop_state) : Prop :=
  acc_ok (year_acc st)
  ∧ acc_ok (chunk_acc st)
  ∧ (current_chunk_data st = [] → chunk_acc st = empty_accumulator)
  ∧ ∀ field,
      count_of (field_success_counts (year_acc st)) field
      = sum_of_reports (chunk_reports (disk st)) field
        + count_of (field_success_counts (chunk_acc st)) field.

(** Before the first seal the chunk statistics count the records of the
    active chunk; after it they miss the record that opened the chunk. *)
Definition counted (st : loop_state) : Prop :=
  (chunk_count st = 0 → items_count (chunk_acc st) = length (current_chunk_data st))
  ∧ (chunk_count st ≠ 0 → S (items_count (chunk_acc st)) = length (current_chunk_data st)).

(** The record a result contributes to the statistics, if any. *)
Definition carried (res : file_result) : option parsed :=
  if text_truthy (fr_error res) then None else fr_parsed_data res.


Definition is_chunk_file (w : write) : Prop :=
  match w.1 with
  | ChunkData _ | ChunkStats _ | ChunkMissing _ => True
  | YearStats | YearMissing => False
  end.


(** A record that opens chunk [n] stays its first record until the chunk
    is written. *)
Definition opens (n : nat) (parsed_data : parsed) (st : loop_state) : Prop :=
  (S (chunk_count st) = n ∧ ∃ tail, current_chunk_data st = parsed_data :: tail)
  ∨ ∃ tail, (ChunkData n, DataFile (parsed_data :: tail)) ∈ disk st.

End Batch_vocabulary.

(** ** Claims *)

Section Claim_vocabulary.
Context `{PyBuiltins}.





End Claim_vocabulary.

(** ** The breadth-first search of [safe_get] *)

(** The values directly below a node, in the order [values()] or the list
    gives them. *)
Definition child_values (v : value) : list value :=
  match v with
  | VDict items => items.*2
  | VList elems => elems
  | _ => []
  end.

(** The node of [v] at a path of child positions. *)
Fixpoint node_at (v : value) (p : node_id) : option value :=
  match p with
  | [] => Some v
  | i :: p' =>
      match child_values v !! i with
      | Some c => node_at c p'
      | None => None
      end
  end.

(** What a map contributes to the results when it is visited: the text
    content of a map value that has one, nothing for a non-empty list,
    else the value. *)
Definition own_results (key : string) (v : value) : list value :=
  match v with
  | VDict items =>
      match dict_find items key with
      | Some (_, VDict inner) => [unwrap_text (VDict inner)]
      | Some (_, VList (_ :: _)) => []
      | Some (_, w) => [w]
      | None => []
      end
  | _ => []
  end.

(** The elements of a matched non-empty list, queued ahead of the children. *)
Definition requeued (key : string) (p : node_id) (v : value) : list (node_id * value) :=
  match v with
  | VDict items =>
      match dict_find items key with
      | Some (i, VList (x :: xs)) => children (p ++ [i]) (x :: xs)
      | _ => []
      end
  | _ => []
  end.

(** All results below a node, map by map: the specification of the search. *)
Fixpoint matches (key : string) (v : value) : list value :=
  match v with
  | VDict items => own_results key v ++ concat (map (λ kv, matches key (snd kv)) items)
  | VList elems => concat (map (matches key) elems)
  | _ => []
  end.

(** The paths of the maps and lists of a value. *)
Fixpoint container_paths (v : value) : list node_id :=
  match v with
  | VDict items =>
      [] :: concat (imap (λ i ps, map (cons i) ps)
                      (map (λ kv, container_paths (snd kv)) items))
  | VList elems =>
      [] :: concat (imap (λ i ps, map (cons i) ps) (map container_paths elems))
  | _ => []
  end.

Definition weight_queue (queue : list (node_id * value)) : nat :=
  sum_list_with (λ e : node_id * value, weight e.2) queue.

(** The paths below a node, from the paths of its children. *)
Definition below (pss : list (list node_id)) : list node_id :=
  concat (imap (λ i ps, map (cons i) ps) pss).

Section Search_vocabulary.
Variable obj : value.
Variable key : string.

(** What the node at a path contributes when it is visited. *)
Definition own_at (p : node_id) : list value :=
  match node_at obj p with
  | Some v => own_results key v
  | None => []
  end.

(** The invariant of the loop: the queue holds nodes of [obj] at their
    paths; the visited paths are distinct maps and lists of [obj]; every
    map or list below a visited node is visited or queued; the results are
    what the visited nodes contributed, in the order of the visits. *)
Record search_inv (queue : list (node_id * value)) (visited : list node_id)
    (results : list value) : Prop := {
  inv_queue : ∀ p v, (p, v) ∈ queue → node_at obj p = Some v;
  inv_visited : ∀ p, p ∈ visited → ∃ v, node_at obj p = Some v ∧ is_container v = true;
  inv_nodup : NoDup visited;
  inv_closed : ∀ p v i c,
    p ∈ visited → node_at obj p = Some v → child_values v !! i = Some c →
    is_container c = true → p ++ [i] ∈ visited ∨ (p ++ [i], c) ∈ queue;
  inv_root : is_container obj = true → [] ∈ visited ∨ ([], obj) ∈ queue;
  inv_results : results = flat_map own_at (rev visited);
}.

End Search_vocabulary.

(** ** Concrete documents *)

Module Samples.
Import Ascii_text.
#[local] Existing Instance ascii_builtins.
#[local] Existing Instance no_parties.

Definition document_id (number kind date : string) : value :=
  VDict [("country", VStr "CN"); ("doc-number", VStr number); ("kind", VStr kind);
         ("date", VStr date)].

Definition application_id (number date : string) : value :=
  VDict [("country", VStr "CN"); ("doc-number", VStr number); ("date", VStr date)].

Definition bibliographic_data (kind app_number : string) : value :=
  VDict [("cn-publication-reference", VDict [("document-id", document_id "101234567" kind "20210105")]);
         ("application-reference", VDict [("document-id", application_id app_number "20180105")]);
         ("invention-title", VStr "Valve")].

Definition body : value :=
  VDict [("description", VDict [("p", VList [VStr "A valve."; VStr "It opens."])])].

(** A granted patent, [<cn-patent-document>] with kind B. *)
Definition granted_root : value :=
  VDict [("cn-bibliographic-data", bibliographic_data "B" "201810012345.6");
         ("application-body", body)].

(** A utility model, kind in lower case. *)
Definition utility_root : value :=
  VDict [("cn-bibliographic-data", bibliographic_data "y" "201820012345.6");
         ("application-body", body)].

(** A document that has bibliographic data and no description. *)
Definition bare_root : value :=
  VDict [("cn-bibliographic-data", bibliographic_data "B" "201810012345.6")].

(** A document of an unknown family whose [applicationNumber] attribute is
    empty: [<patent applicationNumber="" kind="B"> ... </patent>]. *)
Definition unnumbered_root : value :=
  VDict [("@applicationNumber", VStr ""); ("@kind", VStr "B"); ("application-body", body)].

Definition record_of (o : outcome parsed) : parsed :=
  match o with
  | Returns r => r
  | Raises _ => create_parsed_result VNone VNone VNone VNone VNone VNone VNone VNone VNone
                  VNone VNone VNone VNone VNone VNone VNone VNone VNone VNone
  end.

Definition noon : string := "2025-06-01 12:00:00".

Definition granted_record : parsed := Eval vm_compute in record_of (parse_cn_patent granted_root).
Definition utility_record : parsed := Eval vm_compute in record_of (parse_cn_patent utility_root).
Definition bare_record : parsed := Eval vm_compute in record_of (parse_cn_patent bare_root).
Definition unnumbered_record : parsed :=
  Eval vm_compute in
    match process_fallback_xml unnumbered_root with
    | Returns (Some r) => r
    | _ => record_of (Raises "")
    end.

Definition granted_file : loaded := Document (VDict [("cn-patent-document", granted_root)]).

End Samples.

(** ** A concrete year *)

Module Batch_samples.
Import Ascii_text Samples.
#[local] Existing Instance ascii_builtins.
#[local] Existing Instance no_parties.

(** A stand-in for the length of the JSON text of a record: a fixed
    overhead plus the length of its description. *)
Definition sample_size (r : parsed) : nat :=
  40 + match Description r with VStr s => String.length s | _ => 0 end.

Definition utility_file : loaded := Document (VDict [("cn-patent-document", utility_root)]).

Definition first_result : file_result :=
  Eval vm_compute in process_xml_file noon "in/2021/CN101234567B.xml" granted_file.

Definition second_result : file_result :=
  Eval vm_compute in process_xml_file noon "in/2021/CN201234567Y.xml" utility_file.

Definition first_record : parsed :=
  Eval vm_compute in
    match fr_parsed_data first_result with Some r => r | None => granted_record end.

Definition second_record : parsed :=
  Eval vm_compute in
    match fr_parsed_data second_result with Some r => r | None => utility_record end.

(** Two documents, one item per file. *)
Definition two_documents : list event := [Completed first_result; Completed second_result].

End Batch_samples.

(** ** Concrete searches and claims *)

Module Search_samples.
Import Ascii_text.
#[local] Existing Instance ascii_builtins.

(** [<invention-title lang="en">Valve</invention-title>] under its parent. *)
Definition titled : value :=
  VDict [("invention-title", VDict [("@lang", VStr "en"); ("#text", VStr "Valve")]);
         ("abstract", VDict [("p", VStr "A valve.")])].

Definition document : value := VDict [("cn-bibliographic-data", titled)].




End Search_samples.

(** * More of the program and of the vocabulary *)

(** ** More concrete documents *)

Module More_samples.
Import Ascii_text Samples.
#[local] Existing Instance ascii_builtins.
#[local] Existing Instance no_parties.

(** A published application, kind A. *)
Definition published_root : value :=
  VDict [("cn-bibliographic-data", bibliographic_data "A" "201810012345.6");
         ("application-body", body)].

(** A document whose kind code is none of the known letters. *)
Definition design_root : value :=
  VDict [("cn-bibliographic-data", bibliographic_data "S" "201830012345.6");
         ("application-body", body)].

Definition published_record : parsed :=
  Eval vm_compute in record_of (parse_cn_patent published_root).
Definition design_record : parsed :=
  Eval vm_compute in record_of (parse_cn_patent design_root).

(** A document whose description element holds nothing but text. *)
Definition text_body_root : value :=
  VDict [("cn-bibliographic-data", bibliographic_data "B" "201810012345.6");
         ("application-body", VDict [("description", VStr "A valve. It opens.")])].

Definition text_body_record : parsed :=
  Eval vm_compute in record_of (parse_cn_patent text_body_root).

(** A published application without a publication date. *)
Definition undated_root : value :=
  VDict [("cn-bibliographic-data",
          VDict [("cn-publication-reference",
                  VDict [("document-id",
                          VDict [("country", VStr "CN"); ("doc-number", VStr "101234567");
                                 ("kind", VStr "A")])]);
                 ("application-reference",
                  VDict [("document-id", application_id "201810012345.6" "20180105")])]);
         ("application-body", body)].

Definition undated_file : loaded := Document (VDict [("cn-patent-document", undated_root)]).

Definition undated_result : file_result :=
  Eval vm_compute in process_xml_file noon "in/2021/CN101234567A.xml" undated_file.

Definition undated_record : parsed :=
  Eval vm_compute in
    match fr_parsed_data undated_result with Some r => r | None => published_record end.

Definition undated_missing : missing_report :=
  Eval vm_compute in
    match fr_missing_details undated_result with
    | Some m => m
    | None => {| full_file_path := ""; missing_fields := []; contextual_issues := None |}
    end.

(** The numbers of a granted patent whose kind code is in lower case. *)
Definition granted_numbers : numbers :=
  Eval vm_compute in
    match format_numbers (VStr "201810012345.6") (VStr "101234567") (VStr "20210105")
            (VStr "b") (VStr "20180105") with
    | Returns nums => nums
    | Raises _ =>
        {| n_clean_app := VNone; n_publication_number := VNone; n_publication_date := VNone;
           n_open_number := VNone; n_open_date := VNone; n_register_number := VNone;
           n_register_date := VNone |}
    end.

(** A document of an unknown family without a body: [<patent kind="B"/>]. *)
Definition stray_file : loaded := Document (VDict [("patent", VDict [("@kind", VStr "B")])]).

(** A map that holds a title and nothing else. *)
Definition title_only : value := VDict [("invention-title", VStr "Valve")].

End More_samples.

(** ** The description splitter *)

Section Description_vocabulary.
Context `{PyBuiltins}.

(** Paragraph [i] starts the embodiments: its text is not empty, is not a
    drawings marker and is an embodiment marker. *)
Definition starts_embodiments (paragraphs : list value) (i : nat) : bool :=
  match paragraphs !! i with
  | Some p =>
      match extract_text p with
      | Some text =>
          negb (String.eqb text "") && negb (is_marker DRAWING_MARKERS text)
          && is_marker EMBODIMENT_MARKERS text
      | None => false
      end
  | None => false
  end.

(** ["\n\n".join(texts) if texts else None] *)
Definition joined (texts : list string) : option string :=
  match texts with [] => None | _ => Some (py_join (nl +:+ nl) texts) end.

(** What the marker scan knows after the first [i] paragraphs. *)
Definition scan_inv (paragraphs : list value) (i : nat) (st : scan_state) : Prop :=
  match embodiment_start_idx st with
  | Some e =>
      (e < i)%nat ∧ starts_embodiments paragraphs e = true
      ∧ ∀ j, (e < j < i)%nat → starts_embodiments paragraphs j = false
  | None =>
      (∀ j, (j < i)%nat → starts_embodiments paragraphs j = false)
      ∧ brief_description_of_drawings st = None
  end.

(** The two local functions of [extract_text] on a map. *)
Fixpoint text_under (key : string) (l : list (string * value)) : option (option string) :=
  match l with
  | [] => None
  | (k, v) :: rest =>
      if String.eqb k key
      then (if truthy v then Some (extract_text v) else None)
      else text_under key rest
  end.

Fixpoint child_texts (l : list (string * value)) : list string :=
  match l with
  | [] => []
  | (k, v) :: rest =>
      if starts_with "@" k then child_texts rest
      else match extract_text v with
           | Some t => if String.eqb t "" then child_texts rest else t :: child_texts rest
           | None => child_texts rest
           end
  end.

(** [k.startswith("@")]: the key of an XML attribute *)
Definition is_attribute (kv : string * value) : bool := starts_with "@" kv.1.

End Description_vocabulary.

(** ** The result of [process_xml_file] *)

(** The keys of [extraction_status], in the order of the record. *)
Definition field_names : list string :=
  ["MainCPC"; "Kind"; "OpenNumber"; "OpenDate"; "RegisterNumber"; "RegisterDate";
   "PublicationNumber"; "PublicationDate"; "ApplicationNumber"; "ApplicationDate";
   "ApplicantName"; "InventorName"; "AgentName"; "Title"; "Summary"; "SummaryOfInvention";
   "BriefDescriptionOfDrawings"; "DescriptionOfEmbodiments"; "Description"; "Claims"].

(** [contextual_issues] read as a list: [None] stands for no issue. *)
Definition issues_of (m : missing_report) : list string := default [] (contextual_issues m).

(** [kind == 'A'] *)
Definition is_kind_A (kind : value) : bool :=
  match kind with VStr "A" => true | _ => false end.

(** ** The bookkeeping of [process_year] *)

(** The results the loop consumes: those before the interruption, and the
    one it is handling when the interruption arrives. *)
Fixpoint consumed (events : list event) : list file_result :=
  match events with
  | Completed res :: rest => res :: consumed rest
  | KeyboardInterrupt (Sealing res _ _) :: _ => [res]
  | _ => []
  end.

(** The entries of [failed_files] for a run of results. *)
Definition failures (results : list file_result) : list (string * string) :=
  omap (λ res, if text_truthy (fr_error res)
               then Some (fr_file_path res, default "" (fr_error res)) else None) results.

(** The missing-field reports of the results that carry a record. *)
Definition missing_of (results : list file_result) : list missing_report :=
  flat_map (λ res, match carried res with
                   | Some _ => option_list (fr_missing_details res)
                   | None => []
                   end) results.

Definition missing_files (d : list write) : list (list missing_report) :=
  omap (λ w : write,
          match w with
          | (ChunkMissing _, MissingFile items) => Some items
          | _ => None
          end) d.

(** The data files on a disk are the chunks, numbered from 1. *)
Definition holds_chunks (d : list write) (chunks : list (list parsed)) : Prop :=
  ∀ n records,
    (ChunkData n, DataFile records) ∈ d ↔ ∃ i, n = S i ∧ chunks !! i = Some records.

(** The special blocks of a report, all zero for the message block. *)
Definition report_kind_A (report : stats_report) : kind_A_stats :=
  default {| OpenNumber_success := 0; OpenDate_success := 0; total_A_items := 0 |}
          (kind_A_special_stats report).

Definition report_desc_fallback (report : stats_report) : desc_fallback_stats :=
  default {| Description_success_when_partial_missing := 0;
             total_partial_missing_items := 0 |}
          (description_fallback_stats report).

(** No success count of an accumulator or of a report exceeds its total. *)
Definition special_ok (k : kind_A_stats) (d : desc_fallback_stats) : Prop :=
  (OpenNumber_success k ≤ total_A_items k)%nat
  ∧ (OpenDate_success k ≤ total_A_items k)%nat
  ∧ (Description_success_when_partial_missing d ≤ total_partial_missing_items d)%nat.

Definition acc_bounded (acc : accumulator) : Prop :=
  (∀ field, (count_of (field_success_counts acc) field ≤ items_count acc)%nat)
  ∧ special_ok (kind_A acc) (desc_fallback acc).

Definition report_ok (report : stats_report) : Prop :=
  (∀ field row, field_extraction_success_rate report !! field = Some row →
     (success_count row ≤ total_items row)%nat
     ∧ total_items row = total_processed_items report)
  ∧ special_ok (report_kind_A report) (report_desc_fallback report).

(** A status is a dict: no field occurs twice. *)
Definition status_ok (res : file_result) : Prop := NoDup (fr_extraction_status res).*1.

(** ** [batch_convert]

    The files [batch_convert] writes into the output folder itself:
    [overall_extraction_stats_report.json], [overall_missing_items_report.json]
    and [overall_failures.log]. *)

Inductive overall_file :=
  | OverallStats (report : stats_report)
  | OverallMissing (items : list missing_report)
  | OverallFailures (entries : list (string * string)).

(** The variables of the loop over the years; the four [grand_...]
    statistics variables are one [accumulator]. *)
Record grand_state := {
  total_success_all_years : nat;
  total_fail_all_years : nat;
  all_failed_files_reports : list (string * string);
  grand : accumulator;
  grand_missing_item_reports_list : list missing_report;
}.

Definition initial_grand : grand_state :=
  {| total_success_all_years := 0; total_fail_all_years := 0;
     all_failed_files_reports := []; grand := empty_accumulator;
     grand_missing_item_reports_list := [] |}.

(** [for field_stat in rows: if field_name: counts[field_name] += success_cnt] *)
Definition add_rows (rows : gmap string field_rate) (counts : gmap string nat)
  : gmap string nat :=
  union_with (λ count success_cnt, Some (count + success_cnt)) counts
    (success_count <$> filter (λ kv : string * field_rate, kv.1 ≠ "") rows).

(** What one year adds: the blocks of its report are added only when they
    are not the message block. *)
Definition add_report (acc : accumulator) (report : stats_report) : accumulator :=
  {| items_count := items_count acc + total_processed_items report;
     field_success_counts :=
       add_rows (field_extraction_success_rate report) (field_success_counts acc);
     kind_A :=
       match kind_A_special_stats report with
       | Some year_kind_A =>
           {| OpenNumber_success :=
                OpenNumber_success (kind_A acc) + OpenNumber_success year_kind_A;
              OpenDate_success := OpenDate_success (kind_A acc) + OpenDate_success year_kind_A;
              total_A_items := total_A_items (kind_A acc) + total_A_items year_kind_A |}
       | None => kind_A acc
       end;
     desc_fallback :=
       match description_fallback_stats report with
       | Some year_desc_fallback =>
           {| Description_success_when_partial_missing :=
                Description_success_when_partial_missing (desc_fallback acc)
                + Description_success_when_partial_missing year_desc_fallback;
              total_partial_missing_items :=
                total_partial_missing_items (desc_fallback acc)
                + total_partial_missing_items year_desc_fallback |}
       | None => desc_fallback acc
       end |}.

(** The body of [for year in target_folders], after [process_year]. *)
Definition add_year (st : grand_state) (yr : year_result) : grand_state :=
  {| total_success_all_years := total_success_all_years st + yr_success yr;
     total_fail_all_years := total_fail_all_years st + yr_fail yr;
     all_failed_files_reports := all_failed_files_reports st ++ yr_failed_files yr;
     grand :=
       match yr_data yr with
       | Some (report, _) => add_report (grand st) report
       | None => grand st
       end;
     grand_missing_item_reports_list :=
       match yr_data yr with
       | Some (_, missing) => grand_missing_item_reports_list st ++ missing
       | None => grand_missing_item_reports_list st
       end |}.

(** What [batch_convert] leaves: the years' results, the files of the
    output folder, and the exception that ends it, if any. *)
Record batch_result := {
  bc_years : list year_result;
  bc_overall : list overall_file;
  bc_raised : option string;
}.

Section Batch_convert.
Variable json_size : parsed → nat.
Variable max_items_per_file : Z.
Variable max_file_size_gb : Z.

(** [years] holds, for every target folder, what the pool delivers for its
    files (nothing when the folder is missing or has no XML file).  The
    name [overall_missing_items_file_path] is bound only when there are
    missing items, and the summary line that follows reads it. *)
Definition batch_convert (input_folder_exists : bool) (years : list (list event))
  : batch_result :=
  if negb input_folder_exists
  then {| bc_years := []; bc_overall := []; bc_raised := None |}
  else
    let results :=
      map (process_year json_size max_items_per_file
             (max_file_size_gb * 1024 * 1024 * 1024)) years in
    let st := fold_left add_year results initial_grand in
    let overall_stats_report_data := report_of (grand st) in
    match grand_missing_item_reports_list st with
    | [] =>
        {| bc_years := results;
           bc_overall := [OverallStats overall_stats_report_data];
           bc_raised := Some "UnboundLocalError" |}
    | _ =>
        {| bc_years := results;
           bc_overall :=
             [OverallStats overall_stats_report_data;
              OverallMissing (grand_missing_item_reports_list st)]
             ++ match all_failed_files_reports st with
                | [] => []
                | _ => [OverallFailures (all_failed_files_reports st)]
                end;
           bc_raised := None |}
    end.

End Batch_convert.

(** The reports the years hand back. *)
Definition year_reports (years : list year_result) : list stats_report :=
  omap (λ yr, fst <$> yr_data yr) years.

(** A report has rows only when it has items, and its special blocks are
    within their totals: what [generate_stats_dict] makes of a year. *)
Definition report_wf (report : stats_report) : Prop :=
  (total_processed_items report = 0 → field_extraction_success_rate report = ∅)
  ∧ special_ok (report_kind_A report) (report_desc_fallback report).

Definition grand_ok (acc : accumulator) : Prop :=
  acc_ok acc ∧ special_ok (kind_A acc) (desc_fallback acc).

(** ** [strip_prefix] *)

(** [k.split(":")[-1]] *)
Fixpoint after_last_colon (k : string) : string :=
  match k with
  | EmptyString => EmptyString
  | String _ rest => if contains ":" k then after_last_colon rest else k
  end.

(** [d[k] = v]: a key the dict has keeps its place, a new key goes last. *)
Fixpoint dict_set (d : list (string * value)) (k : string) (v : value)
  : list (string * value) :=
  match d with
  | [] => [(k, v)]
  | (k', v') :: rest =>
      if String.eqb k' k then (k', v) :: rest else (k', v') :: dict_set rest k v
  end.

(** The dict comprehension assigns the stripped items one after the other. *)
Fixpoint strip_prefix (obj : value) : value :=
  match obj with
  | VDict items =>
      VDict (fold_left (λ d (kv : string * value), dict_set d kv.1 kv.2)
               (map (λ kv : string * value, (after_last_colon kv.1, strip_prefix kv.2)) items)
               [])
  | VList elems => VList (map strip_prefix elems)
  | _ => obj
  end.

(** Every map of the value, at any depth, has pairwise distinct keys
    without a colon. *)
Inductive plain_keys : value → Prop :=
  | plain_none : plain_keys VNone
  | plain_str s : plain_keys (VStr s)
  | plain_dict items :
      NoDup items.*1 →
      Forall (λ kv, contains ":" kv.1 = false ∧ plain_keys kv.2) items →
      plain_keys (VDict items)
  | plain_list elems : Forall plain_keys elems → plain_keys (VList elems).

(** ** [compare_folder.py]

    The two scans are maps from file name to size; the three result dicts
    hold the size, or the description of a difference (an f-string of the
    sizes in the source). *)

Inductive difference :=
  | OnlyInFirst (size1 : nat)
  | SizeMismatch (size1 size2 : nat)
  | OnlyInSecond (size2 : nat).

Definition matching_files (files_in_folder1 files_in_folder2 : gmap string nat)
  : gmap string nat :=
  filter (λ kv : string * nat, files_in_folder2 !! kv.1 = Some kv.2) files_in_folder1.

Definition unique_to_folder1_or_diff_size (files_in_folder1 files_in_folder2 : gmap string nat)
  : gmap string difference :=
  map_imap (λ filename size1,
              match files_in_folder2 !! filename with
              | None => Some (OnlyInFirst size1)
              | Some size2 =>
                  if decide (size2 = size1) then None else Some (SizeMismatch size1 size2)
              end) files_in_folder1.

Definition unique_to_folder2 (files_in_folder1 files_in_folder2 : gmap string nat)
  : gmap string difference :=
  map_imap (λ filename size2,
              match files_in_folder1 !! filename with
              | None => Some (OnlyInSecond size2)
              | Some _ => None
              end) files_in_folder2.

(** The final verdict: [True] for "all files match". *)
Definition folders_match (files_in_folder1 files_in_folder2 : gmap string nat) : bool :=
  bool_decide (size (unique_to_folder1_or_diff_size files_in_folder1 files_in_folder2) = 0
               ∧ size (unique_to_folder2 files_in_folder1 files_in_folder2) = 0).

(** ** From the files to the reports *)

Section Pipeline_vocabulary.
Context `{PyBuiltins} `{PartyExtractors}.

(** The results for the files of a year: each file with the time of its
    conversion, its path and what loading it gives. *)
Definition results_of (files : list (string * string * loaded)) : list file_result :=
  map (λ f, process_xml_file f.1.1 f.1.2 f.2) files.

End Pipeline_vocabulary.

(** Every count of a [defaultdict] that is only ever incremented is at
    least one: a field that was never extracted has no entry. *)
Definition counts_positive (counts : gmap string nat) : Prop :=
  ∀ field count, counts !! field = Some count → (1 ≤ count)%nat.

(** How often the results that carry a record list [field] as extracted. *)
Definition extractions (results : list file_result) (field : string) : nat :=
  sum_list_with (λ res, match carried res with
                        | Some _ => hits (fr_extraction_status res) field
                        | None => 0
                        end) results.

(** * Properties *)

(** ** Records of the variant parsers *)

Section Records.
Context `{PyBuiltins} `{PartyExtractors}.

Lemma kind_upper_str kind u :
  kind_upper kind = Returns (Some u) →
  ∃ s, kind = VStr s ∧ s ≠ "" ∧ u = py_upper s.
Proof.
  unfold kind_upper. destruct kind as [|s|items|elems]; simpl; try discriminate.
  - destruct (String.eqb_spec s ""); simpl; [discriminate|].
    intros [= <-]. eauto.
  - destruct items; discriminate.
  - destruct elems; discriminate.
Qed.

Lemma kind_upper_of_str s :
  s ≠ "" → kind_upper (VStr s) = Returns (Some (py_upper s)).
Proof.
  intros Hs. unfold kind_upper. simpl.
  destruct (String.eqb_spec s ""); [done|reflexivity].
Qed.

Lemma upper_in_spec u codes : upper_in (Some u) codes = true ↔ u ∈ codes.
Proof.
  unfold upper_in. rewrite existsb_exists. split.
  - intros (x & Hin & Heq). apply String.eqb_eq in Heq. subst.
    by apply list_elem_of_In.
  - intros Hin. exists u. split; [by apply list_elem_of_In|apply String.eqb_refl].
Qed.

(** In the B/C branch the register date is the publication date, so the
    later patch of [parse_business] never changes it. *)
Lemma format_numbers_register_date app_number pub_number pub_date kind app_date nums k :
  format_numbers app_number pub_number pub_date kind app_date = Returns nums →
  kind_upper kind = Returns k →
  upper_in k ["B"; "C"] = true →
  n_register_date nums = pub_date.
Proof.
  unfold format_numbers. intros Hf Hk Hin. rewrite Hk in Hf. simpl in Hf.
  rewrite Hin in Hf. by injection Hf as <-.
Qed.

Lemma parse_cn_patent_assembled root r :
  parse_cn_patent root = Returns r → assembled root r.
Proof.
  unfold parse_cn_patent.
  set (biblio := safe_dict_get root "cn-bibliographic-data" _).
  set (pub_ref := dict_or_empty (por (safe_get (safe_dict_get biblio "cn-publication-reference" _) _) _)).
  set (app_ref := dict_or_empty (por (safe_get (safe_dict_get biblio "application-reference" _) _) _)).
  destruct (format_numbers _ _ _ _ _) as [nums|] eqn:Hnums; simpl; [|discriminate].
  destruct (cn_party_fields root) as [pf|]; simpl; [|discriminate].
  destruct (find_description_in_document root) as [description|] eqn:Hfind; simpl;
    [|discriminate].
  destruct (extract_structured_description _ _) as [[drawing embodiment] full] eqn:Hsec.
  intros [= <-].
  do 5 eexists. exists description. split; [exact Hnums|].
  rewrite Hsec. by repeat split.
Qed.

Lemma parse_business_assembled root r :
  parse_business root = Returns r → assembled root r.
Proof.
  unfold parse_business.
  destruct (extract_publication_info _ _) as [pub_info pub_doc].
  destruct (extract_application_info _) as [application_number application_date].
  destruct (business_party_fields root) as [pf|]; simpl; [|discriminate].
  destruct (find_description_in_document root) as [description|] eqn:Hfind; simpl;
    [|discriminate].
  destruct (extract_structured_description _ _) as [[drawing embodiment] full] eqn:Hsec.
  destruct (format_numbers _ _ _ _ _) as [nums|] eqn:Hnums; simpl; [|discriminate].
  destruct (kind_upper _) as [k|] eqn:Hk; simpl; [|discriminate].
  intros [= <-].
  do 5 eexists. exists description. split; [exact Hnums|].
  rewrite Hsec. repeat split; try done. simpl.
  destruct (upper_in k ["B"; "C"]) eqn:Hin; simpl; [|done].
  rewrite (format_numbers_register_date _ _ _ _ _ _ _ Hnums Hk Hin).
  match goal with |- (if ?b then _ else _) = _ => by destruct b end.
Qed.

Lemma key_in_subscript key root v :
  key_in key root = Returns true → subscript root key = Returns v →
  ∃ items, root = VDict items ∧ dict_get items key = Some v.
Proof.
  destruct root as [|s|items|elems]; simpl; try discriminate.
  intros _. destruct (dict_get items key) as [w|] eqn:Hget; [|discriminate].
  intros [= <-]. eauto.
Qed.

Lemma process_fallback_xml_assembled root r :
  process_fallback_xml root = Returns (Some r) → assembled root r.
Proof.
  unfold process_fallback_xml.
  destruct (key_in "application-body" root) as [[]|] eqn:Hin1; simpl; try discriminate.
  destruct (subscript root "application-body") as [body|] eqn:Hsub1; simpl; [|discriminate].
  destruct (key_in "description" body) as [[]|] eqn:Hin2; simpl; try discriminate.
  destruct (subscript body "description") as [description|] eqn:Hsub2; simpl; [|discriminate].
  destruct (extract_structured_description _ _) as [[drawing embodiment] full] eqn:Hsec.
  destruct (format_numbers _ _ _ _ _) as [nums|] eqn:Hnums; simpl; [|discriminate].
  intros [= <-].
  destruct (key_in_subscript _ _ _ Hin1 Hsub1) as (items & -> & Hbody).
  destruct (key_in_subscript _ _ _ Hin2 Hsub2) as (bitems & -> & Hdesc).
  do 5 eexists. exists description. split; [exact Hnums|].
  split; [by repeat split|]. split; [done|]. split.
  - unfold find_description_in_document, safe_dict_get. by rewrite Hbody, Hdesc.
  - rewrite Hsec. by repeat split.
Qed.

Lemma parser_returns_assembled root r : parser_returns root r → assembled root r.
Proof.
  intros [Hp|[Hp|Hp]];
    eauto using parse_cn_patent_assembled, parse_business_assembled,
                process_fallback_xml_assembled.
Qed.

(** *** Numbering by [Kind] *)

Lemma format_numbers_registered app_number pub_number pub_date s app_date nums :
  format_numbers app_number pub_number pub_date (VStr s) app_date = Returns nums →
  s ≠ "" → py_upper s ∈ ["B"; "C"] →
  n_register_number nums = or_none (n_clean_app nums)
  ∧ n_clean_app nums = clean_application_number app_number
  ∧ n_register_date nums = pub_date
  ∧ n_publication_date nums = pub_date.
Proof.
  intros Hf Hs Hin. unfold format_numbers in Hf.
  apply upper_in_spec in Hin.
  pose proof (kind_upper_of_str s Hs) as Hk.
  remember (Some (py_upper s)) as k. rewrite Hk in Hf. simpl in Hf.
  rewrite Hin in Hf. by injection Hf as <-.
Qed.

Lemma format_numbers_utility app_number pub_number pub_date s app_date nums :
  format_numbers app_number pub_number pub_date (VStr s) app_date = Returns nums →
  s ≠ "" → py_upper s ∈ ["U"; "Y"] →
  n_open_number nums = VNone ∧ n_open_date nums = VNone.
Proof.
  intros Hf Hs Hin. unfold format_numbers in Hf.
  assert (upper_in (Some (py_upper s)) ["B"; "C"] = false) as HBC.
  { apply not_true_is_false. rewrite upper_in_spec.
    intros HBC. apply list_elem_of_In in Hin, HBC. simpl in Hin, HBC.
    destruct Hin as [Hu|[Hu|[]]], HBC as [Hb|[Hb|[]]]; congruence. }
  apply upper_in_spec in Hin.
  pose proof (kind_upper_of_str s Hs) as Hk.
  remember (Some (py_upper s)) as k. rewrite Hk in Hf. simpl in Hf.
  rewrite HBC, Hin in Hf. by injection Hf as <-.
Qed.

(** Cleaning an application number leaves nothing to clean. *)
Lemma before_dot_no_dot s : contains "." (before_dot s) = false.
Proof.
  induction s as [|c s IH]; [reflexivity|]. simpl before_dot.
  destruct (Ascii.eqb_spec c "."%char) as [->|Hc]; [reflexivity|].
  cbn [contains starts_with]. rewrite IH.
  by destruct (Ascii.eqb_spec "."%char c) as [<-|_].
Qed.

Lemma clean_application_number_no_dot s :
  contains "." s = false → clean_application_number (VStr s) = VStr s.
Proof.
  intros Hs. unfold clean_application_number. simpl.
  destruct (String.eqb s ""); simpl; [reflexivity|]. by rewrite Hs.
Qed.

Lemma clean_application_number_idempotent app_number :
  clean_application_number (clean_application_number app_number)
  = clean_application_number app_number.
Proof.
  destruct (truthy app_number) eqn:Ht.
  - assert (∃ t, clean_application_number app_number = VStr t ∧ contains "." t = false)
      as (t & -> & Ht').
    { unfold clean_application_number. rewrite Ht. simpl.
      destruct (contains "." (py_str app_number)) eqn:Hdot; eauto using before_dot_no_dot. }
    by apply clean_application_number_no_dot.
  - assert (clean_application_number app_number = app_number) as Heq.
    { unfold clean_application_number. by rewrite Ht. }
    by rewrite !Heq.
Qed.

(** *** The description fields *)

Lemma scrub_tables_not_empty raw_text : scrub_tables raw_text ≠ Some "".
Proof.
  unfold scrub_tables. destruct (text_truthy raw_text); [|done].
  match goal with |- context [String.eqb ?r ""] => destruct (String.eqb_spec r "") end;
    congruence.
Qed.

Lemma text_truthy_not_empty t : text_truthy t = true → t ≠ Some "".
Proof. intros Ht ->. discriminate. Qed.

(** A section is either absent or a non-empty text. *)
Lemma extract_structured_description_sections description all_paragraphs :
  let sections := extract_structured_description description all_paragraphs in
  sections.1.1 ≠ Some "" ∧ sections.1.2 ≠ Some "".
Proof.
  unfold extract_structured_description.
  set (tagged := match description with VDict _ => _ | _ => (None, None) end).
  assert (tagged.1 ≠ Some "" ∧ tagged.2 ≠ Some "") as [Hd He].
  { subst tagged. destruct description; simpl; try done.
    split; match goal with |- (if ?b then _ else _) ≠ _ => destruct b end;
      auto using scrub_tables_not_empty. }
  destruct tagged as [drawing embodiment]. simpl in Hd, He.
  destruct (negb (text_truthy drawing) || negb (text_truthy embodiment)); [|done].
  destruct all_paragraphs as [|p ps]; [done|].
  destruct (extract_description_sections (p :: ps)) as [[md me] mf]. simpl.
  split.
  - destruct (negb (text_truthy drawing) && text_truthy md) eqn:Hc; [|done].
    apply andb_prop in Hc as [_ Hc]. by apply text_truthy_not_empty.
  - destruct (negb (text_truthy embodiment) && text_truthy me) eqn:Hc; [|done].
    apply andb_prop in Hc as [_ Hc]. by apply text_truthy_not_empty.
Qed.

Lemma of_text_truthy t : t ≠ Some "" → truthy (of_text t) = false → of_text t = VNone.
Proof.
  destruct t as [s|]; simpl; [|done].
  destruct (String.eqb_spec s ""); [congruence|done].
Qed.

(** C1 (as amended).  In every record a variant parser returns, a non-null
    [Description] implies that [BriefDescriptionOfDrawings] or
    [DescriptionOfEmbodiments] is null, so with both sections present
    [Description] is null; and when a section is null, [Description] is the
    undivided text of the description node, null when the document has no
    description node that is a map. *)
Theorem description_only_without_both_sections root r :
  parser_returns root r →
  (Description r ≠ VNone →
     BriefDescriptionOfDrawings r = VNone ∨ DescriptionOfEmbodiments r = VNone)
  ∧ (BriefDescriptionOfDrawings r ≠ VNone → DescriptionOfEmbodiments r ≠ VNone →
     Description r = VNone)
  ∧ (BriefDescriptionOfDrawings r = VNone ∨ DescriptionOfEmbodiments r = VNone →
     ∃ description,
       find_description_in_document root = Returns description
       ∧ Description r =
           match description with
           | VDict _ => of_text (extract_text description)
           | _ => VNone
           end).
Proof.
  intros Hr. apply parser_returns_assembled in Hr.
  destruct Hr as (_ & _ & _ & _ & _ & description & _ & _ & _ & Hfind & Hb & He & Hd).
  set (all_paragraphs := extract_description_paragraphs description) in *.
  pose proof (extract_structured_description_sections description all_paragraphs) as [Hdn Hen].
  assert (∀ full, (extract_structured_description description all_paragraphs).2 = full →
            of_text full = match description with
                           | VDict _ => of_text (extract_text description)
                           | _ => VNone
                           end) as Hfull.
  { intros full <-. unfold extract_structured_description.
    repeat match goal with |- context [let '(_, _) := ?x in _] => destruct x end.
    by destruct description. }
  simpl in Hdn, Hen.
  destruct (truthy (of_text _.1.1)) eqn:Htd in Hd; simpl in Hd.
  - destruct (truthy (of_text _.1.2)) eqn:Hte in Hd; simpl in Hd.
    + rewrite Hd. split; [done|]. split; [done|].
      intros [Hnone|Hnone]; [rewrite Hb in Hnone|rewrite He in Hnone];
        rewrite Hnone in *; discriminate.
    + apply (of_text_truthy _ Hen) in Hte. rewrite <- He in Hte.
      split; [auto|]. split; [done|]. intros _. exists description.
      split; [done|]. rewrite Hd. by apply Hfull.
  - apply (of_text_truthy _ Hdn) in Htd. rewrite <- Hb in Htd.
    split; [auto|]. split; [done|]. intros _. exists description.
    split; [done|]. rewrite Hd. by apply Hfull.
Qed.

(** C4 (as amended).  In every record whose [Kind] is B or C up to case,
    [RegisterNumber] is the normalized [ApplicationNumber] when that is
    non-empty and null when it is empty or null, [ApplicationNumber] is
    already normalized, and [RegisterDate] equals [PublicationDate]. *)
Theorem registered_kind_numbering root r :
  parser_returns root r → kind_among ["B"; "C"] r →
  RegisterNumber r =
    (if truthy (ApplicationNumber r)
     then clean_application_number (ApplicationNumber r) else VNone)
  ∧ clean_application_number (ApplicationNumber r) = ApplicationNumber r
  ∧ RegisterDate r = PublicationDate r.
Proof.
  intros Hr (s & Hkind & Hs & Hin). apply parser_returns_assembled in Hr.
  destruct Hr as (app_number & pub_number & pub_date & app_date & nums & _
                  & Hf & Hn & _).
  destruct Hn as (_ & _ & Hrn & Hrd & _ & Hpd & Han).
  rewrite Hkind in Hf.
  destruct (format_numbers_registered _ _ _ _ _ _ Hf Hs Hin) as (Hreg & Hclean & Hdate & Hpub).
  assert (clean_application_number (ApplicationNumber r) = ApplicationNumber r) as Hidem.
  { rewrite Han, Hclean. apply clean_application_number_idempotent. }
  split; [|split; [done|congruence]].
  rewrite Hidem, Hrn, Hreg, Han. reflexivity.
Qed.

(** C5.  In every record whose [Kind] is U or Y up to case, [OpenNumber]
    and [OpenDate] are null. *)
Theorem utility_model_has_no_open_fields root r :
  parser_returns root r → kind_among ["U"; "Y"] r →
  OpenNumber r = VNone ∧ OpenDate r = VNone.
Proof.
  intros Hr (s & Hkind & Hs & Hin). apply parser_returns_assembled in Hr.
  destruct Hr as (app_number & pub_number & pub_date & app_date & nums & _
                  & Hf & Hn & _).
  destruct Hn as (Hon & Hod & _).
  rewrite Hkind in Hf.
  destruct (format_numbers_utility _ _ _ _ _ _ Hf Hs Hin) as [Hnum Hdate].
  by rewrite Hon, Hod.
Qed.

(** *** The missing-field report *)

Lemma dispatch_parser_returns data r :
  dispatch data = Returns (Some r) → ∃ root, parser_returns root r.
Proof.
  unfold dispatch. destruct data as [| |[|[root_key root] rest]|]; try discriminate.
  destruct (starts_with _ _).
  { destruct (parse_cn_patent root) as [r'|] eqn:Hp; simpl; [|discriminate].
    intros [= <-]. exists root. by left. }
  destruct (ends_with _ _).
  { destruct (parse_business root) as [r'|] eqn:Hp; simpl; [|discriminate].
    intros [= <-]. exists root. right. by left. }
  intros Hp. exists root. right. by right.
Qed.

Lemma summary_of_invention_detected r :
  SummaryOfInvention r = VNone →
  ("SummaryOfInvention", false) ∈ extraction_status_of r
  ∧ "SummaryOfInvention" ∈ detected_missing_fields_of (extraction_status_of r).
Proof.
  intros Hnone.
  assert (("SummaryOfInvention", false) ∈ extraction_status_of r) as Hin.
  { unfold extraction_status_of.
    apply (list_elem_of_fmap_2' _ _ ("SummaryOfInvention", SummaryOfInvention r)).
    - unfold parsed_items. do 15 apply list_elem_of_further. apply list_elem_of_here.
    - simpl. by rewrite Hnone. }
  split; [done|]. unfold detected_missing_fields_of.
  apply (list_elem_of_fmap_2' _ _ ("SummaryOfInvention", false)); [|done].
  by apply list_elem_of_filter.
Qed.

(** C9.  Every successfully parsed document yields a missing-field report:
    the record's [SummaryOfInvention] is null, its extraction status marks
    that field as absent, and [missing_details] exists and lists it. *)
Theorem parsed_document_always_reports_missing now file_path xml :
  fr_error (process_xml_file now file_path xml) = None →
  ∃ r m,
    fr_parsed_data (process_xml_file now file_path xml) = Some r
    ∧ SummaryOfInvention r = VNone
    ∧ ("SummaryOfInvention", false)
        ∈ fr_extraction_status (process_xml_file now file_path xml)
    ∧ fr_missing_details (process_xml_file now file_path xml) = Some m
    ∧ full_file_path m = file_path
    ∧ "SummaryOfInvention" ∈ missing_fields m.
Proof.
  unfold process_xml_file. destruct xml as [|e|data]; try discriminate.
  destruct (dispatch data) as [[r|]|e] eqn:Hd; try discriminate.
  intros _. apply dispatch_parser_returns in Hd as [root Hr].
  apply parser_returns_assembled in Hr.
  destruct Hr as (_ & _ & _ & _ & _ & _ & _ & _ & Hnone & _).
  set (r' := update_meta r _).
  assert (SummaryOfInvention r' = VNone) as Hnone' by done.
  destruct (summary_of_invention_detected r' Hnone') as [Hstatus Hmissing].
  unfold missing_details_of. simpl.
  destruct (detected_missing_fields_of (extraction_status_of r')) as [|f fs] eqn:Hfields.
  { by apply elem_of_nil in Hmissing. }
  eexists r', _. repeat split; done.
Qed.

End Records.

(** ** The chunking loop *)

Section Batch_properties.
Variable json_size : parsed → nat.
Variable max_items_per_file : Z.
Variable max_size_bytes : Z.
Abbreviation process_result := (process_result json_size max_items_per_file max_size_bytes).
Abbreviation must_seal := (must_seal max_items_per_file max_size_bytes).
Abbreviation consume := (consume json_size max_items_per_file max_size_bytes).
Abbreviation process_year := (process_year json_size max_items_per_file max_size_bytes).
Abbreviation total_size := (total_size json_size).
Abbreviation run := (run json_size max_items_per_file max_size_bytes).
Abbreviation would_exceed := (would_exceed max_items_per_file max_size_bytes).
Abbreviation chunk_ok := (chunk_ok json_size max_items_per_file max_size_bytes).
Abbreviation bounded := (bounded json_size max_items_per_file max_size_bytes).
Abbreviation interrupted := (interrupted json_size max_items_per_file max_size_bytes).
Abbreviation interrupted_seal := (interrupted_seal json_size max_items_per_file max_size_bytes).

Lemma must_seal_spec st item_size :
  must_seal st item_size = true ↔ current_chunk_data st ≠ [] ∧ would_exceed st item_size.
Proof.
  unfold must_seal, would_exceed. destruct (current_chunk_data st) as [|r rs].
  - split; [discriminate|]. by intros [? _].
  - rewrite orb_true_iff, Z.leb_le, Z.ltb_lt. split.
    + intros Hc. split; [done|]. simpl length in *. lia.
    + intros [_ Hc]. simpl length in *. lia.
Qed.

Lemma consume_completed st results rest :
  consume st (map Completed results ++ rest) = consume (fold_left process_result results st) rest.
Proof.
  revert st. induction results as [|res results IH]; intros st; [reflexivity|].
  simpl. apply IH.
Qed.

(** Where the loop stops: after all results, or at the first interruption. *)
Lemma consume_split events :
  ∃ results,
    (events = map Completed results
     ∧ consume initial_state events = (run results, None))
    ∨ (∃ point rest, events = map Completed results ++ KeyboardInterrupt point :: rest
       ∧ consume initial_state events = (run results, Some point)).
Proof.
  assert (∀ st, ∃ results,
            (events = map Completed results
             ∧ consume st events = (fold_left process_result results st, None))
            ∨ (∃ point rest,
                 events = map Completed results ++ KeyboardInterrupt point :: rest
                 ∧ consume st events = (fold_left process_result results st, Some point)))
    as Hgen.
  { induction events as [|[res|point] events IH]; intros st.
    - exists []. by left.
    - destruct (IH (process_result st res)) as (results & [[-> Hc]|(point & rest & -> & Hc)]).
      + exists (res :: results). left. by split.
      + exists (res :: results). right. exists point, rest. by split.
    - exists []. right. by exists point, events. }
  apply Hgen.
Qed.

Lemma consume_all results :
  consume initial_state (map Completed results) = (run results, None).
Proof. by rewrite <- (app_nil_r (map Completed results)), consume_completed. Qed.

(** A year with files that is not interrupted. *)
Lemma process_year_completed results :
  results ≠ [] →
  let st := seal_last_chunk (run results) in
  process_year (map Completed results) =
    {| yr_success := success_count_ st; yr_fail := fail_count st;
       yr_failed_files := failed_files st;
       yr_data := Some (report_of (year_acc st), yearly_total_missing_item_reports st);
       yr_disk := disk st ++ year_writes st |}.
Proof.
  intros Hne. unfold process_year. rewrite consume_all.
  by destruct results.
Qed.

(** A year that is interrupted after [results]. *)
Lemma process_year_interrupted results point rest :
  let st := interrupted (run results) point in
  process_year (map Completed results ++ KeyboardInterrupt point :: rest) =
    {| yr_success := success_count_ st; yr_fail := fail_count st;
       yr_failed_files := failed_files st;
       yr_data := Some (report_of (year_acc st), yearly_total_missing_item_reports st);
       yr_disk := disk st |}.
Proof.
  unfold process_year. rewrite consume_completed. by destruct results.
Qed.

Lemma run_snoc results res : run (results ++ [res]) = process_result (run results) res.
Proof. unfold run. by rewrite fold_left_app. Qed.

(** Invariants of the loop are proved step by step. *)
Lemma run_invariant (P : loop_state → Prop) :
  P initial_state →
  (∀ st res, P st → P (process_result st res)) →
  ∀ results, P (run results).
Proof.
  intros Hinit Hstep results. induction results as [|res results IH] using rev_ind; [done|].
  rewrite run_snoc. by apply Hstep.
Qed.

(** One step of the loop on a result that carries a record. *)
Lemma process_result_carries st res parsed_data :
  carries res parsed_data →
  process_result st res =
    let status := fr_extraction_status res in
    let year := record_item (year_acc st) parsed_data status in
    let yearly_missing :=
      yearly_total_missing_item_reports st ++ option_list (fr_missing_details res) in
    let chunk_missing :=
      current_chunk_missing_details_list st ++ option_list (fr_missing_details res) in
    let chunk := record_item (chunk_acc st) parsed_data status in
    if must_seal st (json_size parsed_data) then
      {| chunk_count := S (chunk_count st);
         current_chunk_data := [parsed_data];
         current_size_bytes := json_size parsed_data;
         success_count_ := S (success_count_ st);
         fail_count := fail_count st;
         failed_files := failed_files st;
         year_acc := year;
         yearly_total_missing_item_reports := yearly_missing;
         chunk_acc := empty_accumulator;
         current_chunk_missing_details_list := [];
         disk := disk st ++ chunk_writes true (S (chunk_count st))
                              (current_chunk_data st) chunk chunk_missing |}
    else
      {| chunk_count := chunk_count st;
         current_chunk_data := current_chunk_data st ++ [parsed_data];
         current_size_bytes := current_size_bytes st + json_size parsed_data;
         success_count_ := S (success_count_ st);
         fail_count := fail_count st;
         failed_files := failed_files st;
         year_acc := year;
         yearly_total_missing_item_reports := yearly_missing;
         chunk_acc := chunk;
         current_chunk_missing_details_list := chunk_missing;
         disk := disk st |}.
Proof. intros [Herr Hdata]. unfold process_result. by rewrite Herr, Hdata. Qed.

(** A result without a record leaves chunk, statistics and disk alone. *)
Lemma process_result_no_record st res :
  (∀ parsed_data, ¬ carries res parsed_data) →
  let st' := process_result st res in
  chunk_count st' = chunk_count st
  ∧ current_chunk_data st' = current_chunk_data st
  ∧ current_size_bytes st' = current_size_bytes st
  ∧ year_acc st' = year_acc st
  ∧ chunk_acc st' = chunk_acc st
  ∧ disk st' = disk st.
Proof.
  intros Hno. unfold process_result.
  destruct (text_truthy (fr_error res)) eqn:Herr; [done|].
  destruct (fr_parsed_data res) as [parsed_data|] eqn:Hdata; [|done].
  by destruct (Hno parsed_data).
Qed.

Lemma carries_dec res : (∃ parsed_data, carries res parsed_data) ∨ ∀ parsed_data, ¬ carries res parsed_data.
Proof.
  unfold carries. destruct (text_truthy (fr_error res)); [right; by intros ? [? _]|].
  destruct (fr_parsed_data res) as [parsed_data|]; [left; eauto|right; by intros ? [_ ?]].
Qed.

(** *** What an interruption leaves *)

Lemma consumed_completed results : consumed (map Completed results) = results.
Proof. induction results as [|res results IH]; [done|]. simpl. by rewrite IH. Qed.

Lemma consumed_interrupted results point rest :
  consumed (map Completed results ++ KeyboardInterrupt point :: rest)
  = results ++ match point with Sealing res _ _ => [res] | _ => [] end.
Proof.
  induction results as [|res results IH]; [by destruct point|]. simpl. by rewrite IH.
Qed.

Lemma elem_of_cut_short writes written cut w :
  w ∈ cut_short writes written cut →
  w ∈ writes ∨ (w.2 = Incomplete ∧ ∃ content, (w.1, content) ∈ writes).
Proof.
  unfold cut_short. rewrite elem_of_app. intros [Hin|Hin].
  - left. by apply (subseteq_take written).
  - revert Hin.
    destruct (drop written writes) as [|[name content] later] eqn:Hdrop; intros Hin;
      [by apply elem_of_nil in Hin|].
    destruct cut; [|by apply elem_of_nil in Hin].
    apply list_elem_of_singleton in Hin as ->. right. split; [done|].
    exists content. apply (subseteq_drop written writes (name, content)).
    rewrite Hdrop. apply list_elem_of_here.
Qed.

Lemma cut_short_nil written cut : cut_short [] written cut = [].
Proof. unfold cut_short. by rewrite take_nil, drop_nil. Qed.



(** The seal a result sets off, and what an interruption leaves of it. *)
Lemma interrupted_seal_disk st res written cut :
  ∃ writes,
    disk (process_result st res) = disk st ++ writes
    ∧ disk (interrupted_seal st res written cut) = disk st ++ cut_short writes written cut
    ∧ (writes = []
       ∨ ∃ parsed_data,
           carries res parsed_data ∧ current_chunk_data st ≠ []
           ∧ writes = chunk_writes true (S (chunk_count st)) (current_chunk_data st)
                        (record_item (chunk_acc st) parsed_data (fr_extraction_status res))
                        (current_chunk_missing_details_list st
                         ++ option_list (fr_missing_details res))).
Proof.
  unfold interrupted_seal, process_result.
  destruct (text_truthy (fr_error res)) eqn:Herr.
  { exists []. simpl. rewrite cut_short_nil, app_nil_r. split; [done|]. split; [done|].
    by left. }
  destruct (fr_parsed_data res) as [parsed_data|] eqn:Hdata.
  2: { exists []. simpl. rewrite cut_short_nil, app_nil_r. split; [done|]. split; [done|].
       by left. }
  destruct (must_seal st (json_size parsed_data)) eqn:Hseal.
  - eexists. simpl. split; [done|]. split; [done|]. right. exists parsed_data.
    apply must_seal_spec in Hseal as [Hne _]. by repeat split.
  - exists []. simpl. rewrite cut_short_nil, app_nil_r. split; [done|]. split; [done|].
    by left.
Qed.

Lemma interrupted_seal_fields st res written cut :
  let st' := interrupted_seal st res written cut in
  let after := process_result st res in
  success_count_ st' = success_count_ after ∧ fail_count st' = fail_count after
  ∧ failed_files st' = failed_files after ∧ year_acc st' = year_acc after
  ∧ yearly_total_missing_item_reports st' = yearly_total_missing_item_reports after.
Proof.
  cbv zeta. unfold interrupted_seal, process_result.
  destruct (text_truthy (fr_error res)); [done|].
  destruct (fr_parsed_data res) as [parsed_data|]; [|done].
  by destruct (must_seal st (json_size parsed_data)).
Qed.

Lemma interrupted_flush_disk st written cut :
  ∃ writes,
    disk (seal_last_chunk st) = disk st ++ writes
    ∧ disk (interrupted_flush st written cut) = disk st ++ cut_short writes written cut
    ∧ (writes = []
       ∨ current_chunk_data st ≠ []
         ∧ writes = chunk_writes false (S (chunk_count st)) (current_chunk_data st)
                      (chunk_acc st) (current_chunk_missing_details_list st)).
Proof.
  unfold interrupted_flush, seal_last_chunk.
  destruct (current_chunk_data st) as [|r rs] eqn:Hdata.
  - exists []. rewrite cut_short_nil, app_nil_r. split; [done|]. split; [done|]. by left.
  - eexists. simpl. split; [done|]. split; [done|]. right. by split.
Qed.

Lemma interrupted_flush_fields st written cut :
  let st' := interrupted_flush st written cut in
  success_count_ st' = success_count_ st ∧ fail_count st' = fail_count st
  ∧ failed_files st' = failed_files st ∧ year_acc st' = year_acc st
  ∧ yearly_total_missing_item_reports st' = yearly_total_missing_item_reports st.
Proof. cbv zeta. unfold interrupted_flush. by destruct (current_chunk_data st). Qed.


Lemma disk_seal_last_chunk st : disk st ⊆ disk (seal_last_chunk st).
Proof.
  unfold seal_last_chunk. destruct (current_chunk_data st); [done|]. simpl.
  intros w Hin. rewrite elem_of_app. by left.
Qed.

(** What the handler returns is what the loop would hold after the results
    it consumed; every complete file on the disk is one that the year
    would have written, had it not been interrupted. *)
Lemma interrupted_run results point rest :
  let st' := interrupted (run results) point in
  let after := run (consumed (map Completed results ++ KeyboardInterrupt point :: rest)) in
  success_count_ st' = success_count_ after ∧ fail_count st' = fail_count after
  ∧ failed_files st' = failed_files after ∧ year_acc st' = year_acc after
  ∧ yearly_total_missing_item_reports st' = yearly_total_missing_item_reports after
  ∧ ∀ w, w ∈ disk st' → w.2 = Incomplete ∨ w ∈ disk (seal_last_chunk after).
Proof.
  cbv zeta. rewrite consumed_interrupted.
  destruct point as [|res written cut|written cut]; simpl interrupted.
  - rewrite app_nil_r. do 5 (split; [done|]). intros w Hin. right.
    by apply disk_seal_last_chunk.
  - rewrite run_snoc.
    destruct (interrupted_seal_fields (run results) res written cut)
      as (-> & -> & -> & -> & ->).
    do 5 (split; [done|]). intros w.
    destruct (interrupted_seal_disk (run results) res written cut) as (writes & Hd & -> & _).
    rewrite elem_of_app. intros [Hin|Hin].
    + right. apply disk_seal_last_chunk. rewrite Hd, elem_of_app. by left.
    + apply elem_of_cut_short in Hin as [Hin|[Hin _]]; [|by left].
      right. apply disk_seal_last_chunk. rewrite Hd, elem_of_app. by right.
  - rewrite app_nil_r.
    destruct (interrupted_flush_fields (run results) written cut)
      as (-> & -> & -> & -> & ->).
    do 5 (split; [done|]). intros w.
    destruct (interrupted_flush_disk (run results) written cut) as (writes & Hd & -> & _).
    rewrite Hd, !elem_of_app. intros [Hin|Hin]; [right; by left|].
    apply elem_of_cut_short in Hin as [Hin|[Hin _]]; [|by left]. right. by right.
Qed.

Lemma data_files_app d1 d2 : data_files (d1 ++ d2) = data_files d1 ++ data_files d2.
Proof. apply omap_app. Qed.

Lemma data_files_chunk_writes in_loop n data acc missing :
  ∀ m records, (m, records) ∈ data_files (chunk_writes in_loop n data acc missing) →
               m = n ∧ records = data.
Proof.
  intros m records. unfold chunk_writes.
  destruct in_loop, missing; simpl; rewrite ?elem_of_cons, elem_of_nil;
    intros Hin; repeat (destruct Hin as [Hin|Hin]); try done; by injection Hin.
Qed.

Lemma elem_of_data_files d n records :
  (ChunkData n, DataFile records) ∈ d ↔ (n, records) ∈ data_files d.
Proof.
  unfold data_files. rewrite list_elem_of_omap. split.
  - intros Hin. by exists (ChunkData n, DataFile records).
  - intros ([[] []] & Hin & Heq); simplify_eq. done.
Qed.

Lemma total_size_snoc records r : total_size (records ++ [r]) = total_size records + json_size r.
Proof. unfold total_size. rewrite sum_list_with_app. simpl. lia. Qed.

Lemma bounded_step st res :
  (1 ≤ max_items_per_file)%Z → bounded st → bounded (process_result st res).
Proof.
  intros Hmax (Hdisk & Hsize & Hcur).
  destruct (carries_dec res) as [[parsed_data Hc]|Hno].
  2: { destruct (process_result_no_record st res Hno) as (_ & Hd & Hs & _ & _ & Hk).
       unfold bounded. by rewrite Hd, Hs, Hk. }
  rewrite (process_result_carries _ _ _ Hc). cbv zeta.
  destruct (must_seal st (json_size parsed_data)) eqn:Hseal.
  - apply must_seal_spec in Hseal as [Hne _].
    split; [|split]; simpl.
    + intros n records. rewrite data_files_app, elem_of_app.
      intros [Hin|Hin]; [eauto|].
      apply data_files_chunk_writes in Hin as [_ ->]. auto.
    + unfold total_size. simpl. lia.
    + intros _. split; [done|]. split; [simpl; lia|by right].
  - split; [|split]; simpl; [done|by rewrite total_size_snoc, Hsize|].
    intros _. split; [by destruct (current_chunk_data st)|].
    rewrite length_app, total_size_snoc. simpl.
    destruct (current_chunk_data st) as [|r rs] eqn:Hdata.
    { split; [simpl; lia|by right]. }
    unfold must_seal in Hseal. rewrite Hdata in Hseal.
    apply orb_false_elim in Hseal as [Hitems Hbytes].
    apply Z.leb_gt in Hitems. apply Z.ltb_ge in Hbytes.
    rewrite Hsize in Hbytes. split; [lia|left; lia].
Qed.

Lemma bounded_run results : (1 ≤ max_items_per_file)%Z → bounded (run results).
Proof.
  intros Hmax. apply run_invariant.
  - split; [|split]; simpl; [|done|done]. intros n records Hin. by apply elem_of_nil in Hin.
  - intros st res. by apply bounded_step.
Qed.

Lemma data_files_year_writes st : data_files (year_writes st) = [].
Proof. unfold year_writes. by destruct (yearly_total_missing_item_reports st). Qed.

Lemma bounded_seal_last_chunk st :
  bounded st →
  ∀ n records, (n, records) ∈ data_files (disk (seal_last_chunk st)) → chunk_ok records.
Proof.
  intros (Hdisk & _ & Hcur) n records. unfold seal_last_chunk.
  destruct (current_chunk_data st) as [|r rs] eqn:Hdata; [apply Hdisk|]. simpl.
  rewrite data_files_app, elem_of_app. intros [Hin|Hin]; [eauto|].
  apply data_files_chunk_writes in Hin as [_ ->]. by apply Hcur.
Qed.

(** C2 (as amended).  With a limit of at least one item per file, every
    data file [process_year] writes, interrupted or not, holds at least one
    record, at most [max_items_per_file] records, and at most
    [max_size_bytes] bytes of records unless it holds exactly one record.
    A record that arrives seals the active chunk exactly when that chunk is
    not empty and appending the record would exceed a bound; otherwise it
    is appended and nothing is written.  After the loop the active chunk is
    sealed exactly when it is not empty. *)
Theorem sealed_chunks_are_bounded :
  (1 ≤ max_items_per_file)%Z →
  (∀ events n records,
     (ChunkData n, DataFile records) ∈ yr_disk (process_year events) → chunk_ok records)
  ∧ (∀ st res parsed_data,
       carries res parsed_data →
       let st' := process_result st res in
       (current_chunk_data st ≠ [] ∧ would_exceed st (json_size parsed_data) →
          chunk_count st' = S (chunk_count st)
          ∧ (ChunkData (S (chunk_count st)), DataFile (current_chunk_data st)) ∈ disk st'
          ∧ current_chunk_data st' = [parsed_data])
       ∧ (¬ (current_chunk_data st ≠ [] ∧ would_exceed st (json_size parsed_data)) →
          chunk_count st' = chunk_count st
          ∧ disk st' = disk st
          ∧ current_chunk_data st' = current_chunk_data st ++ [parsed_data]))
  ∧ (∀ st,
       (current_chunk_data st ≠ [] →
          (ChunkData (S (chunk_count st)), DataFile (current_chunk_data st))
            ∈ disk (seal_last_chunk st))
       ∧ (current_chunk_data st = [] → seal_last_chunk st = st)).
Proof.
  intros Hmax. split; [|split].
  - intros events n records. rewrite elem_of_data_files.
    unfold process_year.
    destruct events as [|e events]; [simpl; by rewrite elem_of_nil|].
    destruct (consume_split (e :: events)) as (results & [[_ ->]|(point & rest & _ & ->)]).
    + simpl yr_disk. rewrite data_files_app, data_files_year_writes, app_nil_r.
      apply bounded_seal_last_chunk, bounded_run, Hmax.
    + cbv zeta. simpl yr_disk. rewrite <- elem_of_data_files. intros Hin.
      destruct (interrupted_run results point rest) as (_ & _ & _ & _ & _ & Hdisk).
      apply Hdisk in Hin as [Hin|Hin]; [discriminate|].
      apply elem_of_data_files in Hin. revert Hin.
      apply bounded_seal_last_chunk, bounded_run, Hmax.
  - intros st res parsed_data Hc. cbv zeta.
    rewrite (process_result_carries _ _ _ Hc). cbv zeta.
    rewrite <- must_seal_spec.
    destruct (must_seal st (json_size parsed_data)); simpl.
    + split; [|done]. intros _. split; [done|]. split; [|done].
      rewrite elem_of_app. right. unfold chunk_writes. simpl. apply list_elem_of_here.
    + split; [done|]. by intros _.
  - intros st. unfold seal_last_chunk.
    destruct (current_chunk_data st) as [|r rs] eqn:Hdata; split; try done.
    intros _. simpl. rewrite elem_of_app. right. apply list_elem_of_here.
Qed.

(** *** Statistics are additive *)

Lemma count_of_insert counts f n field :
  count_of (<[f := n]> counts) field = if decide (f = field) then n else count_of counts field.
Proof. unfold count_of. rewrite lookup_insert. by destruct (decide (f = field)). Qed.

Lemma count_of_count_fields status counts field :
  count_of (count_fields status counts) field = count_of counts field + hits status field.
Proof.
  unfold count_fields, hits. revert counts.
  induction status as [|[f b] status IH]; intros counts; simpl; [lia|].
  rewrite IH. rewrite filter_cons. simpl.
  destruct b; simpl.
  - rewrite count_of_insert.
    destruct (decide (f = field)) as [->|Hne].
    + rewrite decide_True by done. simpl. lia.
    + rewrite decide_False by (by intros [? _]). done.
  - rewrite decide_False by (by intros [_ ?]). done.
Qed.

Lemma acc_ok_empty : acc_ok empty_accumulator.
Proof. by intros _. Qed.

Lemma acc_ok_record_item acc parsed_data status : acc_ok (record_item acc parsed_data status).
Proof. intros Hitems. simpl in Hitems. lia. Qed.

Lemma report_success_count_report_of acc field :
  acc_ok acc →
  report_success_count (report_of acc) field = count_of (field_success_counts acc) field.
Proof.
  intros Hok. unfold report_success_count, report_of, generate_stats_dict, count_of. simpl.
  destruct (items_count acc) as [|n] eqn:Hitems; simpl.
  - rewrite (Hok Hitems), !lookup_empty. done.
  - rewrite lookup_fmap. by destruct (field_success_counts acc !! field).
Qed.

Lemma chunk_reports_app d1 d2 : chunk_reports (d1 ++ d2) = chunk_reports d1 ++ chunk_reports d2.
Proof. apply omap_app. Qed.

Lemma chunk_reports_chunk_writes in_loop n data acc missing :
  chunk_reports (chunk_writes in_loop n data acc missing) = [report_of acc].
Proof. unfold chunk_writes. by destruct in_loop, missing. Qed.

Lemma chunk_reports_year_writes st : chunk_reports (year_writes st) = [].
Proof. unfold year_writes. by destruct (yearly_total_missing_item_reports st). Qed.

Lemma additive_step st res : additive st → additive (process_result st res).
Proof.
  intros (Hyear & Hchunk & Hempty & Hsum).
  destruct (carries_dec res) as [[parsed_data Hc]|Hno].
  2: { destruct (process_result_no_record st res Hno) as (_ & Hd & _ & Hy & Ha & Hk).
       unfold additive. by rewrite Hd, Hy, Ha, Hk. }
  rewrite (process_result_carries _ _ _ Hc). cbv zeta.
  destruct (must_seal st (json_size parsed_data)); simpl.
  - split; [apply acc_ok_record_item|]. split; [apply acc_ok_empty|]. split; [done|].
    intros field. simpl.
    rewrite chunk_reports_app, chunk_reports_chunk_writes.
    unfold sum_of_reports. rewrite sum_list_with_app. simpl.
    rewrite report_success_count_report_of by apply acc_ok_record_item. simpl.
    rewrite !count_of_count_fields, Hsum. unfold count_of at 3. rewrite lookup_empty.
    unfold sum_of_reports. simpl. lia.
  - split; [apply acc_ok_record_item|]. split; [apply acc_ok_record_item|].
    split; [by destruct (current_chunk_data st)|].
    intros field. simpl. rewrite !count_of_count_fields, Hsum. lia.
Qed.

Lemma additive_run results : additive (run results).
Proof.
  apply run_invariant; [|apply additive_step].
  split; [apply acc_ok_empty|]. split; [apply acc_ok_empty|]. split; [done|].
  intros field. done.
Qed.

Lemma additive_sealed results field :
  let st := seal_last_chunk (run results) in
  acc_ok (year_acc st)
  ∧ count_of (field_success_counts (year_acc st)) field
    = sum_of_reports (chunk_reports (disk st)) field.
Proof.
  destruct (additive_run results) as (Hyear & Hchunk & Hempty & Hsum).
  cbv zeta. unfold seal_last_chunk.
  destruct (current_chunk_data (run results)) as [|r rs] eqn:Hdata.
  - split; [done|]. rewrite Hsum, (Hempty eq_refl). unfold count_of. simpl.
    rewrite lookup_empty. simpl. lia.
  - simpl. split; [done|].
    rewrite chunk_reports_app, chunk_reports_chunk_writes.
    unfold sum_of_reports. rewrite sum_list_with_app. simpl.
    rewrite report_success_count_report_of by done.
    rewrite Hsum. unfold sum_of_reports. lia.
Qed.

(** C3.  When a year is processed to completion, then for every field the
    success count of the year-level accumulator, and the one the year
    report shows, is the sum of the success counts in the statistics
    reports of all chunks written for the year, the last partial chunk
    included. *)
Theorem year_counts_are_sums_of_chunk_counts results field :
  let st := seal_last_chunk (run results) in
  let out := process_year (map Completed results) in
  count_of (field_success_counts (year_acc st)) field
  = sum_of_reports (chunk_reports (disk st)) field
  ∧ ∀ report missing,
      yr_data out = Some (report, missing) →
      report = report_of (year_acc st)
      ∧ report_success_count report field
        = sum_of_reports (chunk_reports (yr_disk out)) field.
Proof.
  cbv zeta. destruct (additive_sealed results field) as [Hok Hsum].
  split; [done|]. intros report missing.
  destruct results as [|res results]; [discriminate|].
  rewrite process_year_completed by done. simpl yr_data. simpl yr_disk.
  intros [= <- <-]. split; [done|].
  rewrite chunk_reports_app, chunk_reports_year_writes, app_nil_r.
  rewrite report_success_count_report_of by done. done.
Qed.

(** *** The record that seals a chunk *)

Lemma counted_step st res : counted st → counted (process_result st res).
Proof.
  intros [Hfirst Hlater].
  destruct (carries_dec res) as [[parsed_data Hc]|Hno].
  2: { destruct (process_result_no_record st res Hno) as (Hn & Hd & _ & _ & Ha & _).
       unfold counted. by rewrite Hn, Hd, Ha. }
  rewrite (process_result_carries _ _ _ Hc). cbv zeta.
  destruct (must_seal st (json_size parsed_data)); split; simpl; try done.
  - intros Hzero. rewrite length_app. simpl. rewrite (Hfirst Hzero). lia.
  - intros Hnz. rewrite length_app. simpl. rewrite <- (Hlater Hnz). lia.
Qed.

Lemma counted_run results : counted (run results).
Proof. apply run_invariant; [by split|apply counted_step]. Qed.

Lemma fold_invariant (P : loop_state → Prop) st :
  P st →
  (∀ st res, P st → P (process_result st res)) →
  ∀ results, P (fold_left process_result results st).
Proof.
  intros Hst Hstep results. revert st Hst.
  induction results as [|res results IH]; intros st Hst; [done|].
  simpl. apply IH. by apply Hstep.
Qed.

Lemma opens_step n parsed_data st res :
  opens n parsed_data st → opens n parsed_data (process_result st res).
Proof.
  intros Hopens.
  destruct (carries_dec res) as [[r Hc]|Hno].
  2: { destruct (process_result_no_record st res Hno) as (Hn & Hd & _ & _ & _ & Hk).
       unfold opens. by rewrite Hn, Hd, Hk. }
  rewrite (process_result_carries _ _ _ Hc). cbv zeta. unfold opens.
  destruct Hopens as [[Hcount [tail Hdata]]|[tail Hdisk]].
  - destruct (must_seal st (json_size r)); simpl.
    + right. exists tail. rewrite elem_of_app. right. rewrite Hcount, Hdata.
      apply list_elem_of_here.
    + left. split; [done|]. exists (tail ++ [r]). by rewrite Hdata.
  - right. exists tail. destruct (must_seal st (json_size r)); simpl; [|done].
    rewrite elem_of_app. by left.
Qed.

Lemma opens_seal_last_chunk n parsed_data st :
  opens n parsed_data st →
  ∃ tail, (ChunkData n, DataFile (parsed_data :: tail)) ∈ disk (seal_last_chunk st).
Proof.
  unfold seal_last_chunk. intros [[Hcount [tail Hdata]]|[tail Hdisk]].
  - exists tail. rewrite Hdata. simpl. rewrite elem_of_app. right.
    rewrite Hcount. apply list_elem_of_here.
  - exists tail. destruct (current_chunk_data st); [done|]. simpl.
    rewrite elem_of_app. by left.
Qed.

(** C10.  When an arriving record seals the active chunk, the files written
    for the sealed chunk N are its data file, which holds the records that
    were there before and not the arriving one, its statistics report,
    which counts the arriving record and its fields, and, unless the list
    is empty, its missing-item file, whose last entry is the missing-field
    report of the arriving record when it has one.  The record becomes the
    first one of chunk N+1, where the year's end finds it whatever arrives
    later.  For the first chunk of a year the report's
    [total_processed_items] is the number of records in the data file plus
    one; for a later chunk the two are the same. *)
Theorem sealing_record_is_counted_in_sealed_chunk st res parsed_data :
  carries res parsed_data →
  must_seal st (json_size parsed_data) = true →
  let st' := process_result st res in
  let n := S (chunk_count st) in
  let stats := record_item (chunk_acc st) parsed_data (fr_extraction_status res) in
  let missing :=
    current_chunk_missing_details_list st ++ option_list (fr_missing_details res) in
  (∃ writes,
     disk st' = disk st ++ writes
     ∧ ∀ w, w ∈ writes ↔
            w = (ChunkData n, DataFile (current_chunk_data st))
            ∨ w = (ChunkStats n, StatsFile (report_of stats))
            ∨ (missing ≠ [] ∧ w = (ChunkMissing n, MissingFile missing)))
  ∧ (∀ m, fr_missing_details res = Some m →
       (ChunkMissing n, MissingFile missing) ∈ disk st' ∧ last missing = Some m)
  ∧ total_processed_items (report_of stats) = S (items_count (chunk_acc st))
  ∧ (∀ field,
       report_success_count (report_of stats) field
       = count_of (field_success_counts (chunk_acc st)) field
         + hits (fr_extraction_status res) field)
  ∧ chunk_count st' = n
  ∧ current_chunk_data st' = [parsed_data]
  ∧ chunk_acc st' = empty_accumulator
  ∧ current_chunk_missing_details_list st' = []
  ∧ (∀ more, ∃ tail,
       (ChunkData (S n), DataFile (parsed_data :: tail))
         ∈ disk (seal_last_chunk (fold_left process_result more st')))
  ∧ (∀ results, st = run results →
       (chunk_count st = 0 →
          total_processed_items (report_of stats) = S (length (current_chunk_data st)))
       ∧ (chunk_count st ≠ 0 →
          total_processed_items (report_of stats) = length (current_chunk_data st))).
Proof.
  intros Hc Hseal. cbv zeta. rewrite (process_result_carries _ _ _ Hc). cbv zeta.
  rewrite Hseal. simpl.
  assert (∀ w, w ∈ chunk_writes true (S (chunk_count st)) (current_chunk_data st)
                     (record_item (chunk_acc st) parsed_data (fr_extraction_status res))
                     (current_chunk_missing_details_list st
                      ++ option_list (fr_missing_details res))
               ↔ w = (ChunkData (S (chunk_count st)), DataFile (current_chunk_data st))
                 ∨ w = (ChunkStats (S (chunk_count st)),
                        StatsFile (report_of (record_item (chunk_acc st) parsed_data
                                                (fr_extraction_status res))))
                 ∨ (current_chunk_missing_details_list st
                    ++ option_list (fr_missing_details res) ≠ []
                    ∧ w = (ChunkMissing (S (chunk_count st)),
                           MissingFile (current_chunk_missing_details_list st
                                        ++ option_list (fr_missing_details res)))))
    as Hwrites.
  { intros w. unfold chunk_writes.
    destruct (current_chunk_missing_details_list st ++ option_list (fr_missing_details res))
      as [|m ms]; simpl; rewrite ?elem_of_cons, elem_of_nil; intuition congruence. }
  split; [eexists; split; [done|exact Hwrites]|].
  split.
  { intros m Hm. split.
    - rewrite elem_of_app. right. apply Hwrites. right. right. split; [|done].
      rewrite Hm. simpl. by destruct (current_chunk_missing_details_list st).
    - rewrite Hm. simpl. apply last_snoc. }
  split; [done|]. split.
  { intros field.
    rewrite report_success_count_report_of by apply acc_ok_record_item. simpl.
    apply count_of_count_fields. }
  do 4 (split; [done|]). split.
  - intros more. apply opens_seal_last_chunk.
    apply fold_invariant; [|by intros; apply opens_step].
    left. simpl. split; [done|]. by exists [].
  - intros results ->. destruct (counted_run results) as [Hfirst Hlater]. split.
    + intros Hzero. f_equal. by apply Hfirst.
    + intros Hnz. by apply Hlater.
Qed.

(** *** Interruption *)

Lemma chunk_writes_are_chunk_files in_loop n data acc missing :
  Forall is_chunk_file (chunk_writes in_loop n data acc missing).
Proof.
  unfold chunk_writes. destruct in_loop, missing; repeat constructor.
Qed.

Lemma process_result_disk st res :
  ∃ writes, disk (process_result st res) = disk st ++ writes ∧ Forall is_chunk_file writes.
Proof.
  destruct (carries_dec res) as [[parsed_data Hc]|Hno].
  2: { destruct (process_result_no_record st res Hno) as (_ & _ & _ & _ & _ & Hk).
       exists []. by rewrite Hk, app_nil_r. }
  rewrite (process_result_carries _ _ _ Hc). cbv zeta.
  destruct (must_seal st (json_size parsed_data)); simpl.
  - eexists. split; [done|]. apply chunk_writes_are_chunk_files.
  - exists []. by rewrite app_nil_r.
Qed.

Lemma run_disk_chunk_files results : Forall is_chunk_file (disk (run results)).
Proof.
  apply (run_invariant (λ st, Forall is_chunk_file (disk st))); [constructor|].
  intros st res Hst. destruct (process_result_disk st res) as (writes & -> & Hw).
  by apply Forall_app.
Qed.



(** A data file is among the writes an interruption leaves of a seal
    exactly when at least one write was completed: the data file is the
    first file of a seal. *)
Lemma data_file_cut_short in_loop n data acc missing written cut m records :
  (ChunkData m, DataFile records)
    ∈ cut_short (chunk_writes in_loop n data acc missing) written cut
  ↔ written ≠ 0 ∧ m = n ∧ records = data.
Proof.
  split.
  - intros Hin. split.
    + intros ->. revert Hin. unfold cut_short, chunk_writes.
      destruct in_loop, cut; cbn; rewrite ?elem_of_cons, elem_of_nil;
        intros Hin; repeat (destruct Hin as [Hin|Hin]); done.
    + apply elem_of_cut_short in Hin as [Hin|[Hin _]]; [|discriminate].
      by apply elem_of_data_files, data_files_chunk_writes in Hin.
  - intros (Hw & -> & ->). destruct written as [|k]; [done|].
    unfold cut_short. rewrite elem_of_app. left.
    unfold chunk_writes. destruct in_loop; cbn; apply list_elem_of_here.
Qed.



End Batch_properties.

(** ** Claims *)

Section Claims.
Context `{PyBuiltins}.


Lemma omap_length_le {A B} (f : A → option B) (l : list A) :
  (length (omap f l) ≤ length l)%nat.
Proof.
  induction l as [|x l IH]; [done|]. csimpl. destruct (f x); simpl; lia.
Qed.






End Claims.

(** ** The breadth-first search of [safe_get] *)

Lemma bfs_loop_step fuel key p cur queue visited results :
  bfs_loop (S fuel) key ((p, cur) :: queue) visited results =
    if is_container cur then
      if bool_decide (p ∈ visited) then bfs_loop fuel key queue visited results
      else bfs_loop fuel key
             (queue ++ requeued key p cur
                ++ filter (λ c, not_none_child c) (children p (child_values cur)))
             (p :: visited) (results ++ own_results key cur)
    else bfs_loop fuel key queue visited results.
Proof.
  destruct cur as [|s|items|elems]; cbn [bfs_loop is_container andb]; try done.
  - destruct (bool_decide (p ∈ visited)); [done|]. cbn [requeued own_results child_values].
    destruct (dict_find items key) as [[i [| |inner|[|x xs]]]|];
      rewrite ?app_nil_r, <- ?app_assoc; done.
  - destruct (bool_decide (p ∈ visited)); [done|]. cbn [requeued own_results child_values].
    by rewrite app_nil_r.
Qed.

Lemma weight_positive v : 0 < weight v.
Proof. destruct v; simpl; lia. Qed.

Lemma sum_list_map {A} (f : A → nat) (l : list A) :
  sum_list (map f l) = sum_list_with f l.
Proof. induction l as [|x l IH]; [done|]. cbn [map sum_list_with]. by rewrite IH. Qed.

Lemma sum_list_with_fmap {A B} (g : A → B) (f : B → nat) (l : list A) :
  sum_list_with f (g <$> l) = sum_list_with (λ x, f (g x)) l.
Proof. induction l as [|x l IH]; [done|]. cbn [fmap list_fmap sum_list_with]. by rewrite <- IH. Qed.

Lemma weight_dict items : weight (VDict items) = S (2 * sum_list_with weight (items.*2)).
Proof.
  change (weight (VDict items))
    with (S (2 * sum_list (map (λ kv : string * value, weight (snd kv)) items))).
  by rewrite sum_list_map, sum_list_with_fmap.
Qed.

Lemma weight_list elems : weight (VList elems) = S (sum_list_with weight elems).
Proof.
  change (weight (VList elems)) with (S (sum_list (map weight elems))).
  by rewrite sum_list_map.
Qed.

Lemma weight_queue_app q1 q2 : weight_queue (q1 ++ q2) = weight_queue q1 + weight_queue q2.
Proof. apply sum_list_with_app. Qed.

Lemma weight_queue_children p vs : weight_queue (children p vs) = sum_list_with weight vs.
Proof.
  unfold children, weight_queue. revert p.
  induction vs as [|v vs IH] using rev_ind; intros p; [done|].
  rewrite imap_app, !sum_list_with_app, IH. simpl. done.
Qed.

Lemma weight_queue_filter (P : node_id * value → bool) queue :
  (weight_queue (filter (λ c, P c) queue) ≤ weight_queue queue)%nat.
Proof.
  induction queue as [|e queue IH]; [done|]. rewrite filter_cons.
  destruct (decide (P e)); simpl; unfold weight_queue in *; simpl; lia.
Qed.

Lemma dict_find_from_lookup n items key i v :
  dict_find_from n items key = Some (i, v) →
  (n ≤ i)%nat ∧ items.*2 !! (i - n) = Some v.
Proof.
  revert n. induction items as [|[k w] items IH]; intros n; simpl; [discriminate|].
  destruct (String.eqb k key).
  - intros [= <- <-]. rewrite Nat.sub_diag. split; [lia|done].
  - intros Hfind. apply IH in Hfind as [Hle Hlook]. split; [lia|].
    replace (i - n) with (S (i - S n)) by lia. done.
Qed.

Lemma dict_find_lookup items key i v :
  dict_find items key = Some (i, v) → items.*2 !! i = Some v.
Proof.
  intros Hfind. apply dict_find_from_lookup in Hfind as [_ Hlook].
  by rewrite Nat.sub_0_r in Hlook.
Qed.

Lemma sum_list_with_lookup_le {A} (f : A → nat) (l : list A) i x :
  l !! i = Some x → (f x ≤ sum_list_with f l)%nat.
Proof. intros Hlook. apply sum_list_with_in. by eapply list_elem_of_lookup_2. Qed.

(** Visiting a node queues less than the node weighs. *)
Lemma weight_queue_pushed key p cur :
  is_container cur = true →
  weight_queue (requeued key p cur
                  ++ filter (λ c, not_none_child c) (children p (child_values cur)))
  < weight cur.
Proof.
  intros Hc. rewrite weight_queue_app.
  pose proof (weight_queue_filter not_none_child (children p (child_values cur))) as Hf.
  rewrite weight_queue_children in Hf.
  destruct cur as [|s|items|elems]; try discriminate.
  - rewrite weight_dict. cbn [child_values] in *.
    assert (weight_queue (requeued key p (VDict items)) ≤ sum_list_with weight (items.*2))%nat;
      [|lia].
    cbn [requeued]. destruct (dict_find items key) as [[i [| |inner|[|x xs]]]|] eqn:Hfind;
      try (unfold weight_queue; simpl; lia).
    rewrite weight_queue_children.
    apply dict_find_lookup in Hfind.
    pose proof (sum_list_with_lookup_le weight _ _ _ Hfind) as Hle.
    rewrite weight_list in Hle. lia.
  - rewrite weight_list. cbn [child_values requeued] in *.
    unfold weight_queue at 1. simpl. lia.
Qed.

(** The search never runs out of fuel. *)
Lemma bfs_loop_terminates key fuel queue visited results :
  weight_queue queue < fuel →
  is_Some (bfs_loop fuel key queue visited results).
Proof.
  revert queue visited results.
  induction fuel as [|fuel IH]; intros queue visited results Hfuel; [lia|].
  destruct queue as [|[p cur] queue]; [by eexists|].
  rewrite bfs_loop_step.
  change (weight_queue ((p, cur) :: queue)) with (weight cur + weight_queue queue) in Hfuel.
  pose proof (weight_positive cur).
  destruct (is_container cur) eqn:Hc; [|apply IH; lia].
  destruct (bool_decide (p ∈ visited)); [apply IH; lia|].
  apply IH. rewrite weight_queue_app.
  pose proof (weight_queue_pushed key p cur Hc). lia.
Qed.

Lemma node_at_app v p q :
  node_at v (p ++ q) = match node_at v p with Some w => node_at w q | None => None end.
Proof.
  revert v. induction p as [|i p IH]; intros v; [done|]. simpl.
  destruct (child_values v !! i) as [c|]; [apply IH|done].
Qed.

Lemma node_at_snoc v p i w c :
  node_at v p = Some w → child_values w !! i = Some c → node_at v (p ++ [i]) = Some c.
Proof. intros Hp Hc. rewrite node_at_app, Hp. simpl. by rewrite Hc. Qed.

Lemma node_at_snoc_inv v p i c :
  node_at v (p ++ [i]) = Some c →
  ∃ w, node_at v p = Some w ∧ child_values w !! i = Some c ∧ is_container w = true.
Proof.
  rewrite node_at_app. destruct (node_at v p) as [w|]; [|discriminate]. simpl.
  destruct (child_values w !! i) as [c'|] eqn:Hc; [|discriminate].
  intros [= <-]. exists w. split; [done|]. split; [done|].
  destruct w; try done; by rewrite lookup_nil in Hc.
Qed.

Lemma elem_of_children p vs q c :
  (q, c) ∈ children p vs ↔ ∃ i, q = p ++ [i] ∧ vs !! i = Some c.
Proof.
  unfold children. rewrite elem_of_lookup_imap. split.
  - intros (i & v & [= -> ->] & Hlook). eauto.
  - intros (i & -> & Hlook). eauto.
Qed.

Section Search.
Variable obj : value.
Variable key : string.
Abbreviation own_at := (own_at obj key).
Abbreviation search_inv := (search_inv obj key).

Lemma search_inv_initial : search_inv [([], obj)] [] [].
Proof.
  split.
  - intros p v Hin. apply list_elem_of_singleton in Hin as [= -> ->]. done.
  - intros p Hin. by apply elem_of_nil in Hin.
  - constructor.
  - intros p v i c Hin. by apply elem_of_nil in Hin.
  - intros _. right. apply list_elem_of_here.
  - done.
Qed.

Lemma search_inv_pop p cur queue visited results :
  search_inv ((p, cur) :: queue) visited results →
  is_container cur = false ∨ p ∈ visited →
  search_inv queue visited results.
Proof.
  intros [Hq Hv Hnd Hcl Hroot Hres] Hskip. split; try done.
  - intros q v Hin. apply Hq. by apply list_elem_of_further.
  - intros q v i c Hin Hnode Hchild Hc.
    destruct (Hcl q v i c Hin Hnode Hchild Hc) as [Hvis|Hqueue]; [by left|].
    apply elem_of_cons in Hqueue as [[= <- <-]|Hqueue]; [|by right].
    left. destruct Hskip as [Hno|Hvis]; [congruence|done].
  - intros Hc. destruct (Hroot Hc) as [Hvis|Hqueue]; [by left|].
    apply elem_of_cons in Hqueue as [[= <- <-]|Hqueue]; [|by right].
    left. destruct Hskip as [Hno|Hvis]; [congruence|done].
Qed.

Lemma requeued_nodes p cur q c :
  node_at obj p = Some cur → (q, c) ∈ requeued key p cur → node_at obj q = Some c.
Proof.
  intros Hnode. unfold requeued. destruct cur as [| |items|]; try (by rewrite elem_of_nil).
  destruct (dict_find items key) as [[i [| |inner|[|x xs]]]|] eqn:Hfind;
    try (by rewrite elem_of_nil).
  rewrite elem_of_children. intros (j & -> & Hj).
  apply dict_find_lookup in Hfind.
  apply (node_at_snoc _ _ _ (VList (x :: xs))); [|exact Hj].
  by apply (node_at_snoc _ _ _ (VDict items)).
Qed.

Lemma search_inv_visit p cur queue visited results :
  search_inv ((p, cur) :: queue) visited results →
  is_container cur = true → p ∉ visited →
  search_inv
    (queue ++ requeued key p cur
       ++ filter (λ c, not_none_child c) (children p (child_values cur)))
    (p :: visited) (results ++ own_results key cur).
Proof.
  intros [Hq Hv Hnd Hcl Hroot Hres] Hc Hnew.
  assert (node_at obj p = Some cur) as Hnode by (apply Hq, list_elem_of_here).
  split.
  - intros q v. rewrite !elem_of_app. intros [Hin|[Hin|Hin]].
    + apply Hq. by apply list_elem_of_further.
    + by eapply requeued_nodes.
    + apply list_elem_of_filter in Hin as [_ Hin].
      apply elem_of_children in Hin as (i & -> & Hi). by eapply node_at_snoc.
  - intros q. rewrite elem_of_cons. intros [->|Hin]; [eauto|by apply Hv].
  - by constructor.
  - intros q v i c. rewrite elem_of_cons. intros [->|Hin] Hq' Hchild Hcc.
    + right. rewrite !elem_of_app. right. right.
      rewrite Hnode in Hq'. injection Hq' as <-.
      apply list_elem_of_filter. split.
      * unfold not_none_child. simpl. by destruct c.
      * apply elem_of_children. eauto.
    + destruct (Hcl q v i c Hin Hq' Hchild Hcc) as [Hvis|Hqueue].
      * left. by apply list_elem_of_further.
      * apply elem_of_cons in Hqueue as [[= <- <-]|Hqueue].
        -- left. apply list_elem_of_here.
        -- right. rewrite elem_of_app. by left.
  - intros Hobj. destruct (Hroot Hobj) as [Hvis|Hqueue].
    + left. by apply list_elem_of_further.
    + apply elem_of_cons in Hqueue as [[= <- <-]|Hqueue].
      * left. apply list_elem_of_here.
      * right. rewrite elem_of_app. by left.
  - assert (own_at p = own_results key cur) as Hown.
    { unfold own_at. by rewrite Hnode. }
    rewrite Hres. simpl rev. rewrite flat_map_app. cbn [flat_map].
    by rewrite Hown, app_nil_r.
Qed.

(** The loop ends with an empty queue and the invariant. *)
Lemma bfs_loop_search_inv fuel queue visited results :
  search_inv queue visited results →
  weight_queue queue < fuel →
  ∃ visited' results',
    bfs_loop fuel key queue visited results = Some results'
    ∧ search_inv [] visited' results'.
Proof.
  revert queue visited results.
  induction fuel as [|fuel IH]; intros queue visited results Hinv Hfuel; [lia|].
  destruct queue as [|[p cur] queue]; [by exists visited, results|].
  rewrite bfs_loop_step.
  change (weight_queue ((p, cur) :: queue)) with (weight cur + weight_queue queue) in Hfuel.
  pose proof (weight_positive cur).
  destruct (is_container cur) eqn:Hc.
  - destruct (bool_decide (p ∈ visited)) eqn:Hvis.
    + apply bool_decide_eq_true in Hvis.
      apply IH; [|lia]. eapply search_inv_pop; eauto.
    + apply bool_decide_eq_false in Hvis.
      apply IH; [by apply search_inv_visit|].
      rewrite weight_queue_app. pose proof (weight_queue_pushed key p cur Hc). lia.
  - apply IH; [|lia]. eapply search_inv_pop; eauto.
Qed.

(** With the queue empty every map and list of [obj] has been visited. *)
Lemma search_inv_complete visited results p w :
  search_inv [] visited results →
  node_at obj p = Some w → is_container w = true → p ∈ visited.
Proof.
  intros [Hq Hv Hnd Hcl Hroot Hres]. revert w.
  induction p as [|i p IH] using rev_ind; intros w Hnode Hc.
  - injection Hnode as <-. destruct (Hroot Hc) as [Hvis|Hqueue]; [done|].
    by apply elem_of_nil in Hqueue.
  - apply node_at_snoc_inv in Hnode as (v & Hp & Hchild & Hcv).
    destruct (Hcl p v i w (IH v Hp Hcv) Hp Hchild Hc) as [Hvis|Hqueue]; [done|].
    by apply elem_of_nil in Hqueue.
Qed.

End Search.

(** *** The paths of a value *)

Lemma below_snoc pss ps : below (pss ++ [ps]) = below pss ++ map (cons (length pss)) ps.
Proof.
  unfold below. rewrite imap_app, concat_app. simpl.
  by rewrite Nat.add_0_r, app_nil_r.
Qed.

Lemma elem_of_below pss p :
  p ∈ below pss ↔ ∃ i q ps, p = i :: q ∧ pss !! i = Some ps ∧ q ∈ ps.
Proof.
  induction pss as [|ps pss IH] using rev_ind.
  - split; [intros Hin; by apply elem_of_nil in Hin|].
    intros (i & q & ps & _ & Hlook & _). by rewrite lookup_nil in Hlook.
  - rewrite below_snoc, elem_of_app, IH. split.
    + intros [(i & q & ps' & -> & Hlook & Hin)|Hin].
      * exists i, q, ps'. split; [done|]. split; [|done].
        by apply lookup_app_l_Some.
      * apply list_elem_of_fmap in Hin as (q & -> & Hin).
        exists (length pss), q, ps. split; [done|]. split; [|done].
        by apply list_lookup_middle.
    + intros (i & q & ps' & -> & Hlook & Hin).
      apply lookup_app_Some in Hlook as [Hlook|[Hle Hlook]].
      * left. eauto 6.
      * right. apply list_lookup_singleton_Some in Hlook as [Hi <-].
        replace i with (length pss) by lia.
        apply list_elem_of_fmap. eauto.
Qed.

Lemma NoDup_below pss : Forall NoDup pss → NoDup (below pss).
Proof.
  induction pss as [|ps pss IH] using rev_ind; intros Hall; [constructor|].
  rewrite Forall_app, Forall_singleton in Hall. destruct Hall as [Hpss Hps].
  rewrite below_snoc. apply NoDup_app. split; [by apply IH|]. split.
  - intros p Hin Hin'. apply elem_of_below in Hin as (i & q & ps' & -> & Hlook & _).
    apply list_elem_of_fmap in Hin' as (q' & Heq & _).
    injection Heq as Hi _. apply lookup_lt_Some in Hlook. lia.
  - apply NoDup_fmap_2; [|done]. by intros q q' [= ->].
Qed.

Lemma flat_map_below {B} (h : node_id → list B) pss :
  flat_map h (below pss) = concat (imap (λ i ps, flat_map (λ q, h (i :: q)) ps) pss).
Proof.
  induction pss as [|ps pss IH] using rev_ind; [done|].
  rewrite below_snoc, flat_map_app, IH, imap_app, concat_app. simpl.
  rewrite Nat.add_0_r, app_nil_r. f_equal.
  induction ps as [|q ps IHps]; [done|]. simpl. by rewrite IHps.
Qed.

Lemma container_paths_unfold v :
  is_container v = true →
  container_paths v = [] :: below (container_paths <$> child_values v).
Proof.
  destruct v as [| |items|elems]; try discriminate; intros _; [|done].
  cbn [child_values]. rewrite <- list_fmap_compose. done.
Qed.

Lemma container_paths_scalar v : is_container v = false → container_paths v = [].
Proof. by destruct v. Qed.

Lemma Forall_children (P : value → Prop) v :
  match v with
  | VDict items => Forall (λ kv, P kv.2) items
  | VList elems => Forall P elems
  | _ => True
  end → Forall P (child_values v).
Proof.
  destruct v as [| |items|elems]; cbn [child_values]; try done.
  intros Hall. by apply Forall_fmap.
Qed.

(** Induction on a value through the values directly below it. *)
Lemma value_children_ind (P : value → Prop) :
  (∀ v, Forall P (child_values v) → P v) → ∀ v, P v.
Proof.
  intros Hstep v. induction v as [|s|items IH|elems IH] using value_ind'; apply Hstep;
    try constructor; by apply (Forall_children P (VDict items)) ||
                            by apply (Forall_children P (VList elems)).
Qed.

Lemma elem_of_container_paths v p :
  p ∈ container_paths v ↔ ∃ w, node_at v p = Some w ∧ is_container w = true.
Proof.
  revert p. induction v as [v IH] using value_children_ind. intros p.
  destruct (is_container v) eqn:Hc.
  - rewrite (container_paths_unfold v Hc), elem_of_cons, elem_of_below. split.
    + intros [->|(i & q & ps & -> & Hlook & Hin)]; [by exists v|].
      apply list_lookup_fmap_Some in Hlook as (c & -> & Hlook). simpl. rewrite Hlook.
      rewrite Forall_forall in IH. apply IH; [|done]. by eapply list_elem_of_lookup_2.
    + intros (w & Hnode & Hw). destruct p as [|i q]; [by left|]. right.
      simpl in Hnode. destruct (child_values v !! i) as [c|] eqn:Hlook; [|discriminate].
      exists i, q, (container_paths c). split; [done|]. split.
      * by rewrite list_lookup_fmap, Hlook.
      * rewrite Forall_forall in IH. apply IH; [by eapply list_elem_of_lookup_2|]. eauto.
  - rewrite (container_paths_scalar v Hc). split; [intros Hin; by apply elem_of_nil in Hin|].
    intros (w & Hnode & Hw). destruct p as [|i q].
    + injection Hnode as <-. congruence.
    + simpl in Hnode. destruct v; try discriminate; by rewrite lookup_nil in Hnode.
Qed.

Lemma NoDup_container_paths v : NoDup (container_paths v).
Proof.
  induction v as [v IH] using value_children_ind.
  destruct (is_container v) eqn:Hc;
    [|rewrite (container_paths_scalar v Hc); constructor].
  rewrite (container_paths_unfold v Hc). constructor.
  - intros Hin. apply elem_of_below in Hin as (i & q & ps & Hnil & _). discriminate.
  - apply NoDup_below. by apply Forall_fmap.
Qed.

(** Collecting over the paths of a value what each map contributes gives
    the specification. *)
Lemma flat_map_own_at_container_paths key v :
  flat_map (own_at v key) (container_paths v) = matches key v.
Proof.
  induction v as [v IH] using value_children_ind.
  destruct (is_container v) eqn:Hc; [|by destruct v].
  rewrite (container_paths_unfold v Hc). cbn [flat_map].
  rewrite flat_map_below, imap_fmap.
  assert (imap (λ i, (λ ps, flat_map (λ q, own_at v key (i :: q)) ps) ∘ container_paths)
               (child_values v)
          = matches key <$> child_values v) as ->.
  { rewrite <- (imap_const (matches key)). apply imap_ext. intros i c Hlook. simpl.
    rewrite Forall_forall in IH. rewrite <- (IH c) by (by eapply list_elem_of_lookup_2).
    apply flat_map_ext. intros q. unfold own_at. simpl. by rewrite Hlook. }
  destruct v as [| |items|elems]; try discriminate.
  - cbn [child_values matches]. unfold own_at at 1. simpl node_at. cbv iota.
    f_equal. by rewrite <- list_fmap_compose.
  - cbn [child_values matches]. by unfold own_at.
Qed.

(** What the search collects, up to the order of the visits. *)
Lemma safe_get_results_matches obj key :
  ∃ results, safe_get_results obj key = Some results ∧ results ≡ₚ matches key obj.
Proof.
  destruct (bfs_loop_search_inv obj key (S (weight obj)) [([], obj)] [] [])
    as (visited & results & Hloop & Hinv).
  { apply search_inv_initial. }
  { unfold weight_queue. simpl. lia. }
  exists results. split; [done|].
  rewrite (inv_results _ _ _ _ _ Hinv), <- flat_map_own_at_container_paths.
  apply Permutation_flat_map. rewrite <- Permutation_rev.
  apply NoDup_Permutation.
  - apply (inv_nodup _ _ _ _ _ Hinv).
  - apply NoDup_container_paths.
  - intros p. rewrite elem_of_container_paths. split.
    + apply (inv_visited _ _ _ _ _ Hinv).
    + intros (w & Hnode & Hw). by eapply search_inv_complete.
Qed.

Lemma dict_get_find items key v :
  dict_get items key = Some v ↔ ∃ i, dict_find items key = Some (i, v).
Proof.
  unfold dict_get. destruct (dict_find items key) as [[i w]|]; simpl.
  - split; [intros [= ->]; eauto|]. by intros (j & [= _ ->]).
  - split; [discriminate|]. by intros (j & ?).
Qed.

Lemma safe_get_deep obj key :
  obj ≠ VNone →
  (∀ items, obj = VDict items → dict_get items key = None) →
  ∃ results,
    safe_get_results obj key = Some results
    ∧ results ≡ₚ matches key obj
    ∧ safe_get obj key = finish results.
Proof.
  intros Hobj Hdeep.
  destruct (safe_get_results_matches obj key) as (results & Hresults & Hperm).
  exists results. split; [done|]. split; [done|].
  unfold safe_get. rewrite Hresults.
  destruct obj as [| |items|]; try done. by rewrite (Hdeep items eq_refl).
Qed.

(** C6 (as amended).  A key that is present directly in the top-level map
    given to [safe_get] yields the value stored under it, as it is.
    Otherwise the search ends and collects, up to the order of the visits,
    one result from every map below the node that holds the key with a
    value other than a non-empty list: the text content (["#text"], else
    ["text"]) when the value is a map that has one, else the value itself.
    No result gives null, exactly one result is returned unwrapped, several
    are returned as a list. *)
Theorem safe_get_search obj key :
  (∀ items v, obj = VDict items → dict_get items key = Some v → safe_get obj key = v)
  ∧ (obj = VNone → safe_get obj key = VNone)
  ∧ (obj ≠ VNone → (∀ items, obj = VDict items → dict_get items key = None) →
     ∃ results,
       safe_get_results obj key = Some results
       ∧ results ≡ₚ matches key obj
       ∧ (results = [] → safe_get obj key = VNone)
       ∧ (∀ r, results = [r] → safe_get obj key = r)
       ∧ ((2 ≤ length results)%nat → safe_get obj key = VList results))
  ∧ (∀ items inner t,
       dict_get items key = Some (VDict inner) →
       (dict_get inner "#text" = Some t
        ∨ (dict_get inner "#text" = None ∧ dict_get inner "text" = Some t)) →
       own_results key (VDict items) = [t])
  ∧ (∀ items inner,
       dict_get items key = Some (VDict inner) →
       dict_get inner "#text" = None → dict_get inner "text" = None →
       own_results key (VDict items) = [VDict inner])
  ∧ (∀ items w,
       dict_get items key = Some w → is_container w = false ∨ w = VList [] →
       own_results key (VDict items) = [w])
  ∧ (∀ items, dict_get items key = None → own_results key (VDict items) = []).
Proof.
  split; [|split; [|split; [|split; [|split; [|split]]]]].
  - intros items v -> Hget. unfold safe_get. by rewrite Hget.
  - by intros ->.
  - intros Hobj Hdeep.
    destruct (safe_get_deep obj key Hobj Hdeep) as (results & Hresults & Hperm & Hget).
    exists results. repeat split; try done.
    + by intros ->.
    + by intros r ->.
    + intros Hlen. rewrite Hget. destruct results as [|r [|r' results]]; simpl in *; [lia|lia|done].
  - intros items inner t Hget Htext.
    apply dict_get_find in Hget as [i Hfind]. unfold own_results. rewrite Hfind.
    unfold unwrap_text. by destruct Htext as [->|[-> ->]].
  - intros items inner Hget Hhash Htext.
    apply dict_get_find in Hget as [i Hfind]. unfold own_results. rewrite Hfind.
    unfold unwrap_text. by rewrite Hhash, Htext.
  - intros items w Hget Hw.
    apply dict_get_find in Hget as [i Hfind]. unfold own_results. rewrite Hfind.
    destruct Hw as [Hw| ->]; [|done]. by destruct w.
  - intros items Hget. unfold own_results.
    destruct (dict_find items key) as [[i w]|] eqn:Hfind; [|done].
    assert (dict_get items key = Some w) as Hsome by (apply dict_get_find; eauto).
    congruence.
Qed.

(** ** The properties on concrete documents *)

Module Examples.
Import Ascii_text Samples Batch_samples Search_samples.
#[local] Existing Instance ascii_builtins.
#[local] Existing Instance no_parties.

Example granted_record_fields :
  RegisterNumber granted_record = VStr "201810012345"
  ∧ ApplicationNumber granted_record = VStr "201810012345"
  ∧ RegisterDate granted_record = VStr "20210105"
  ∧ OpenNumber granted_record = VStr "101234567"
  ∧ BriefDescriptionOfDrawings granted_record = VNone
  ∧ Description granted_record = VStr ("A valve." +:+ nl +:+ "It opens.").
Proof. repeat split; reflexivity. Qed.

Lemma description_only_without_both_sections_witness :
  parser_returns granted_root granted_record
  ∧ (Description granted_record ≠ VNone →
       BriefDescriptionOfDrawings granted_record = VNone
       ∨ DescriptionOfEmbodiments granted_record = VNone).
Proof.
  assert (parser_returns granted_root granted_record) as Hr by (left; reflexivity).
  split; [exact Hr|].
  exact (proj1 (description_only_without_both_sections granted_root granted_record Hr)).
Defined.

(** C1 as stated fails: a document without a description has neither
    section, and its [Description] is null as well. *)
Lemma description_null_although_sections_absent :
  parser_returns bare_root bare_record
  ∧ ¬ (Description bare_record ≠ VNone
       ↔ BriefDescriptionOfDrawings bare_record = VNone
         ∨ DescriptionOfEmbodiments bare_record = VNone).
Proof.
  split; [left; reflexivity|].
  intros [_ Hback]. apply Hback; [left|]; reflexivity.
Qed.

Lemma kind_among_granted : kind_among ["B"; "C"] granted_record.
Proof.
  exists "B". split; [reflexivity|]. split; [discriminate|]. apply list_elem_of_here.
Defined.

Lemma registered_kind_numbering_witness :
  parser_returns granted_root granted_record
  ∧ kind_among ["B"; "C"] granted_record
  ∧ RegisterNumber granted_record = VStr "201810012345"
  ∧ RegisterDate granted_record = PublicationDate granted_record.
Proof.
  assert (parser_returns granted_root granted_record) as Hr by (left; reflexivity).
  split; [exact Hr|]. split; [exact kind_among_granted|].
  destruct (registered_kind_numbering granted_root granted_record Hr kind_among_granted)
    as (Hnum & _ & Hdate).
  split; [exact Hnum|exact Hdate].
Defined.

(** C4 as stated fails: with an empty application number the normalized
    [ApplicationNumber] is the empty string and [RegisterNumber] is null. *)
Lemma register_number_null_for_empty_application_number :
  parser_returns unnumbered_root unnumbered_record
  ∧ kind_among ["B"; "C"] unnumbered_record
  ∧ clean_application_number (ApplicationNumber unnumbered_record) = VStr ""
  ∧ RegisterNumber unnumbered_record = VNone
  ∧ RegisterNumber unnumbered_record
    ≠ clean_application_number (ApplicationNumber unnumbered_record).
Proof.
  split; [right; right; reflexivity|].
  split; [exists "B"; split; [reflexivity|split; [discriminate|apply list_elem_of_here]]|].
  split; [reflexivity|]. split; [reflexivity|]. discriminate.
Qed.

Lemma utility_model_has_no_open_fields_witness :
  parser_returns utility_root utility_record
  ∧ kind_among ["U"; "Y"] utility_record
  ∧ OpenNumber utility_record = VNone ∧ OpenDate utility_record = VNone.
Proof.
  assert (parser_returns utility_root utility_record) as Hr by (left; reflexivity).
  assert (kind_among ["U"; "Y"] utility_record) as Hk.
  { exists "y". split; [reflexivity|]. split; [discriminate|].
    apply list_elem_of_further, list_elem_of_here. }
  split; [exact Hr|]. split; [exact Hk|].
  exact (utility_model_has_no_open_fields utility_root utility_record Hr Hk).
Defined.

Lemma parsed_document_always_reports_missing_witness :
  fr_error (process_xml_file noon "in/2021/CN101234567B.xml" granted_file) = None
  ∧ ∃ r m,
      fr_parsed_data (process_xml_file noon "in/2021/CN101234567B.xml" granted_file) = Some r
      ∧ SummaryOfInvention r = VNone
      ∧ ("SummaryOfInvention", false)
          ∈ fr_extraction_status (process_xml_file noon "in/2021/CN101234567B.xml" granted_file)
      ∧ fr_missing_details (process_xml_file noon "in/2021/CN101234567B.xml" granted_file)
        = Some m
      ∧ full_file_path m = "in/2021/CN101234567B.xml"
      ∧ "SummaryOfInvention" ∈ missing_fields m.
Proof.
  split; [reflexivity|].
  exact (parsed_document_always_reports_missing noon "in/2021/CN101234567B.xml"
           granted_file eq_refl).
Defined.

Example sample_sizes : sample_size first_record = 58 ∧ sample_size second_record = 58.
Proof. split; reflexivity. Qed.

Lemma sealed_chunks_are_bounded_witness :
  (1 ≤ 1)%Z ∧ chunk_ok sample_size 1 1000 [first_record].
Proof.
  split; [lia|].
  apply (proj1 (sealed_chunks_are_bounded sample_size 1 1000 ltac:(lia)) two_documents 1).
  apply list_elem_of_here.
Defined.

(** C2 as stated fails twice.  With a limit of zero items the only chunk
    holds one record, more than the limit; and a first record that alone
    exceeds the size bound meets "appending would exceed a bound" while
    nothing is sealed. *)
Lemma chunk_exceeds_item_limit_and_oversized_first_record_seals_nothing :
  ((ChunkData 1, DataFile [first_record])
     ∈ yr_disk (process_year sample_size 0 1000 [Completed first_result])
   ∧ ¬ (Z.of_nat (length [first_record]) ≤ 0)%Z)
  ∧ (carries first_result first_record
     ∧ would_exceed 2 10 initial_state (sample_size first_record)
     ∧ chunk_count (process_result sample_size 2 10 initial_state first_result) = 0
     ∧ disk (process_result sample_size 2 10 initial_state first_result) = []).
Proof.
  split; [split|].
  - apply list_elem_of_here.
  - simpl. lia.
  - split; [by split|]. split; [right; vm_compute; reflexivity|]. by split.
Qed.

Lemma year_counts_are_sums_of_chunk_counts_witness :
  yr_data (process_year sample_size 1 1000 (map Completed [first_result; second_result]))
  = Some (report_of (year_acc (seal_last_chunk
                                 (run sample_size 1 1000 [first_result; second_result]))),
          yearly_total_missing_item_reports
            (seal_last_chunk (run sample_size 1 1000 [first_result; second_result])))
  ∧ report_success_count
      (report_of (year_acc (seal_last_chunk
                              (run sample_size 1 1000 [first_result; second_result]))))
      "Kind"
    = sum_of_reports
        (chunk_reports
           (yr_disk (process_year sample_size 1 1000
                       (map Completed [first_result; second_result]))))
        "Kind".
Proof.
  split; [reflexivity|].
  exact (proj2 (proj2 (year_counts_are_sums_of_chunk_counts sample_size 1 1000
                         [first_result; second_result] "Kind") _ _ eq_refl)).
Defined.

Example year_counts_example :
  let out := process_year sample_size 1 1000 two_documents in
  match yr_data out with
  | Some (report, _) => report_success_count report "Kind" = 2
  | None => False
  end
  ∧ map (λ report, (total_processed_items report, report_success_count report "Kind"))
        (chunk_reports (yr_disk out)) = [(2, 2); (0, 0)]
  ∧ data_files (yr_disk out)
    = [(1, [first_record]); (1, [first_record]); (2, [second_record])].
Proof. repeat split; vm_compute; reflexivity. Qed.

Lemma sealing_record_is_counted_in_sealed_chunk_witness :
  carries second_result second_record
  ∧ must_seal 1 1000 (run sample_size 1 1000 [first_result]) (sample_size second_record) = true
  ∧ total_processed_items
      (report_of (record_item (chunk_acc (run sample_size 1 1000 [first_result]))
                    second_record (fr_extraction_status second_result)))
    = S (length (current_chunk_data (run sample_size 1 1000 [first_result]))).
Proof.
  assert (carries second_result second_record) as Hc by (by split).
  assert (must_seal 1 1000 (run sample_size 1 1000 [first_result]) (sample_size second_record)
          = true) as Hseal by reflexivity.
  split; [exact Hc|]. split; [exact Hseal|].
  destruct (sealing_record_is_counted_in_sealed_chunk sample_size 1 1000
              (run sample_size 1 1000 [first_result]) second_result second_record Hc Hseal)
    as (_ & _ & _ & _ & _ & _ & _ & _ & _ & Hfirst).
  exact (proj1 (Hfirst [first_result] eq_refl) eq_refl).
Defined.


(** Interrupted in the writes of the last chunk, after its data file and
    inside its statistics report: the data file of the active chunk is on
    the disk, the report is cut short, and the year writes no file of its
    own. *)
Example interrupted_in_the_last_chunk :
  yr_disk (process_year sample_size 50000 1000
             [Completed first_result; KeyboardInterrupt (Flushing 1 true)])
  = [(ChunkData 1, DataFile [first_record]); (ChunkStats 1, Incomplete)].
Proof. reflexivity. Qed.

Example deep_search_unwraps_text : safe_get document "invention-title" = VStr "Valve".
Proof. reflexivity. Qed.

(** C6 as stated fails: with the key directly in the map given to
    [safe_get], the wrapper map comes back, not its text content. *)
Lemma safe_get_returns_wrapper_of_direct_key :
  safe_get titled "invention-title"
  = VDict [("@lang", VStr "en"); ("#text", VStr "Valve")]
  ∧ safe_get titled "invention-title" ≠ VStr "Valve".
Proof. split; [reflexivity|discriminate]. Qed.

Lemma safe_get_search_witness :
  document ≠ VNone
  ∧ (∀ items, document = VDict items → dict_get items "invention-title" = None)
  ∧ ∃ results,
      safe_get_results document "invention-title" = Some results
      ∧ results ≡ₚ matches "invention-title" document
      ∧ (∀ r, results = [r] → safe_get document "invention-title" = r).
Proof.
  assert (document ≠ VNone) as Hne by discriminate.
  assert (∀ items, document = VDict items → dict_get items "invention-title" = None) as Hdeep.
  { intros items [= <-]. reflexivity. }
  split; [exact Hne|]. split; [exact Hdeep|].
  destruct (proj1 (proj2 (proj2 (safe_get_search document "invention-title"))) Hne Hdeep)
    as (results & Hresults & Hperm & _ & Hone & _).
  exists results. split; [exact Hresults|]. split; [exact Hperm|exact Hone].
Defined.



End Examples.

(** * Further properties *)

(** ** Numbers and dates *)

Section Numbering.
Context `{PyBuiltins} `{PartyExtractors}.

Lemma append_empty_r s : s +:+ "" = s.
Proof.
  induction s as [|c s IH]; [done|].
  change (String c (s +:+ "") = String c s). by rewrite IH.
Qed.

Lemma before_dot_split s :
  ∃ rest, s = before_dot s +:+ rest ∧ (rest = "" ∨ starts_with "." rest = true).
Proof.
  induction s as [|c s (rest & IH & Hrest)]; [exists ""; by split; [|left]|].
  simpl before_dot. destruct (Ascii.eqb_spec c "."%char) as [->|Hc].
  - exists (String "."%char s). split; [done|]. by right.
  - exists rest. split; [|done].
    change (String c s = String c (before_dot s +:+ rest)). by rewrite <- IH.
Qed.

Lemma clean_application_number_cases app_number :
  (truthy app_number = false → clean_application_number app_number = app_number)
  ∧ (truthy app_number = true →
     ∃ t rest,
       clean_application_number app_number = VStr t
       ∧ contains "." t = false
       ∧ py_str app_number = t +:+ rest
       ∧ (rest = "" ∨ starts_with "." rest = true)).
Proof.
  unfold clean_application_number. split; intros ->; simpl; [done|].
  destruct (contains "." (py_str app_number)) eqn:Hdot.
  - destruct (before_dot_split (py_str app_number)) as (rest & Hsplit & Hrest).
    exists (before_dot (py_str app_number)), rest.
    split; [done|]. split; [apply before_dot_no_dot|]. by split.
  - exists (py_str app_number), "". split; [done|]. split; [done|].
    split; [by rewrite append_empty_r|by left].
Qed.

(** X1.  [clean_application_number] returns a falsy number as it is and a truthy
    one as the text before its first dot; the result has no dot, so cleaning
    it again changes nothing. *)
Theorem clean_application_number_normal_form app_number :
  clean_application_number (clean_application_number app_number)
  = clean_application_number app_number
  ∧ (truthy app_number = false → clean_application_number app_number = app_number)
  ∧ (truthy app_number = true →
     ∃ t rest,
       clean_application_number app_number = VStr t
       ∧ contains "." t = false
       ∧ py_str app_number = t +:+ rest
       ∧ (rest = "" ∨ starts_with "." rest = true)).
Proof.
  split; [apply clean_application_number_idempotent|apply clean_application_number_cases].
Qed.

(** X2.  Swapping the two dates of [calculate_date_diff] negates the number of
    months, and a date is zero months from itself. *)
Theorem calculate_date_diff_swap app_date pub_date months :
  calculate_date_diff app_date pub_date = Some months →
  calculate_date_diff pub_date app_date = Some (- months)%Z
  ∧ calculate_date_diff app_date app_date = Some 0%Z
  ∧ calculate_date_diff pub_date pub_date = Some 0%Z.
Proof.
  unfold calculate_date_diff.
  destruct (truthy app_date); [|discriminate].
  destruct (truthy pub_date); [|discriminate]. simpl.
  destruct (py_strptime_ymd (py_str app_date)) as [[ay am]|]; [|discriminate].
  destruct (py_strptime_ymd (py_str pub_date)) as [[py pm]|]; [|discriminate].
  intros [= <-]. repeat split; f_equal; lia.
Qed.

(** X3.  [format_numbers] raises exactly when [kind] is truthy and not a string
    (a map or a list that is not empty has no [upper]). *)
Theorem format_numbers_raises_iff app_number pub_number pub_date kind app_date :
  (∃ e, format_numbers app_number pub_number pub_date kind app_date = Raises e)
  ↔ truthy kind = true ∧ ∀ s, kind ≠ VStr s.
Proof.
  unfold format_numbers, kind_upper. split.
  - intros [e He]. destruct (truthy kind) eqn:Ht.
    + split; [done|]. intros s ->. simpl in He.
      repeat match type of He with (if ?b then _ else _) = _ => destruct b end; discriminate.
    + simpl in He.
      repeat match type of He with (if ?b then _ else _) = _ => destruct b end; discriminate.
  - intros [Ht Hs]. rewrite Ht. destruct kind as [|s|items|elems]; try done.
    + by destruct (Hs s).
    + by exists "AttributeError".
    + by exists "AttributeError".
Qed.

(** The numbering fields of a record come from one call of
    [format_numbers] on the record's own [Kind] and [ApplicationDate]. *)
Lemma parser_returns_numbering root r :
  parser_returns root r →
  ∃ app_number pub_number pub_date nums,
    format_numbers app_number pub_number pub_date (Kind r) (ApplicationDate r) = Returns nums
    ∧ numbering_fields r nums.
Proof.
  intros [Hp|[Hp|Hp]].
  - unfold parse_cn_patent in Hp.
    destruct (format_numbers _ _ _ _ _) as [nums|] eqn:Hnums; simpl in Hp; [|discriminate].
    destruct (cn_party_fields root) as [pf|]; simpl in Hp; [|discriminate].
    destruct (find_description_in_document root) as [description|]; simpl in Hp;
      [|discriminate].
    destruct (extract_structured_description _ _) as [[drawing embodiment] full].
    injection Hp as <-. do 3 eexists. exists nums. split; [exact Hnums|]. by repeat split.
  - unfold parse_business in Hp.
    destruct (extract_publication_info _ _) as [pub_info pub_doc].
    destruct (extract_application_info _) as [application_number application_date].
    destruct (business_party_fields root) as [pf|]; simpl in Hp; [|discriminate].
    destruct (find_description_in_document root) as [description|]; simpl in Hp;
      [|discriminate].
    destruct (extract_structured_description _ _) as [[drawing embodiment] full].
    destruct (format_numbers _ _ _ _ _) as [nums|] eqn:Hnums; simpl in Hp; [|discriminate].
    destruct (kind_upper _) as [k|] eqn:Hk; simpl in Hp; [|discriminate].
    injection Hp as <-. do 3 eexists. exists nums. split; [exact Hnums|].
    repeat split; try done. simpl.
    destruct (upper_in k ["B"; "C"]) eqn:Hin; simpl; [|done].
    rewrite (format_numbers_register_date _ _ _ _ _ _ _ Hnums Hk Hin).
    match goal with |- (if ?b then _ else _) = _ => by destruct b end.
  - unfold process_fallback_xml in Hp.
    destruct (key_in "application-body" root) as [[]|]; simpl in Hp; try discriminate.
    destruct (subscript root "application-body") as [body|]; simpl in Hp; [|discriminate].
    destruct (key_in "description" body) as [[]|]; simpl in Hp; try discriminate.
    destruct (subscript body "description") as [description|]; simpl in Hp; [|discriminate].
    destruct (extract_structured_description _ _) as [[drawing embodiment] full].
    destruct (format_numbers _ _ _ _ _) as [nums|] eqn:Hnums; simpl in Hp; [|discriminate].
    injection Hp as <-. do 3 eexists. exists nums. split; [exact Hnums|]. by repeat split.
Qed.

(** The branch [format_numbers] takes is decided by the upper-cased kind. *)
Lemma upper_in_false u codes : u ∉ codes → upper_in (Some u) codes = false.
Proof. intros Hn. apply not_true_is_false. by rewrite upper_in_spec. Qed.

Lemma format_numbers_str app_number pub_number pub_date s app_date :
  s ≠ "" →
  format_numbers app_number pub_number pub_date (VStr s) app_date =
    let clean_app := clean_application_number app_number in
    let k := Some (py_upper s) in
    if upper_in k ["B"; "C"] then
      Returns {| n_clean_app := clean_app;
                 n_publication_number := or_none pub_number;
                 n_publication_date := pub_date;
                 n_open_number :=
                   match calculate_date_diff app_date pub_date with
                   | Some months => if (18 <? months)%Z then pub_number else VNone
                   | None => VNone
                   end;
                 n_open_date := VNone;
                 n_register_number := or_none clean_app;
                 n_register_date := pub_date |}
    else if upper_in k ["U"; "Y"] then
      Returns {| n_clean_app := clean_app;
                 n_publication_number := or_none pub_number;
                 n_publication_date := pub_date;
                 n_open_number := VNone;
                 n_open_date := VNone;
                 n_register_number := or_none clean_app;
                 n_register_date := pub_date |}
    else if upper_in k ["A"] then
      Returns {| n_clean_app := clean_app;
                 n_publication_number := VNone;
                 n_publication_date := VNone;
                 n_open_number := or_none pub_number;
                 n_open_date := pub_date;
                 n_register_number := VNone;
                 n_register_date := VNone |}
    else
      Returns {| n_clean_app := clean_app;
                 n_publication_number := VNone;
                 n_publication_date := VNone;
                 n_open_number := VNone;
                 n_open_date := VNone;
                 n_register_number := VNone;
                 n_register_date := VNone |}.
Proof.
  intros Hs. unfold format_numbers. rewrite (kind_upper_of_str s Hs). reflexivity.
Qed.

Lemma not_elem_of_codes (u : string) (codes others : list string) :
  u ∈ codes → (∀ c, c ∈ codes → c ∉ others) → u ∉ others.
Proof. intros Hin Hdisj. by apply Hdisj. Qed.

(** X4.  In every record whose [Kind] is A up to case, the publication and
    register fields are null, and [OpenNumber] is null or non-empty, never
    the empty string. *)
Theorem published_kind_numbering root r :
  parser_returns root r → kind_among ["A"] r →
  RegisterNumber r = VNone ∧ RegisterDate r = VNone
  ∧ PublicationNumber r = VNone ∧ PublicationDate r = VNone
  ∧ (OpenNumber r = VNone ∨ truthy (OpenNumber r) = true).
Proof.
  intros Hr (s & Hkind & Hs & Hin).
  destruct (parser_returns_numbering root r Hr)
    as (app_number & pub_number & pub_date & nums & Hf & Hn).
  destruct Hn as (Hon & Hod & Hrn & Hrd & Hpn & Hpd & _).
  rewrite Hkind, (format_numbers_str _ _ _ _ _ Hs) in Hf. cbv zeta in Hf.
  apply list_elem_of_singleton in Hin.
  rewrite !Hin in Hf. simpl in Hf. injection Hf as <-. simpl in *.
  split; [done|]. split; [done|]. split; [done|]. split; [done|].
  rewrite Hon. unfold or_none. destruct (truthy pub_number) eqn:Ht; [by right|by left].
Qed.

(** X5.  The patch of [parse_business] that sets a missing [RegisterDate] of a
    B or C document to the publication date never changes anything: in
    that branch [format_numbers] has already returned the publication date
    as the register date. *)
Theorem register_date_patch_is_idle app_number pub_no pub_dt kind app_date nums k :
  format_numbers app_number pub_no pub_dt kind app_date = Returns nums →
  kind_upper kind = Returns k →
  (if upper_in k ["B"; "C"] && negb (truthy (n_register_date nums)) && truthy pub_dt
   then pub_dt else n_register_date nums)
  = n_register_date nums.
Proof.
  intros Hf Hk. destruct (upper_in k ["B"; "C"]) eqn:Hin; [|done].
  rewrite (format_numbers_register_date _ _ _ _ _ _ _ Hf Hk Hin).
  by destruct (truthy pub_dt).
Qed.

(** X6.  In every record whose [Kind] is null, empty or none of the letters A,
    B, C, U, Y up to case, the six open, register and publication fields
    are all null. *)
Theorem unknown_kind_numbering root r :
  parser_returns root r → ¬ kind_among ["A"; "B"; "C"; "U"; "Y"] r →
  OpenNumber r = VNone ∧ OpenDate r = VNone
  ∧ RegisterNumber r = VNone ∧ RegisterDate r = VNone
  ∧ PublicationNumber r = VNone ∧ PublicationDate r = VNone.
Proof.
  intros Hr Hkind.
  destruct (parser_returns_numbering root r Hr)
    as (app_number & pub_number & pub_date & nums & Hf & Hn).
  destruct Hn as (Hon & Hod & Hrn & Hrd & Hpn & Hpd & _).
  rewrite Hon, Hod, Hrn, Hrd, Hpn, Hpd. clear Hon Hod Hrn Hrd Hpn Hpd.
  destruct (kind_upper (Kind r)) as [[u|]|] eqn:Hk.
  3: { unfold format_numbers in Hf. rewrite Hk in Hf. discriminate. }
  2: { unfold format_numbers in Hf. rewrite Hk in Hf. simpl in Hf. by injection Hf as <-. }
  - apply kind_upper_str in Hk as (s & Hs & Hne & ->).
    assert (∀ codes, codes ⊆ ["A"; "B"; "C"; "U"; "Y"] →
              upper_in (Some (py_upper s)) codes = false) as Hno.
    { intros codes Hsub. apply upper_in_false. intros Hin. apply Hkind.
      exists s. split; [done|]. split; [done|]. by apply Hsub. }
    rewrite Hs, (format_numbers_str _ _ _ _ _ Hne) in Hf. cbv zeta in Hf.
    rewrite !Hno in Hf.
    + by injection Hf as <-.
    + intros c Hc. apply list_elem_of_singleton in Hc as ->. apply list_elem_of_here.
    + intros c Hc. do 3 apply list_elem_of_further. exact Hc.
    + intros c Hc. apply list_elem_of_further.
      apply elem_of_cons in Hc as [->|Hc]; [apply list_elem_of_here|].
      apply list_elem_of_singleton in Hc as ->. apply list_elem_of_further, list_elem_of_here.
Qed.

(** X7.  In every record whose [Kind] is B or C up to case, [OpenDate] is null,
    and [OpenNumber] is set only when both dates parse and the publication
    is more than 18 calendar months after the application; it is then the
    publication number as the document gives it. *)
Theorem granted_kind_open_fields root r :
  parser_returns root r → kind_among ["B"; "C"] r →
  OpenDate r = VNone
  ∧ (OpenNumber r = VNone ∨ or_none (OpenNumber r) = PublicationNumber r)
  ∧ (OpenNumber r ≠ VNone →
     ∃ months,
       calculate_date_diff (ApplicationDate r) (PublicationDate r) = Some months
       ∧ (18 < months)%Z)
  ∧ ((∀ months, calculate_date_diff (ApplicationDate r) (PublicationDate r) = Some months →
        (months ≤ 18)%Z) →
     OpenNumber r = VNone).
Proof.
  intros Hr (s & Hkind & Hs & Hin).
  destruct (parser_returns_numbering root r Hr)
    as (app_number & pub_number & pub_date & nums & Hf & Hn).
  destruct Hn as (Hon & Hod & _ & _ & Hpn & Hpd & _).
  rewrite Hkind, (format_numbers_str _ _ _ _ _ Hs) in Hf. cbv zeta in Hf.
  apply upper_in_spec in Hin. rewrite Hin in Hf. injection Hf as <-. simpl in *.
  rewrite Hon, Hod, Hpn, Hpd. clear Hon Hod Hpn Hpd.
  split; [done|].
  destruct (calculate_date_diff (ApplicationDate r) pub_date) as [months|] eqn:Hdiff.
  - destruct (18 <? months)%Z eqn:Hlt.
    + apply Z.ltb_lt in Hlt. split; [by right|]. split; [eauto|].
      intros Hle. specialize (Hle months eq_refl). lia.
    + split; [by left|]. split; [done|done].
  - split; [by left|]. split; [done|done].
Qed.

(** X8.  Invariants of the numbers of every record: a truthy [Kind] is a
    string; [RegisterNumber] and [PublicationNumber] are null or non-empty,
    never the empty string; a [RegisterNumber] that is present is the
    [ApplicationNumber]; and an [ApplicationNumber] that is a string has no
    dot. *)
Theorem record_number_invariants root r :
  parser_returns root r →
  (truthy (Kind r) = true → ∃ s, Kind r = VStr s)
  ∧ (RegisterNumber r = VNone
     ∨ (truthy (RegisterNumber r) = true ∧ RegisterNumber r = ApplicationNumber r))
  ∧ (PublicationNumber r = VNone ∨ truthy (PublicationNumber r) = true)
  ∧ (∀ s, ApplicationNumber r = VStr s → contains "." s = false)
  ∧ clean_application_number (ApplicationNumber r) = ApplicationNumber r.
Proof.
  intros Hr.
  destruct (parser_returns_numbering root r Hr)
    as (app_number & pub_number & pub_date & nums & Hf & Hn).
  destruct Hn as (_ & _ & Hrn & _ & Hpn & _ & Han).
  assert (n_clean_app nums = clean_application_number app_number
          ∧ (n_register_number nums = VNone
             ∨ n_register_number nums = or_none (n_clean_app nums))
          ∧ (n_publication_number nums = VNone
             ∨ n_publication_number nums = or_none pub_number)) as (Hclean & Hreg & Hpub).
  { unfold format_numbers in Hf.
    destruct (kind_upper (Kind r)) as [k|]; simpl in Hf; [|discriminate].
    repeat match type of Hf with (if ?b then _ else _) = _ => destruct b end;
      injection Hf as <-; simpl; auto. }
  assert (∀ x, or_none x = VNone ∨ (truthy (or_none x) = true ∧ or_none x = x)) as Hor.
  { intros x. unfold or_none. destruct (truthy x) eqn:Ht; [right|left]; by rewrite ?Ht. }
  destruct (clean_application_number_cases app_number) as (Hfalsy & Htruthy).
  pose proof (clean_application_number_idempotent app_number) as Hidem.
  split; [|split; [|split; [|split]]].
  - intros Ht. unfold format_numbers, kind_upper in Hf. rewrite Ht in Hf.
    destruct (Kind r) as [|s| |]; try discriminate. eauto.
  - rewrite Hrn, Han. destruct Hreg as [->| ->]; [by left|]. apply Hor.
  - rewrite Hpn. destruct Hpub as [->| ->]; [by left|].
    destruct (Hor pub_number) as [->|[-> _]]; auto.
  - intros s. rewrite Han, Hclean. intros Heq.
    destruct (truthy app_number) eqn:Ht.
    + destruct (Htruthy eq_refl) as (t & rest & Ht' & Hdot & _).
      rewrite Ht' in Heq. by injection Heq as <-.
    + rewrite (Hfalsy eq_refl) in Heq. subst app_number. simpl in Ht.
      destruct (String.eqb_spec s ""); [by subst|done].
  - by rewrite Han, Hclean.
Qed.

End Numbering.

(** ** The description *)

Section Description.
Context `{PyBuiltins} `{PartyExtractors}.

Lemma fold_left_imap_invariant {A S} (f : S → nat * A → S) (P : nat → S → Prop)
    (l : list A) (s0 : S) :
  P 0 s0 →
  (∀ i x s, l !! i = Some x → P i s → P (Datatypes.S i) (f s (i, x))) →
  P (length l) (fold_left f (imap pair l) s0).
Proof.
  intros Hinit Hstep.
  assert (∀ l2 l1 s, l = l1 ++ l2 → P (length l1) s →
            P (length l) (fold_left f (imap (λ i, pair (length l1 + i)) l2) s)) as Hgen.
  { induction l2 as [|x l2 IH]; intros l1 s Hl Hs.
    - rewrite Hl, app_nil_r. exact Hs.
    - rewrite imap_cons. cbn [fold_left].
      rewrite (imap_ext _ (λ i, pair (length (l1 ++ [x]) + i))).
      2: { intros i y _. simpl. rewrite length_app. simpl. f_equal. lia. }
      apply IH.
      + by rewrite <- app_assoc.
      + rewrite length_app, Nat.add_0_r. simpl. rewrite Nat.add_1_r.
        apply Hstep; [|exact Hs]. rewrite Hl. by apply list_lookup_middle. }
  apply (Hgen l [] s0); done.
Qed.

Lemma scan_inv_step paragraphs i p st :
  paragraphs !! i = Some p →
  scan_inv paragraphs i st → scan_inv paragraphs (S i) (scan_paragraph paragraphs st (i, p)).
Proof.
  intros Hlook Hinv.
  assert (starts_embodiments paragraphs i =
            match extract_text p with
            | Some text =>
                negb (String.eqb text "") && negb (is_marker DRAWING_MARKERS text)
                && is_marker EMBODIMENT_MARKERS text
            | None => false
            end) as Hat.
  { unfold starts_embodiments. by rewrite Hlook. }
  assert (starts_embodiments paragraphs i = false → scan_inv paragraphs (S i) st) as Hkeep.
  { intros Hno. unfold scan_inv in *.
    destruct (embodiment_start_idx st) as [e|].
    - destruct Hinv as (Hlt & He & Hafter). split; [lia|]. split; [done|].
      intros j Hj. destruct (decide (j = i)) as [->|Hne]; [done|]. apply Hafter. lia.
    - destruct Hinv as [Hbefore Hbrief]. split; [|done].
      intros j Hj. destruct (decide (j = i)) as [->|Hne]; [done|]. apply Hbefore. lia. }
  unfold scan_paragraph.
  destruct (extract_text p) as [text|]; [|by apply Hkeep].
  destruct (String.eqb text ""); [by apply Hkeep|].
  destruct (is_marker DRAWING_MARKERS text).
  { specialize (Hkeep Hat). unfold scan_inv in *. exact Hkeep. }
  destruct (is_marker EMBODIMENT_MARKERS text); [|by apply Hkeep].
  unfold scan_inv. simpl. split; [lia|]. split; [done|]. intros j Hj. lia.
Qed.

Lemma scan_inv_end paragraphs :
  scan_inv paragraphs (length paragraphs)
    (fold_left (scan_paragraph paragraphs) (imap pair paragraphs)
       {| drawings_start_idx := None; embodiment_start_idx := None;
          brief_description_of_drawings := None |}).
Proof.
  apply (fold_left_imap_invariant (scan_paragraph paragraphs) (scan_inv paragraphs)).
  - split; [|done]. intros j Hj. lia.
  - intros i p st. apply scan_inv_step.
Qed.

Lemma starts_embodiments_lt paragraphs e :
  starts_embodiments paragraphs e = true → (e < length paragraphs)%nat.
Proof.
  unfold starts_embodiments. destruct (paragraphs !! e) as [p|] eqn:Hlook; [|discriminate].
  intros _. by eapply lookup_lt_Some.
Qed.

(** X9.  [extract_description_sections] splits at the last paragraph that starts
    the embodiments: the embodiments section is the text of the paragraphs
    after it; without such a paragraph there is neither an embodiments nor
    a drawings section.  The third component is the text of all
    paragraphs. *)
Theorem embodiments_follow_the_last_marker paragraphs :
  let sections := extract_description_sections paragraphs in
  sections.2 = joined (paragraph_texts paragraphs)
  ∧ ((∀ j, starts_embodiments paragraphs j = false) → sections.1 = (None, None))
  ∧ (∀ e, starts_embodiments paragraphs e = true →
       (∀ j, (e < j)%nat → starts_embodiments paragraphs j = false) →
       sections.1.2 = joined (paragraph_texts (drop (S e) paragraphs))).
Proof.
  pose proof (scan_inv_end paragraphs) as Hinv.
  cbv zeta. unfold extract_description_sections. cbn [fst snd].
  set (st := fold_left _ _ _) in *. unfold scan_inv in Hinv.
  split; [done|]. split.
  - intros Hnone. destruct (embodiment_start_idx st) as [e|].
    + destruct Hinv as (_ & He & _). by rewrite Hnone in He.
    + destruct Hinv as [_ ->]. done.
  - intros e He Hlast. destruct (embodiment_start_idx st) as [e'|].
    + destruct Hinv as (Hlt & He' & Hafter).
      assert (e = e') as <-; [|by destruct (paragraph_texts _)].
      pose proof (starts_embodiments_lt _ _ He) as Hlen.
      destruct (lt_eq_lt_dec e e') as [[Hlt'|Heq]|Hgt]; [|done|].
      * by rewrite (Hlast e' Hlt') in He'.
      * rewrite Hafter in He by lia. done.
    + destruct Hinv as [Hbefore _].
      rewrite Hbefore in He by (by apply starts_embodiments_lt). done.
Qed.

(** X10.  A section found under one of its tags takes precedence; a section the
    tags do not give is the one the paragraph markers give, if any; the
    undivided text does not depend on the paragraphs.  (Without paragraphs
    only the tags count.) *)
Theorem tagged_sections_take_precedence description all_paragraphs :
  let tagged := extract_structured_description description [] in
  let marked := extract_description_sections all_paragraphs in
  let sections := extract_structured_description description all_paragraphs in
  sections.2 = tagged.2
  ∧ sections.1.1 =
      (if text_truthy tagged.1.1 then tagged.1.1
       else if text_truthy marked.1.1 then marked.1.1 else None)
  ∧ sections.1.2 =
      (if text_truthy tagged.1.2 then tagged.1.2
       else if text_truthy marked.1.2 then marked.1.2 else None).
Proof.
  pose proof (extract_structured_description_sections description []) as [Hd He].
  cbv zeta in *. revert Hd He. unfold extract_structured_description.
  set (tags := match description with VDict _ => _ | _ => (None, None) end).
  destruct tags as [drawing embodiment].
  assert (∀ (b : bool) (x : option string * option string), (if b then x else x) = x) as Hif
    by (by intros []).
  rewrite Hif. cbn [fst snd]. intros Hd He.
  assert (∀ t, t ≠ Some "" → text_truthy t = false → t = None) as Hnone.
  { intros [s|] Hne Ht; [|done]. simpl in Ht. destruct (String.eqb_spec s ""); [by subst|done]. }
  destruct all_paragraphs as [|p ps].
  { rewrite Hif. cbn. split; [done|]. split.
    - destruct (text_truthy drawing) eqn:Ht; [done|]. by apply Hnone.
    - destruct (text_truthy embodiment) eqn:Ht; [done|]. by apply Hnone. }
  destruct (extract_description_sections (p :: ps)) as [[md me] mf].
  destruct (text_truthy drawing) eqn:Htd; destruct (text_truthy embodiment) eqn:Hte;
    cbn [negb orb andb fst snd]; (split; [done|]); split; try done.
  - destruct (text_truthy me); [done|]. by apply Hnone.
  - destruct (text_truthy md); [done|]. by apply Hnone.
  - destruct (text_truthy md); [done|]. by apply Hnone.
  - destruct (text_truthy me); [done|]. by apply Hnone.
Qed.

(** X11.  A description that is not a map (an element that holds nothing but
    text, or no description at all) leaves all three description fields of
    the record null: its text is not kept. *)
Theorem text_only_description_is_dropped root r description :
  parser_returns root r →
  find_description_in_document root = Returns description →
  (∀ items, description ≠ VDict items) →
  BriefDescriptionOfDrawings r = VNone
  ∧ DescriptionOfEmbodiments r = VNone
  ∧ Description r = VNone.
Proof.
  intros Hr Hfind Hplain. apply parser_returns_assembled in Hr.
  destruct Hr as (_ & _ & _ & _ & _ & description' & _ & _ & _ & Hfind' & Hb & He & Hd).
  rewrite Hfind in Hfind'. injection Hfind' as <-.
  assert (extract_description_paragraphs description = []) as Hps.
  { destruct description as [| |items|]; try done. by destruct (Hplain items). }
  rewrite Hps in *.
  assert (extract_structured_description description [] = (None, None, None)) as Hsec.
  { destruct description as [| |items|]; try done. by destruct (Hplain items). }
  rewrite Hsec in *. by rewrite Hb, He, Hd.
Qed.

Lemma extract_text_dict items :
  extract_text (VDict items) =
    match text_under "#text" items with
    | Some t => t
    | None =>
        match text_under "text" items with
        | Some t => t
        | None =>
            match child_texts items with
            | [] => None
            | _ => Some (py_join nl (child_texts items))
            end
        end
    end.
Proof. reflexivity. Qed.

Lemma text_under_filter key items :
  starts_with "@" key = false →
  text_under key (filter (λ kv, negb (is_attribute kv)) items) = text_under key items.
Proof.
  intros Hkey. induction items as [|[k v] items IH]; [done|].
  rewrite filter_cons. destruct (decide (negb (is_attribute (k, v)))) as [Hk|Hk].
  - cbn [text_under]. destruct (String.eqb k key); [done|exact IH].
  - cbn [text_under]. destruct (String.eqb_spec k key) as [->|Hne]; [|exact IH].
    exfalso. apply Hk. unfold is_attribute. cbn [fst]. by rewrite Hkey.
Qed.

Lemma child_texts_filter items :
  child_texts (filter (λ kv, negb (is_attribute kv)) items) = child_texts items.
Proof.
  induction items as [|[k v] items IH]; [done|].
  rewrite filter_cons. destruct (decide (negb (is_attribute (k, v)))) as [Hk|Hk];
    unfold is_attribute in Hk; cbn [fst] in Hk; cbn [child_texts];
    destruct (starts_with "@" k); try done.
  by rewrite IH.
Qed.

(** X12.  The text of a map does not depend on its attributes (the keys that
    start with ["@"]), whatever they hold; and when the map has a non-empty
    ["#text"], the text is that of ["#text"] alone: the text of the child
    elements is not part of it. *)
Theorem extract_text_ignores_attributes items :
  extract_text (VDict items)
  = extract_text (VDict (filter (λ kv, negb (is_attribute kv)) items))
  ∧ (∀ t, dict_get items "#text" = Some t → truthy t = true →
       extract_text (VDict items) = extract_text t).
Proof.
  split.
  - rewrite !extract_text_dict, !text_under_filter, child_texts_filter; done.
  - intros t Hget Ht. rewrite extract_text_dict.
    assert (text_under "#text" items = Some (extract_text t)) as ->; [|done].
    unfold dict_get, dict_find in Hget. revert Hget. generalize 0.
    induction items as [|[k v] items IH]; intros n; [discriminate|].
    cbn [dict_find_from text_under]. destruct (String.eqb k "#text").
    + simpl. intros [= ->]. by rewrite Ht.
    + apply IH.
Qed.

End Description.

(** ** The result of [process_xml_file] *)

(** Each field name has one binding in [parsed_items]. *)
Ltac only_binding :=
  let w := fresh "w" in
  let Hin := fresh "Hin" in
  unfold parsed_items; intros w Hin; apply list_elem_of_In in Hin; simpl in Hin;
  repeat (destruct Hin as [Hin|Hin]; [by (discriminate Hin || injection Hin)|]); done.

Ltac has_binding := unfold parsed_items; apply list_elem_of_In; simpl; tauto.

Section File_results.
Context `{PyBuiltins} `{PartyExtractors}.

Lemma elem_of_detected_missing_fields status field :
  field ∈ detected_missing_fields_of status ↔ (field, false) ∈ status.
Proof.
  unfold detected_missing_fields_of. rewrite list_elem_of_fmap. split.
  - intros ([f b] & -> & Hin). apply list_elem_of_filter in Hin as [Hb Hin].
    simpl in *. by destruct b.
  - intros Hin. exists (field, false). split; [done|]. by apply list_elem_of_filter.
Qed.

Lemma mem_string_spec s l : mem_string s l = true ↔ s ∈ l.
Proof.
  unfold mem_string. rewrite existsb_exists. split.
  - intros (x & Hin & Heq). apply String.eqb_eq in Heq as ->. by apply list_elem_of_In.
  - intros Hin. exists s. split; [by apply list_elem_of_In|apply String.eqb_refl].
Qed.

Lemma dispatch_summary_of_invention data r :
  dispatch data = Returns (Some r) → SummaryOfInvention r = VNone.
Proof.
  intros Hd. apply dispatch_parser_returns in Hd as [root Hr].
  apply parser_returns_assembled in Hr.
  by destruct Hr as (_ & _ & _ & _ & _ & _ & _ & _ & Hnone & _).
Qed.

Lemma process_xml_file_shape now file_path xml :
  let res := process_xml_file now file_path xml in
  fr_file_path res = file_path
  ∧ ((∃ e, fr_error res = Some e ∧ e ≠ "" ∧ fr_parsed_data res = None
        ∧ fr_extraction_status res = [] ∧ fr_missing_details res = None)
     ∨ (∃ r m,
          fr_error res = None ∧ fr_parsed_data res = Some r
          ∧ meta r = Some {| convertedDate := now;
                             originalFileName := py_basename file_path |}
          ∧ (fr_extraction_status res).*1 = field_names
          ∧ (∀ field v, (field, v) ∈ parsed_items r →
               (field, extracted v) ∈ fr_extraction_status res)
          ∧ fr_missing_details res = Some m
          ∧ full_file_path m = file_path
          ∧ (∀ field, field ∈ missing_fields m ↔ (field, false) ∈ fr_extraction_status res)
          ∧ contextual_issues m ≠ Some [])).
Proof.
  cbv zeta. unfold process_xml_file.
  destruct xml as [|e|data]; [split; [done|left; by eexists]..|].
  destruct (dispatch data) as [[r|]|e] eqn:Hd; [|split; [done|left; by eexists]..].
  split; [done|]. right.
  set (r' := update_meta r _).
  assert (SummaryOfInvention r' = VNone) as Hnone
    by exact (dispatch_summary_of_invention data r Hd).
  destruct (summary_of_invention_detected r' Hnone) as [_ Hmissing].
  cbn [fr_error fr_parsed_data fr_extraction_status fr_missing_details].
  unfold missing_details_of.
  destruct (detected_missing_fields_of (extraction_status_of r')) as [|f fs] eqn:Hfields.
  { by apply elem_of_nil in Hmissing. }
  eexists r', _. split; [done|]. split; [done|]. split; [done|]. split; [done|].
  split; [|split; [done|split; [done|split]]].
  - intros field v Hin. unfold extraction_status_of.
    by apply (list_elem_of_fmap_2' _ _ (field, v)).
  - intros field. cbn [missing_fields]. rewrite <- Hfields.
    apply elem_of_detected_missing_fields.
  - cbn [contextual_issues]. by destruct (contextual_issues_of r' (f :: fs)).
Qed.

(** X13.  [process_xml_file] answers in one of two shapes.  A failure has a
    non-empty error text, no record, an empty status and no missing-field
    report.  A success has no error and a record stamped with the
    conversion time and the file's base name; its status has exactly the
    twenty field names, in the order of the record; and its missing-field
    report names the file and lists exactly the fields the status marks as
    absent, with a list of contextual issues that is never empty (null
    stands for none). *)
Theorem process_xml_file_result now file_path xml :
  let res := process_xml_file now file_path xml in
  fr_file_path res = file_path
  ∧ ((∃ e, fr_error res = Some e ∧ e ≠ "" ∧ fr_parsed_data res = None
        ∧ fr_extraction_status res = [] ∧ fr_missing_details res = None)
     ∨ (∃ r m,
          fr_error res = None ∧ fr_parsed_data res = Some r
          ∧ meta r = Some {| convertedDate := now;
                             originalFileName := py_basename file_path |}
          ∧ (fr_extraction_status res).*1 = field_names
          ∧ (∀ field v, (field, v) ∈ parsed_items r →
               (field, extracted v) ∈ fr_extraction_status res)
          ∧ fr_missing_details res = Some m
          ∧ full_file_path m = file_path
          ∧ (∀ field, field ∈ missing_fields m ↔ (field, false) ∈ fr_extraction_status res)
          ∧ contextual_issues m ≠ Some [])).
Proof. apply process_xml_file_shape. Qed.

Lemma kind_A_match {X} (kind : value) (a b : X) :
  match kind with VStr "A" => a | _ => b end = if is_kind_A kind then a else b.
Proof.
  destruct kind as [|[|c s]| |]; try done.
  destruct c as [[] [] [] [] [] [] [] []]; try done; by destruct s.
Qed.

Lemma is_kind_A_spec kind : is_kind_A kind = true ↔ kind = VStr "A".
Proof.
  split; [|by intros ->].
  destruct kind as [|[|c s]| |]; try done.
  destruct c as [[] [] [] [] [] [] [] []]; try done; by destruct s.
Qed.

Lemma missing_field_extracted r field v :
  (∀ w, (field, w) ∈ parsed_items r → w = v) → (field, v) ∈ parsed_items r →
  mem_string field (detected_missing_fields_of (extraction_status_of r)) = negb (extracted v).
Proof.
  intros Hone Hin. apply eq_true_iff_eq.
  rewrite mem_string_spec, elem_of_detected_missing_fields, negb_true_iff.
  unfold extraction_status_of. rewrite list_elem_of_fmap. split.
  - intros ([f w] & [= <- Hw] & Hin'). by rewrite <- (Hone w Hin').
  - intros Hv. exists (field, v). simpl. by rewrite Hv.
Qed.

Lemma missing_Description r :
  mem_string "Description" (detected_missing_fields_of (extraction_status_of r))
  = negb (extracted (Description r)).
Proof. apply missing_field_extracted; [only_binding|has_binding]. Qed.

Lemma missing_OpenNumber r :
  mem_string "OpenNumber" (detected_missing_fields_of (extraction_status_of r))
  = negb (extracted (OpenNumber r)).
Proof. apply missing_field_extracted; [only_binding|has_binding]. Qed.

Lemma missing_OpenDate r :
  mem_string "OpenDate" (detected_missing_fields_of (extraction_status_of r))
  = negb (extracted (OpenDate r)).
Proof. apply missing_field_extracted; [only_binding|has_binding]. Qed.

(** X14.  The contextual issues of a missing-field report.  The description
    issue is raised exactly when [Description] is absent and a section is
    absent too.  The kind-A issue is raised exactly when [Kind] is the
    string ["A"] (in upper case: a record of kind ["a"] is numbered like
    kind A and gets no such issue) and [OpenNumber] or [OpenDate] is
    absent; its text names the absent ones.  There is nothing else. *)
Theorem contextual_issues_conditions now file_path xml r m :
  fr_parsed_data (process_xml_file now file_path xml) = Some r →
  fr_missing_details (process_xml_file now file_path xml) = Some m →
  (is_kind_A (Kind r) = true ↔ Kind r = VStr "A")
  ∧ issues_of m =
      (if negb (extracted (Description r))
          && (negb (truthy (BriefDescriptionOfDrawings r))
              || negb (truthy (DescriptionOfEmbodiments r)))
       then ["Description_missing_when_drawings_or_embodiments_absent"] else [])
      ++ (if is_kind_A (Kind r) then
            match extracted (OpenNumber r), extracted (OpenDate r) with
            | false, false => ["Kind_A_missing_OpenNumber_and_OpenDate"]
            | false, true => ["Kind_A_missing_OpenNumber"]
            | true, false => ["Kind_A_missing_OpenDate"]
            | true, true => []
            end
          else []).
Proof.
  intros Hdata Hmissing. split; [apply is_kind_A_spec|].
  revert Hdata Hmissing. unfold process_xml_file.
  destruct xml as [|e|data]; try discriminate.
  destruct (dispatch data) as [[r0|]|e]; try discriminate.
  cbn [fr_parsed_data fr_missing_details]. intros [= <-].
  set (r := update_meta r0 _).
  unfold missing_details_of.
  destruct (detected_missing_fields_of (extraction_status_of r)) as [|f fs] eqn:Hfields;
    [discriminate|].
  intros [= <-]. unfold issues_of. cbn [contextual_issues].
  assert (default [] (match contextual_issues_of r (f :: fs) with
                      | [] => None
                      | _ => Some (contextual_issues_of r (f :: fs))
                      end) = contextual_issues_of r (f :: fs)) as ->.
  { by destruct (contextual_issues_of r (f :: fs)). }
  rewrite <- Hfields. unfold contextual_issues_of.
  rewrite kind_A_match, missing_Description, missing_OpenNumber, missing_OpenDate.
  f_equal.
  - by destruct (truthy (BriefDescriptionOfDrawings r)),
               (truthy (DescriptionOfEmbodiments r)), (extracted (Description r)).
  - destruct (is_kind_A (Kind r)); [|done].
    by destruct (extracted (OpenNumber r)), (extracted (OpenDate r)).
Qed.

Lemma failure_result file_path e :
  let res := failure file_path e in
  fr_parsed_data res = None ∧ fr_error res = Some e.
Proof. done. Qed.

(** X15.  A document whose root element is empty ([<cn-patent-document/>], so
    that the root is null) never yields a record, whatever its family: the
    search for the description raises and the file is reported as a
    failure. *)
Theorem empty_root_element_fails now file_path root_key rest :
  let res := process_xml_file now file_path (Document (VDict ((root_key, VNone) :: rest))) in
  fr_parsed_data res = None ∧ ∃ e, fr_error res = Some ("Error: " +:+ e).
Proof.
  cbv zeta. unfold process_xml_file.
  assert (∃ e, dispatch (VDict ((root_key, VNone) :: rest)) = Raises e) as [e ->];
    [|split; [done|by exists e]].
  unfold dispatch.
  destruct (starts_with _ _).
  { unfold parse_cn_patent. cbn.
    destruct (cn_party_fields VNone) as [pf|e]; cbn; eauto. }
  destruct (ends_with _ _).
  { unfold parse_business. cbn.
    destruct (business_party_fields VNone) as [pf|e]; cbn; eauto. }
  cbn. eauto.
Qed.

(** X16.  A root tag of neither known family goes to the fallback parser, which
    returns a record only for a root map whose ["application-body"] is a
    map that has a ["description"].  A root map without a body, or whose
    body is a map without a description, is answered with the "unknown
    structure" failure. *)
Theorem fallback_needs_a_body_description now file_path root_key root rest :
  starts_with "cn-patent-document" (py_lower root_key) = false →
  ends_with "patentdocumentandrelated" (py_lower root_key) = false →
  let res := process_xml_file now file_path (Document (VDict ((root_key, root) :: rest))) in
  (∀ r, fr_parsed_data res = Some r →
     ∃ items body description,
       root = VDict items ∧ dict_get items "application-body" = Some (VDict body)
       ∧ dict_get body "description" = Some description)
  ∧ (∀ items, root = VDict items →
       dict_get items "application-body" = None
       ∨ (∃ body, dict_get items "application-body" = Some (VDict body)
                  ∧ dict_get body "description" = None) →
       res = failure file_path "알 수 없는 XML 구조").
Proof.
  intros Hcn Hbusiness. cbv zeta. unfold process_xml_file, dispatch.
  rewrite Hcn, Hbusiness. split.
  - intros r Hr.
    destruct (process_fallback_xml root) as [[r'|]|e] eqn:Hp; try discriminate.
    clear Hr. unfold process_fallback_xml in Hp.
    destruct (key_in "application-body" root) as [[]|] eqn:Hin1; simpl in Hp; try discriminate.
    destruct (subscript root "application-body") as [body|] eqn:Hsub1; simpl in Hp;
      [|discriminate].
    destruct (key_in "description" body) as [[]|] eqn:Hin2; simpl in Hp; try discriminate.
    destruct (subscript body "description") as [description|] eqn:Hsub2; simpl in Hp;
      [|discriminate].
    destruct (key_in_subscript _ _ _ Hin1 Hsub1) as (items & -> & Hbody).
    destruct (key_in_subscript _ _ _ Hin2 Hsub2) as (bitems & -> & Hdesc).
    eauto 6.
  - intros items -> Hno.
    assert (process_fallback_xml (VDict items) = Returns None) as ->; [|done].
    unfold process_fallback_xml. cbn [key_in].
    destruct Hno as [Hbody|(body & Hbody & Hdesc)].
    + rewrite Hbody. rewrite bool_decide_eq_false_2 by (by intros [? ?]). done.
    + rewrite Hbody. rewrite bool_decide_eq_true_2 by (by eexists).
      cbn. rewrite Hbody. cbn. rewrite Hdesc.
      rewrite bool_decide_eq_false_2 by (by intros [? ?]). done.
Qed.

End File_results.

(** ** The bookkeeping of [process_year] *)

Section Year.
Variable json_size : parsed → nat.
Variable max_items_per_file : Z.
Variable max_size_bytes : Z.
Abbreviation process_result := (process_result json_size max_items_per_file max_size_bytes).
Abbreviation must_seal := (must_seal max_items_per_file max_size_bytes).
Abbreviation consume := (consume json_size max_items_per_file max_size_bytes).
Abbreviation process_year := (process_year json_size max_items_per_file max_size_bytes).
Abbreviation run := (run json_size max_items_per_file max_size_bytes).

Ltac loop_fields :=
  cbn [chunk_count current_chunk_data current_size_bytes success_count_ fail_count
       failed_files year_acc yearly_total_missing_item_reports chunk_acc
       current_chunk_missing_details_list disk].

(** What [process_year] returns and writes, from the state of the loop. *)
Lemma process_year_cases events :
  events = [] ∧ process_year events
               = {| yr_success := 0; yr_fail := 0; yr_failed_files := []; yr_data := None;
                    yr_disk := [] |}
  ∨ (events ≠ [] ∧ events = map Completed (consumed events)
     ∧ process_year events =
         let st := seal_last_chunk (run (consumed events)) in
         {| yr_success := success_count_ st; yr_fail := fail_count st;
            yr_failed_files := failed_files st;
            yr_data := Some (report_of (year_acc st), yearly_total_missing_item_reports st);
            yr_disk := disk st ++ year_writes st |})
  ∨ (events ≠ map Completed (consumed events)
     ∧ ∃ d,
         process_year events =
           (let st := run (consumed events) in
            {| yr_success := success_count_ st; yr_fail := fail_count st;
               yr_failed_files := failed_files st;
               yr_data := Some (report_of (year_acc st), yearly_total_missing_item_reports st);
               yr_disk := d |})
         ∧ ∀ w, w ∈ d →
                w.2 = Incomplete ∨ w ∈ disk (seal_last_chunk (run (consumed events)))).
Proof.
  destruct events as [|e events]; [by left|]. right.
  destruct (consume_split json_size max_items_per_file max_size_bytes (e :: events))
    as (results & [[Heq _]|(point & rest & Heq & _)]); rewrite Heq.
  - left. rewrite consumed_completed. split; [by rewrite <- Heq|]. split; [done|].
    apply process_year_completed. intros ->. discriminate.
  - right. split.
    + rewrite consumed_interrupted, map_app. intros Hmap.
      apply app_inv_head in Hmap. by destruct point.
    + destruct (interrupted_run json_size max_items_per_file max_size_bytes results point rest)
        as (Hs & Hf & Hff & Hacc & Hm & Hdisk).
      eexists. split; [|exact Hdisk].
      rewrite process_year_interrupted. cbv zeta. by rewrite Hs, Hf, Hff, Hacc, Hm.
Qed.

Lemma carried_carries res parsed_data : carried res = Some parsed_data ↔ carries res parsed_data.
Proof.
  unfold carried, carries. destruct (text_truthy (fr_error res)).
  - split; [discriminate|]. by intros [? _].
  - split; [done|]. by intros [_ ?].
Qed.

Lemma carried_None res : carried res = None ↔ ∀ parsed_data, ¬ carries res parsed_data.
Proof.
  split.
  - intros Hnone parsed_data Hc. apply carried_carries in Hc. congruence.
  - intros Hno. destruct (carried res) as [parsed_data|] eqn:Hc; [|done].
    apply carried_carries in Hc. by destruct (Hno parsed_data).
Qed.

Lemma omap_one {A B} (f : A → option B) (x : A) : omap f [x] = option_list (f x).
Proof. cbn. by destruct (f x). Qed.

(** The counters of the loop. *)
Lemma run_counters results :
  let st := run results in
  success_count_ st + fail_count st = length results
  ∧ failed_files st = failures results
  ∧ fail_count st = length (failed_files st)
  ∧ items_count (year_acc st) = length (omap carried results)
  ∧ (items_count (year_acc st) ≤ success_count_ st)%nat
  ∧ yearly_total_missing_item_reports st = missing_of results.
Proof.
  induction results as [|res results IH] using rev_ind; [done|].
  cbv zeta in *. rewrite run_snoc. destruct IH as (Hsum & Hfailed & Hfail & Hitems & Hle & Hmissing).
  unfold failures, missing_of in *.
  rewrite omap_app, flat_map_app, length_app, omap_app, length_app. cbn.
  rewrite <- Hfailed, <- Hmissing, <- Hitems.
  unfold process_result, carried.
  destruct (text_truthy (fr_error res)) eqn:Herr; cbn.
  { rewrite length_app, app_nil_r. cbn. repeat split; try done; lia. }
  destruct (fr_parsed_data res) as [parsed_data|] eqn:Hdata; cbn.
  - destruct (must_seal (run results) (json_size parsed_data)); cbn;
      rewrite ?app_nil_r; repeat split; try done; lia.
  - rewrite !app_nil_r. repeat split; try done; lia.
Qed.

Lemma seal_last_chunk_fields st :
  let st' := seal_last_chunk st in
  success_count_ st' = success_count_ st ∧ fail_count st' = fail_count st
  ∧ failed_files st' = failed_files st ∧ year_acc st' = year_acc st
  ∧ yearly_total_missing_item_reports st' = yearly_total_missing_item_reports st.
Proof. unfold seal_last_chunk. by destruct (current_chunk_data st). Qed.


(** *** No record is lost *)

Lemma holds_chunks_nil : holds_chunks [] [].
Proof.
  intros n records. split; [intros Hin; by apply elem_of_nil in Hin|].
  intros (i & _ & Hlook). by rewrite lookup_nil in Hlook.
Qed.

Lemma holds_chunks_seal d chunks in_loop data acc missing :
  holds_chunks d chunks →
  holds_chunks (d ++ chunk_writes in_loop (S (length chunks)) data acc missing)
               (chunks ++ [data]).
Proof.
  intros Hd n records. rewrite elem_of_app, (Hd n records). split.
  - intros [(i & -> & Hlook)|Hin].
    + exists i. split; [done|]. by apply lookup_app_l_Some.
    + apply elem_of_data_files, data_files_chunk_writes in Hin as [-> ->].
      exists (length chunks). split; [done|]. by apply list_lookup_middle.
  - intros (i & -> & Hlook). apply lookup_app_Some in Hlook as [Hlook|[Hle Hlook]].
    + left. eauto.
    + apply list_lookup_singleton_Some in Hlook as [Hi <-].
      replace i with (length chunks) by lia. right.
      unfold chunk_writes. rewrite !elem_of_app. right. left. apply list_elem_of_here.
Qed.

Lemma run_chunks results :
  let st := run results in
  ∃ chunks,
    length chunks = chunk_count st
    ∧ Forall (λ chunk, chunk ≠ []) chunks
    ∧ holds_chunks (disk st) chunks
    ∧ concat chunks ++ current_chunk_data st = omap carried results
    ∧ (omap carried results ≠ [] → current_chunk_data st ≠ []).
Proof.
  induction results as [|res results IH] using rev_ind.
  { exists []. split; [done|]. split; [done|]. split; [apply holds_chunks_nil|]. by split. }
  cbv zeta in *. destruct IH as (chunks & Hlen & Hne & Hdisk & Hcat & Hcur).
  rewrite run_snoc, omap_app, omap_one.
  destruct (carries_dec res) as [[parsed_data Hc]|Hno].
  2: { destruct (process_result_no_record json_size max_items_per_file max_size_bytes
                   (run results) res Hno) as (-> & -> & _ & _ & _ & ->).
       apply carried_None in Hno. rewrite Hno. cbn. rewrite app_nil_r. by exists chunks. }
  rewrite (process_result_carries _ _ _ _ _ _ Hc). cbv zeta.
  apply carried_carries in Hc as Hcarried. rewrite Hcarried.
  change (option_list (Some parsed_data)) with [parsed_data].
  destruct (must_seal (run results) (json_size parsed_data)) eqn:Hseal; loop_fields.
  - apply must_seal_spec in Hseal as [Hdata _].
    exists (chunks ++ [current_chunk_data (run results)]).
    rewrite length_app, Forall_app, Forall_singleton, concat_app. cbn [length concat].
    rewrite app_nil_r, <- Hlen, <- Hcat, <- app_assoc.
    split; [lia|]. split; [done|]. split; [exact (holds_chunks_seal _ _ _ _ _ _ Hdisk)|].
    split; [by rewrite app_assoc|done].
  - exists chunks. rewrite app_assoc, Hcat.
    split; [done|]. split; [done|]. split; [done|]. split; [done|].
    intros _. by destruct (current_chunk_data (run results)).
Qed.

Lemma holds_chunks_year_writes d st chunks :
  holds_chunks d chunks → holds_chunks (d ++ year_writes st) chunks.
Proof.
  intros Hd n records. rewrite <- (Hd n records), elem_of_app. split; [|by left].
  intros [Hin|Hin]; [done|]. unfold year_writes in Hin.
  destruct (yearly_total_missing_item_reports st); cbn in Hin;
    rewrite ?elem_of_cons, elem_of_nil in Hin;
    repeat (destruct Hin as [Hin|Hin]); done.
Qed.

(** X18.  A year that runs to its end writes every record once: the data files
    are numbered from 1 without a gap, none is empty, no number is written
    with two different contents, and read in the order of their numbers
    they hold the records of the results, in the order of arrival. *)
Theorem every_record_is_written_once results :
  let out := process_year (map Completed results) in
  ∃ chunks,
    holds_chunks (yr_disk out) chunks
    ∧ Forall (λ chunk, chunk ≠ []) chunks
    ∧ concat chunks = omap carried results.
Proof.
  cbv zeta. destruct results as [|res results].
  { exists []. split; [apply holds_chunks_nil|]. by split. }
  rewrite process_year_completed by done. cbn [yr_disk].
  destruct (run_chunks (res :: results)) as (chunks & Hlen & Hne & Hdisk & Hcat & Hcur).
  set (st := run (res :: results)) in *.
  unfold seal_last_chunk at 1 2.
  destruct (current_chunk_data st) as [|r rs] eqn:Hdata.
  - exists chunks. rewrite app_nil_r in Hcat.
    split; [by apply holds_chunks_year_writes|]. by split.
  - exists (chunks ++ [r :: rs]). cbn [disk]. split; [|split].
    + apply holds_chunks_year_writes. rewrite <- Hlen. by apply holds_chunks_seal.
    + rewrite Forall_app, Forall_singleton. by split.
    + rewrite concat_app. cbn. by rewrite app_nil_r.
Qed.

Lemma holds_chunks_cut_short d chunks in_loop data acc missing written cut :
  holds_chunks d chunks →
  holds_chunks
    (d ++ cut_short (chunk_writes in_loop (S (length chunks)) data acc missing) written cut)
    (chunks ++ match written with 0 => [] | S _ => [data] end).
Proof.
  intros Hd n records. rewrite elem_of_app, (Hd n records), data_file_cut_short. split.
  - intros [(i & -> & Hlook)|(Hw & -> & ->)].
    + exists i. split; [done|]. by apply lookup_app_l_Some.
    + exists (length chunks). split; [done|]. destruct written; [done|].
      by apply list_lookup_middle.
  - intros (i & -> & Hlook). apply lookup_app_Some in Hlook as [Hlook|[Hle Hlook]].
    + left. eauto.
    + right. destruct written as [|k]; [by rewrite lookup_nil in Hlook|].
      apply list_lookup_singleton_Some in Hlook as [Hi <-].
      split; [done|]. split; [f_equal; lia|done].
Qed.

(** X19.  After an interruption the data files written in full hold, in the
    order of their numbers, a prefix of the records that the returned
    report counts.  Interrupted while the loop waits, the year has the
    records of the sealed chunks in its files and the active chunk, which
    is not empty as soon as one result carried a record, in none.
    Interrupted while it handles a result that carries a record, it has
    fewer records in its files than the report counts: at least that
    record is in no file. *)
Theorem interrupted_year_counts_unwritten_records results point rest :
  let st := run results in
  let events := map Completed results ++ KeyboardInterrupt point :: rest in
  let out := process_year events in
  ∃ chunks,
    holds_chunks (yr_disk out) chunks
    ∧ concat chunks `prefix_of` omap carried (consumed events)
    ∧ (point = Waiting →
         concat chunks ++ current_chunk_data st = omap carried results
         ∧ (omap carried results ≠ [] → current_chunk_data st ≠ []))
    ∧ (∀ res written cut,
         point = Sealing res written cut → is_Some (carried res) →
         (length (concat chunks) < length (omap carried (consumed events)))%nat)
    ∧ ∀ report missing,
        yr_data out = Some (report, missing) →
        total_processed_items report = length (omap carried (consumed events)).
Proof.
  cbv zeta. rewrite process_year_interrupted. cbv zeta. cbn [yr_disk yr_data].
  destruct (run_chunks results) as (chunks & Hlen & Hne & Hdisk & Hcat & Hcur).
  destruct (interrupted_run json_size max_items_per_file max_size_bytes results point rest)
    as (_ & _ & _ & Hacc & _ & _).
  destruct (run_counters
              (consumed (map Completed results ++ KeyboardInterrupt point :: rest)))
    as (_ & _ & _ & Hitems & _).
  assert (∀ report missing,
            Some (report_of (year_acc (interrupted json_size max_items_per_file
                                         max_size_bytes (run results) point)),
                  yearly_total_missing_item_reports
                    (interrupted json_size max_items_per_file max_size_bytes
                       (run results) point))
            = Some (report, missing) →
            total_processed_items report
            = length (omap carried
                        (consumed (map Completed results
                                   ++ KeyboardInterrupt point :: rest)))) as Hreport.
  { intros report missing [= <- _]. cbn. by rewrite Hacc, Hitems. }
  rewrite consumed_interrupted in *. rewrite omap_app, <- Hcat in *.
  set (st := run results) in *.
  assert (∀ written,
            concat (chunks ++ match written with 0 => [] | S _ => [current_chunk_data st] end)
              `prefix_of` (concat chunks ++ current_chunk_data st)
                          ++ omap carried match point with
                                          | Sealing res _ _ => [res]
                                          | _ => []
                                          end) as Hprefix.
  { intros written. rewrite concat_app, <- app_assoc. apply prefix_app, prefix_app_r.
    destruct written; cbn; [apply prefix_nil|by rewrite app_nil_r]. }
  assert (∀ written res,
            is_Some (carried res) →
            (length (concat (chunks ++ match written with
                                       | 0 => []
                                       | S _ => [current_chunk_data st]
                                       end))
             < length ((concat chunks ++ current_chunk_data st) ++ omap carried [res]))%nat)
    as Hless.
  { intros written res [parsed_data Hres]. rewrite omap_one, Hres.
    change (option_list (Some parsed_data)) with [parsed_data].
    destruct written; rewrite concat_app; cbn [concat option_list];
      rewrite ?app_nil_r, !length_app; cbn [length option_list]; lia. }
  pose proof (Hprefix 0) as Hprefix0. pose proof (Hless 0) as Hless0.
  cbn [Nat.eqb] in Hprefix0, Hless0. rewrite app_nil_r in Hprefix0, Hless0.
  destruct point as [|res written cut|written cut]; cbn [interrupted].
  - exists chunks. split; [done|]. split; [exact Hprefix0|]. split; [done|].
    split; [discriminate|done].
  - destruct (interrupted_seal_disk json_size max_items_per_file max_size_bytes
                st res written cut)
      as (writes & _ & -> & [->|(parsed_data & _ & _ & ->)]).
    + rewrite cut_short_nil, app_nil_r. exists chunks.
      split; [done|]. split; [exact Hprefix0|]. split; [discriminate|].
      split; [|done]. intros res' written' cut' [= <- _ _]. exact (Hless0 res).
    + eexists. rewrite <- Hlen. split; [by apply holds_chunks_cut_short|].
      split; [exact (Hprefix written)|]. split; [discriminate|].
      split; [|done]. intros res' written' cut' [= <- _ _]. exact (Hless written res).
  - destruct (interrupted_flush_disk st written cut) as (writes & _ & -> & [->|(_ & ->)]).
    + rewrite cut_short_nil, app_nil_r. exists chunks.
      split; [done|]. split; [exact Hprefix0|]. split; [discriminate|].
      split; [discriminate|done].
    + eexists. rewrite <- Hlen. split; [by apply holds_chunks_cut_short|].
      split; [exact (Hprefix written)|]. split; [discriminate|].
      split; [discriminate|done].
Qed.

(** *** Totals are additive and bounded *)

Lemma special_ok_empty : acc_bounded empty_accumulator.
Proof.
  split; [|by repeat split]. intros field. unfold count_of. cbn. by rewrite lookup_empty.
Qed.

Lemma b2n_le b : (b2n b ≤ 1)%nat.
Proof. destruct b; simpl; lia. Qed.

Lemma hits_le_1 status field : NoDup status.*1 → (hits status field ≤ 1)%nat.
Proof.
  unfold hits. induction status as [|[f b] status IH]; [simpl; lia|].
  cbn [fmap list_fmap fst]. intros Hnd. apply NoDup_cons in Hnd as [Hnot Hnd].
  rewrite filter_cons. destruct (decide _) as [[Hf Hb]|Hno]; [|by apply IH].
  cbn in Hf. subst f. cbn [length].
  destruct (filter (λ fe : string * bool, fe.1 = field ∧ fe.2 = true) status)
    as [|x l] eqn:Hfilter; [simpl; lia|].
  exfalso. apply Hnot.
  assert (x ∈ filter (λ fe : string * bool, fe.1 = field ∧ fe.2 = true) status) as Hin
    by (rewrite Hfilter; apply list_elem_of_here).
  apply list_elem_of_filter in Hin as [[Hx _] Hin].
  apply list_elem_of_fmap. by exists x.
Qed.

Lemma special_ok_record_item acc parsed_data status :
  special_ok (kind_A acc) (desc_fallback acc) →
  special_ok (kind_A (record_item acc parsed_data status))
             (desc_fallback (record_item acc parsed_data status)).
Proof.
  intros (Hnum & Hdate & Hdesc). unfold special_ok, record_item. cbn.
  pose proof (b2n_le (status_get status "OpenNumber")).
  pose proof (b2n_le (status_get status "OpenDate")).
  pose proof (b2n_le (status_get status "Description")).
  repeat split;
    repeat match goal with |- context [if ?b then _ else _] => destruct b end; cbn; lia.
Qed.

Lemma acc_bounded_record_item acc parsed_data status :
  NoDup status.*1 → acc_bounded acc → acc_bounded (record_item acc parsed_data status).
Proof.
  intros Hnd [Hfields Hspecial]. split; [|by apply special_ok_record_item].
  intros field. cbn [record_item field_success_counts items_count].
  rewrite count_of_count_fields.
  pose proof (hits_le_1 status field Hnd). specialize (Hfields field). lia.
Qed.

Lemma special_ok_report_of acc :
  special_ok (kind_A acc) (desc_fallback acc) →
  special_ok (report_kind_A (report_of acc)) (report_desc_fallback (report_of acc)).
Proof.
  intros (Hnum & Hdate & Hdesc).
  unfold report_kind_A, report_desc_fallback, report_of, generate_stats_dict. cbn.
  repeat split;
    repeat match goal with |- context [if ?b then _ else _] => destruct b end; cbn; lia.
Qed.

Lemma report_ok_report_of acc : acc_bounded acc → report_ok (report_of acc).
Proof.
  intros [Hfields Hspecial]. split; [|by apply special_ok_report_of].
  intros field row. unfold report_of, generate_stats_dict.
  cbn [field_extraction_success_rate total_processed_items].
  destruct (0 <? items_count acc)%nat; [|by rewrite lookup_empty].
  rewrite lookup_fmap. specialize (Hfields field). unfold count_of in Hfields.
  destruct (field_success_counts acc !! field) as [count|]; [|discriminate].
  intros [= <-]. cbn in *. by split.
Qed.

Lemma stats_of_chunk_writes in_loop n data acc missing name report :
  (name, StatsFile report) ∈ chunk_writes in_loop n data acc missing → report = report_of acc.
Proof.
  unfold chunk_writes. destruct in_loop, missing; cbn;
    rewrite ?elem_of_cons, elem_of_nil; intros Hin;
    repeat (destruct Hin as [Hin|Hin]); try done; by injection Hin.
Qed.

Lemma run_bounded results :
  Forall status_ok results →
  let st := run results in
  acc_bounded (year_acc st) ∧ acc_bounded (chunk_acc st)
  ∧ ∀ name report, (name, StatsFile report) ∈ disk st → report_ok report.
Proof.
  induction results as [|res results IH] using rev_ind; intros Hok.
  { split; [apply special_ok_empty|]. split; [apply special_ok_empty|].
    intros name report Hin. by apply elem_of_nil in Hin. }
  apply Forall_app in Hok as [Hok Hres]. rewrite Forall_singleton in Hres.
  cbv zeta in *. destruct (IH Hok) as (Hyear & Hchunk & Hdisk). rewrite run_snoc.
  destruct (carries_dec res) as [[parsed_data Hc]|Hno].
  2: { destruct (process_result_no_record json_size max_items_per_file max_size_bytes
                   (run results) res Hno) as (_ & _ & _ & -> & -> & ->). done. }
  rewrite (process_result_carries _ _ _ _ _ _ Hc). cbv zeta.
  pose proof (acc_bounded_record_item _ parsed_data _ Hres Hyear) as Hyear'.
  pose proof (acc_bounded_record_item _ parsed_data _ Hres Hchunk) as Hchunk'.
  destruct (must_seal (run results) (json_size parsed_data)); loop_fields; [|done].
  split; [done|]. split; [apply special_ok_empty|].
  intros name report. rewrite elem_of_app. intros [Hin|Hin]; [by eapply Hdisk|].
  apply stats_of_chunk_writes in Hin as ->. by apply report_ok_report_of.
Qed.

(** X20.  When every status is a dict (no field twice), no report shows more
    successes than items: in every statistics file a year writes, and in
    the report it returns, each row has [success_count ≤ total_items] with
    [total_items] the report's number of items, and the special blocks
    count no more successes than target documents. *)
Theorem success_counts_never_exceed_totals events :
  Forall status_ok (consumed events) →
  let out := process_year events in
  (∀ name report, (name, StatsFile report) ∈ yr_disk out → report_ok report)
  ∧ (∀ report missing, yr_data out = Some (report, missing) → report_ok report).
Proof.
  intros Hok. cbv zeta.
  destruct (run_bounded (consumed events) Hok) as (Hyear & Hchunk & Hdisk).
  assert (∀ name report,
            (name, StatsFile report) ∈ disk (seal_last_chunk (run (consumed events))) →
            report_ok report) as Hsealed.
  { intros name report. unfold seal_last_chunk.
    destruct (current_chunk_data (run (consumed events))); [apply Hdisk|]. cbn [disk].
    rewrite elem_of_app. intros [Hin|Hin]; [by eapply Hdisk|].
    apply stats_of_chunk_writes in Hin as ->. by apply report_ok_report_of. }
  destruct (process_year_cases events) as [[-> ->]|[(_ & _ & ->)|(_ & d & -> & Hd)]];
    cbv zeta; cbn [yr_disk yr_data].
  - split; [|discriminate]. intros name report Hin. by apply elem_of_nil in Hin.
  - destruct (seal_last_chunk_fields (run (consumed events))) as (_ & _ & _ & Hacc & _).
    rewrite Hacc. split; [|intros report missing [= <- <-]; by apply report_ok_report_of].
    intros name report. rewrite elem_of_app. intros [Hin|Hin]; [by eapply Hsealed|].
    + unfold year_writes in Hin. rewrite Hacc in Hin.
      destruct (yearly_total_missing_item_reports _); cbn in Hin;
        rewrite ?elem_of_cons, elem_of_nil in Hin;
        repeat (destruct Hin as [Hin|Hin]); try done;
        injection Hin as _ ->; by apply report_ok_report_of.
  - split; [|intros report missing [= <- <-]; by apply report_ok_report_of].
    intros name report Hin. apply Hd in Hin as [Hin|Hin]; [discriminate|].
    by eapply Hsealed.
Qed.

Lemma run_special_ok results :
  let st := run results in
  special_ok (kind_A (year_acc st)) (desc_fallback (year_acc st))
  ∧ special_ok (kind_A (chunk_acc st)) (desc_fallback (chunk_acc st)).
Proof.
  apply (run_invariant json_size max_items_per_file max_size_bytes
           (λ st, special_ok (kind_A (year_acc st)) (desc_fallback (year_acc st))
                  ∧ special_ok (kind_A (chunk_acc st)) (desc_fallback (chunk_acc st)))).
  - by repeat split.
  - intros st res [Hyear Hchunk]. unfold process_result.
    destruct (text_truthy (fr_error res)); [done|].
    destruct (fr_parsed_data res) as [parsed_data|]; [|done].
    destruct (must_seal st (json_size parsed_data)); cbn [year_acc chunk_acc];
      (split; [by apply special_ok_record_item|]);
      [by repeat split|by apply special_ok_record_item].
Qed.

(** A quantity that every record adds to, at both levels. *)
Lemma additive_measure (μ : accumulator → nat) (ν : stats_report → nat)
    (δ : parsed → list (string * bool) → nat) :
  μ empty_accumulator = 0 →
  (∀ acc r s, μ (record_item acc r s) = μ acc + δ r s) →
  (∀ acc, special_ok (kind_A acc) (desc_fallback acc) → ν (report_of acc) = μ acc) →
  ∀ results,
    μ (year_acc (seal_last_chunk (run results)))
    = sum_list_with ν (chunk_reports (disk (seal_last_chunk (run results)))).
Proof.
  intros Hempty Hitem Hreport results.
  assert (μ (year_acc (run results))
          = sum_list_with ν (chunk_reports (disk (run results)))
            + μ (chunk_acc (run results))) as Hsum.
  { induction results as [|res results IH] using rev_ind.
    { change (μ empty_accumulator = 0 + μ empty_accumulator). lia. }
    rewrite run_snoc. pose proof (run_special_ok results) as [_ Hok].
    destruct (carries_dec res) as [[parsed_data Hc]|Hno].
    2: { destruct (process_result_no_record json_size max_items_per_file max_size_bytes
                     (run results) res Hno) as (_ & _ & _ & -> & -> & ->). done. }
    rewrite (process_result_carries _ _ _ _ _ _ Hc). cbv zeta.
    destruct (must_seal (run results) (json_size parsed_data)); loop_fields.
    - rewrite chunk_reports_app, chunk_reports_chunk_writes, sum_list_with_app.
      cbn [sum_list_with].
      rewrite Hreport by (by apply special_ok_record_item).
      rewrite !Hitem, Hempty, IH. lia.
    - rewrite !Hitem, IH. lia. }
  pose proof (run_special_ok results) as [_ Hok].
  destruct (additive_run json_size max_items_per_file max_size_bytes results)
    as (_ & _ & Hnone & _).
  unfold seal_last_chunk. destruct (current_chunk_data (run results)) eqn:Hdata.
  - rewrite Hsum, (Hnone eq_refl), Hempty. lia.
  - loop_fields. rewrite chunk_reports_app, chunk_reports_chunk_writes, sum_list_with_app.
    cbn [sum_list_with]. rewrite Hreport, Hsum by done. lia.
Qed.

Lemma missing_files_app d1 d2 : missing_files (d1 ++ d2) = missing_files d1 ++ missing_files d2.
Proof. apply omap_app. Qed.

Lemma concat_missing_files_chunk_writes in_loop n data acc missing :
  concat (missing_files (chunk_writes in_loop n data acc missing)) = missing.
Proof. unfold chunk_writes. destruct in_loop, missing; cbn; by rewrite ?app_nil_r. Qed.

Lemma missing_files_year_writes st : missing_files (year_writes st) = [].
Proof. unfold year_writes. by destruct (yearly_total_missing_item_reports st). Qed.

Lemma run_missing results :
  let st := run results in
  yearly_total_missing_item_reports st
  = concat (missing_files (disk st)) ++ current_chunk_missing_details_list st
  ∧ (current_chunk_data st = [] → current_chunk_missing_details_list st = []).
Proof.
  apply (run_invariant json_size max_items_per_file max_size_bytes
           (λ st, yearly_total_missing_item_reports st
                  = concat (missing_files (disk st))
                    ++ current_chunk_missing_details_list st
                  ∧ (current_chunk_data st = [] →
                     current_chunk_missing_details_list st = []))); [done|].
  intros st res [Hst Hnil]. unfold process_result.
  destruct (text_truthy (fr_error res)); [done|].
  destruct (fr_parsed_data res) as [parsed_data|]; [|done].
  destruct (must_seal st (json_size parsed_data)); loop_fields.
  - rewrite missing_files_app, concat_app, concat_missing_files_chunk_writes, Hst.
    by rewrite app_nil_r, app_assoc.
  - rewrite Hst, app_assoc. split; [done|]. by destruct (current_chunk_data st).
Qed.

Ltac report_side :=
  let acc := fresh "acc" in
  let Hpos := fresh "Hpos" in
  intros acc (? & ? & ?);
  unfold report_kind_A, report_desc_fallback, report_of, generate_stats_dict;
  cbn [kind_A_special_stats description_fallback_stats];
  match goal with |- context [(0 <? ?t)%nat] => destruct (0 <? t)%nat eqn:Hpos end;
  cbn; [done|apply Nat.ltb_ge in Hpos; lia].

(** X21.  When a year is processed to its end, the year report is the sum of the
    chunk reports written for it: the number of items, the three counts
    of the kind-A block and the two counts of the description block (a
    message block counting as zero); and the year's missing-item list is
    the concatenation of the chunks' missing-item files. *)
Theorem year_totals_are_sums_of_chunk_totals results report missing :
  let out := process_year (map Completed results) in
  yr_data out = Some (report, missing) →
  let reports := chunk_reports (yr_disk out) in
  total_processed_items report = sum_list_with total_processed_items reports
  ∧ total_A_items (report_kind_A report)
    = sum_list_with (λ r, total_A_items (report_kind_A r)) reports
  ∧ OpenNumber_success (report_kind_A report)
    = sum_list_with (λ r, OpenNumber_success (report_kind_A r)) reports
  ∧ OpenDate_success (report_kind_A report)
    = sum_list_with (λ r, OpenDate_success (report_kind_A r)) reports
  ∧ total_partial_missing_items (report_desc_fallback report)
    = sum_list_with (λ r, total_partial_missing_items (report_desc_fallback r)) reports
  ∧ Description_success_when_partial_missing (report_desc_fallback report)
    = sum_list_with (λ r, Description_success_when_partial_missing (report_desc_fallback r))
        reports
  ∧ missing = concat (missing_files (yr_disk out)).
Proof.
  cbv zeta. destruct results as [|res results]; [discriminate|].
  rewrite process_year_completed by done. cbn [yr_data yr_disk].
  set (st := seal_last_chunk (run (res :: results))). intros [= <- <-].
  rewrite chunk_reports_app, chunk_reports_year_writes, app_nil_r.
  rewrite missing_files_app, missing_files_year_writes, app_nil_r.
  pose proof (run_special_ok (res :: results)) as [Hyear _].
  destruct (seal_last_chunk_fields (run (res :: results))) as (_ & _ & _ & Hacc & Hmissing).
  fold st in Hacc, Hmissing. rewrite <- Hacc in Hyear.
  assert (∀ (μ : accumulator → nat) (ν : stats_report → nat) δ,
            μ empty_accumulator = 0 →
            (∀ acc r s, μ (record_item acc r s) = μ acc + δ r s) →
            (∀ acc, special_ok (kind_A acc) (desc_fallback acc) → ν (report_of acc) = μ acc) →
            ν (report_of (year_acc st)) = sum_list_with ν (chunk_reports (disk st))) as Hsum.
  { intros μ ν δ H1 H2 H3. rewrite H3 by done. by apply (additive_measure μ ν δ). }
  split; [|split; [|split; [|split; [|split; [|split]]]]].
  - apply (Hsum items_count total_processed_items (λ _ _, 1)); [done| |done].
    intros acc r s. cbn. lia.
  - apply (Hsum (λ acc, total_A_items (kind_A acc)) (λ r, total_A_items (report_kind_A r))
             (λ r _, if is_kind_A (Kind r) then 1 else 0)); [done| |report_side].
    intros acc r s. cbn. rewrite kind_A_match. destruct (is_kind_A (Kind r)); cbn; lia.
  - apply (Hsum (λ acc, OpenNumber_success (kind_A acc))
             (λ r, OpenNumber_success (report_kind_A r))
             (λ r s, if is_kind_A (Kind r) then b2n (status_get s "OpenNumber") else 0));
      [done| |report_side].
    intros acc r s. cbn. rewrite kind_A_match. destruct (is_kind_A (Kind r)); cbn; lia.
  - apply (Hsum (λ acc, OpenDate_success (kind_A acc))
             (λ r, OpenDate_success (report_kind_A r))
             (λ r s, if is_kind_A (Kind r) then b2n (status_get s "OpenDate") else 0));
      [done| |report_side].
    intros acc r s. cbn. rewrite kind_A_match. destruct (is_kind_A (Kind r)); cbn; lia.
  - apply (Hsum (λ acc, total_partial_missing_items (desc_fallback acc))
             (λ r, total_partial_missing_items (report_desc_fallback r))
             (λ r _, if negb (truthy (BriefDescriptionOfDrawings r))
                        || negb (truthy (DescriptionOfEmbodiments r)) then 1 else 0));
      [done| |report_side].
    intros acc r s. cbn. destruct (_ || _); cbn; lia.
  - apply (Hsum (λ acc, Description_success_when_partial_missing (desc_fallback acc))
             (λ r, Description_success_when_partial_missing (report_desc_fallback r))
             (λ r s, if negb (truthy (BriefDescriptionOfDrawings r))
                        || negb (truthy (DescriptionOfEmbodiments r))
                     then b2n (status_get s "Description") else 0));
      [done| |report_side].
    intros acc r s. cbn. destruct (_ || _); cbn; lia.
  - rewrite Hmissing. pose proof (run_missing (res :: results)) as [Hrun Hnil].
    cbv zeta in Hrun, Hnil. subst st. unfold seal_last_chunk.
    destruct (current_chunk_data (run (res :: results))) eqn:Hdata.
    + by rewrite Hrun, (Hnil eq_refl), app_nil_r.
    + loop_fields. rewrite Hrun.
      by rewrite missing_files_app, concat_app, concat_missing_files_chunk_writes.
Qed.

End Year.

(** ** The rows of a report *)

Section Rows.
Variable json_size : parsed → nat.
Variable max_items_per_file : Z.
Variable max_size_bytes : Z.
Abbreviation process_result := (process_result json_size max_items_per_file max_size_bytes).
Abbreviation must_seal := (must_seal max_items_per_file max_size_bytes).
Abbreviation process_year := (process_year json_size max_items_per_file max_size_bytes).
Abbreviation run := (run json_size max_items_per_file max_size_bytes).

Lemma counts_positive_count_fields status counts :
  counts_positive counts → counts_positive (count_fields status counts).
Proof.
  unfold count_fields. revert counts.
  induction status as [|[f b] status IH]; intros counts Hpos; [done|].
  cbn [fold_left]. apply IH. destruct b; cbn [fst snd]; [|done].
  intros field count. rewrite lookup_insert.
  destruct (decide (f = field)); [|apply Hpos]. intros [= <-]. lia.
Qed.

Lemma counts_positive_lookup counts field :
  counts_positive counts → (is_Some (counts !! field) ↔ (1 ≤ count_of counts field)%nat).
Proof.
  intros Hpos. unfold count_of. destruct (counts !! field) as [count|] eqn:Hlook; cbn.
  - split; [intros _; by eapply Hpos|by eauto].
  - split; [by intros [? ?]|lia].
Qed.

Lemma run_counts_positive results :
  counts_positive (field_success_counts (year_acc (run results))).
Proof.
  apply (run_invariant json_size max_items_per_file max_size_bytes
           (λ st, counts_positive (field_success_counts (year_acc st)))).
  - intros field count. cbn. by rewrite lookup_empty.
  - intros st res Hst. unfold process_result.
    destruct (text_truthy (fr_error res)); [done|].
    destruct (fr_parsed_data res) as [parsed_data|]; [|done].
    destruct (must_seal st (json_size parsed_data)); cbn [year_acc];
      by apply counts_positive_count_fields.
Qed.

Lemma run_extractions results field :
  count_of (field_success_counts (year_acc (run results))) field = extractions results field.
Proof.
  unfold extractions.
  induction results as [|res results IH] using rev_ind.
  { unfold count_of. cbn. by rewrite lookup_empty. }
  rewrite run_snoc, sum_list_with_app. cbn [sum_list_with]. rewrite <- IH.
  unfold process_result, carried.
  destruct (text_truthy (fr_error res)); cbn [year_acc]; [lia|].
  destruct (fr_parsed_data res) as [parsed_data|]; cbn [year_acc]; [|lia].
  destruct (must_seal (run results) (json_size parsed_data));
    cbn [year_acc record_item field_success_counts]; rewrite count_of_count_fields; lia.
Qed.

Lemma hits_positive status field : (1 ≤ hits status field)%nat ↔ (field, true) ∈ status.
Proof.
  unfold hits. split.
  - intros Hpos.
    destruct (filter (λ fe : string * bool, fe.1 = field ∧ fe.2 = true) status)
      as [|[f b] l] eqn:Hfilter; [cbn in Hpos; lia|].
    assert ((f, b) ∈ filter (λ fe : string * bool, fe.1 = field ∧ fe.2 = true) status)
      as Hin by (rewrite Hfilter; apply list_elem_of_here).
    apply list_elem_of_filter in Hin as [[Hf Hb] Hin]. cbn in Hf, Hb. by subst.
  - intros Hin.
    assert ((field, true) ∈ filter (λ fe : string * bool, fe.1 = field ∧ fe.2 = true) status)
      as Hfilter by (by apply list_elem_of_filter).
    destruct (filter _ status); [by apply elem_of_nil in Hfilter|cbn; lia].
Qed.

Lemma extractions_positive results field :
  (1 ≤ extractions results field)%nat
  ↔ ∃ res parsed_data,
      res ∈ results ∧ carries res parsed_data ∧ (field, true) ∈ fr_extraction_status res.
Proof.
  unfold extractions. induction results as [|res results IH].
  { cbn. split; [lia|]. intros (res & _ & Hin & _). by apply elem_of_nil in Hin. }
  cbn [sum_list_with]. split.
  - intros Hsum.
    destruct (carried res) as [parsed_data|] eqn:Hc.
    + destruct (decide (1 ≤ hits (fr_extraction_status res) field)%nat) as [Hhit|Hno].
      * exists res, parsed_data. split; [apply list_elem_of_here|].
        split; [by apply carried_carries|by apply hits_positive].
      * destruct (proj1 IH ltac:(lia)) as (res' & parsed_data' & Hin & Hrest).
        exists res', parsed_data'. split; [by apply list_elem_of_further|done].
    + destruct (proj1 IH ltac:(lia)) as (res' & parsed_data' & Hin & Hrest).
      exists res', parsed_data'. split; [by apply list_elem_of_further|done].
  - intros (res' & parsed_data & Hin & Hc & Hstatus).
    apply elem_of_cons in Hin as [->|Hin].
    + apply carried_carries in Hc. rewrite Hc. apply hits_positive in Hstatus. lia.
    + assert (1 ≤ sum_list_with
                    (λ res, match carried res with
                            | Some _ => hits (fr_extraction_status res) field
                            | None => 0
                            end) results)%nat by (apply IH; eauto). lia.
Qed.

Lemma rows_of_year events report missing :
  yr_data (process_year events) = Some (report, missing) →
  ∀ field,
    (is_Some (field_extraction_success_rate report !! field)
       ↔ ∃ res parsed_data,
           res ∈ consumed events ∧ carries res parsed_data
           ∧ (field, true) ∈ fr_extraction_status res)
    ∧ (∀ row, field_extraction_success_rate report !! field = Some row →
         success_count row = extractions (consumed events) field
         ∧ (1 ≤ success_count row)%nat).
Proof.
  intros Hdata field.
  assert (report = report_of (year_acc (run (consumed events)))) as ->.
  { destruct (process_year_cases json_size max_items_per_file max_size_bytes events)
      as [[-> Heq]|[(_ & _ & Heq)|(_ & d & Heq & _)]]; rewrite Heq in Hdata; cbv zeta in Hdata;
      cbn [yr_data] in Hdata; [discriminate| |by injection Hdata as <- _].
    destruct (seal_last_chunk_fields (run (consumed events))) as (_ & _ & _ & Hacc & _).
    rewrite Hacc in Hdata. by injection Hdata as <- _. }
  set (acc := year_acc (run (consumed events))).
  pose proof (run_counts_positive (consumed events)) as Hpos. fold acc in Hpos.
  pose proof (run_extractions (consumed events) field) as Hcount. fold acc in Hcount.
  destruct (additive_run json_size max_items_per_file max_size_bytes (consumed events))
    as (Hok & _). fold acc in Hok.
  assert (∀ row, field_extraction_success_rate (report_of acc) !! field = Some row
                 ↔ field_success_counts acc !! field = Some (success_count row)
                   ∧ total_items row = items_count acc ∧ items_count acc ≠ 0) as Hrow.
  { intros row. unfold report_of, generate_stats_dict.
    cbn [field_extraction_success_rate].
    destruct (items_count acc) as [|n] eqn:Hitems.
    - cbn. rewrite lookup_empty. split; [discriminate|]. by intros (_ & _ & ?).
    - cbn [Nat.ltb Nat.leb]. rewrite lookup_fmap.
      destruct (field_success_counts acc !! field) as [count|]; cbn.
      + split; [by intros [= <-]|]. intros ([= ->] & Htotal & _). destruct row. cbn in *.
        by subst.
      + split; [discriminate|]. by intros [? _]. }
  split.
  - rewrite <- extractions_positive, <- Hcount, <- (counts_positive_lookup _ _ Hpos). split.
    + intros [row Hlook]. apply Hrow in Hlook as [Hlook _]. by eexists.
    + intros [count Hlook].
      exists {| success_count := count; total_items := items_count acc |}. apply Hrow.
      split; [done|]. split; [done|]. intros Hzero.
      rewrite (Hok Hzero), lookup_empty in Hlook. discriminate.
  - intros row Hlook. apply Hrow in Hlook as [Hlook _].
    rewrite <- Hcount. unfold count_of. rewrite Hlook. cbn. split; [done|].
    by eapply Hpos.
Qed.


End Rows.

(** ** [batch_convert] *)

Section Batch_convert_properties.
Variable json_size : parsed → nat.
Variable max_items_per_file : Z.
Variable max_file_size_gb : Z.
Abbreviation max_size_bytes := (max_file_size_gb * 1024 * 1024 * 1024)%Z.
Abbreviation process_year := (process_year json_size max_items_per_file max_size_bytes).
Abbreviation run := (run json_size max_items_per_file max_size_bytes).
Abbreviation batch_convert := (batch_convert json_size max_items_per_file max_file_size_gb).

(** What a year hands back. *)
Lemma process_year_returns events :
  let out := process_year events in
  yr_failed_files out = failures (consumed events)
  ∧ yr_data out =
      match events with
      | [] => None
      | _ => Some (report_of (year_acc (run (consumed events))), missing_of (consumed events))
      end.
Proof.
  cbv zeta.
  destruct (process_year_cases json_size max_items_per_file max_size_bytes events)
    as [[-> ->]|[(Hne & _ & ->)|(Hne & d & -> & _)]]; cbv zeta; cbn [yr_failed_files yr_data].
  - done.
  - destruct (seal_last_chunk_fields (run (consumed events))) as (_ & _ & -> & -> & ->).
    destruct (run_counters json_size max_items_per_file max_size_bytes (consumed events))
      as (_ & -> & _ & _ & _ & ->).
    by destruct events.
  - destruct (run_counters json_size max_items_per_file max_size_bytes (consumed events))
      as (_ & -> & _ & _ & _ & ->).
    by destruct events.
Qed.

Lemma fold_add_year_lists results st :
  let st' := fold_left add_year results st in
  all_failed_files_reports st'
  = all_failed_files_reports st ++ flat_map yr_failed_files results
  ∧ grand_missing_item_reports_list st'
    = grand_missing_item_reports_list st
      ++ flat_map (λ yr, match yr_data yr with Some (_, missing) => missing | None => [] end)
           results.
Proof.
  revert st. induction results as [|yr results IH]; intros st; cbn [fold_left flat_map].
  { by rewrite !app_nil_r. }
  destruct (IH (add_year st yr)) as [-> ->]. cbn [add_year all_failed_files_reports
    grand_missing_item_reports_list]. rewrite <- !app_assoc. split; [done|].
  destruct (yr_data yr) as [[report missing]|]; cbn [app]; [|done].
  by rewrite <- app_assoc.
Qed.

Lemma flat_map_map {A B C} (f : A → B) (g : B → list C) (l : list A) :
  flat_map g (map f l) = flat_map (λ x, g (f x)) l.
Proof. induction l as [|x l IH]; [done|]. cbn. by rewrite IH. Qed.

Lemma missing_of_no_record results :
  (∀ res, res ∈ results → carried res = None) → missing_of results = [].
Proof.
  unfold missing_of. induction results as [|res results IH]; intros Hnone; [done|].
  cbn [flat_map]. rewrite (Hnone res) by apply list_elem_of_here.
  apply IH. intros res' Hin. apply Hnone. by apply list_elem_of_further.
Qed.

Lemma no_record_no_missing (years : list (list event)) :
  (∀ events res, events ∈ years → res ∈ consumed events → carried res = None) →
  flat_map (λ events, missing_of (consumed events)) years = [].
Proof.
  induction years as [|events years IH]; intros Hnone; [done|]. cbn [flat_map].
  rewrite IH by (intros events' res Hin; apply Hnone; by apply list_elem_of_further).
  rewrite app_nil_r. apply missing_of_no_record. intros res. apply Hnone.
  apply list_elem_of_here.
Qed.

(** X23.  How [batch_convert] ends.  When the years handed back no missing-item
    report, the summary line reads a name that was never bound: the
    statistics file is the only file written and [batch_convert] is left by
    the exception, so the log of failed files is not written, whatever
    failed.  That is the case in particular when no result of any year
    carries a record.  Otherwise the statistics file, the missing-item file
    and, when a file failed, the log of all failed files are written, the
    last two holding the years' lists in the order of the years. *)
Theorem batch_convert_ends years :
  let out := batch_convert true years in
  let missing := flat_map (λ events, missing_of (consumed events)) years in
  let failed := flat_map (λ events, failures (consumed events)) years in
  (missing = [] →
     bc_raised out = Some "UnboundLocalError"
     ∧ ∃ report, bc_overall out = [OverallStats report])
  ∧ (missing ≠ [] →
     bc_raised out = None
     ∧ ∃ report,
         bc_overall out =
           [OverallStats report; OverallMissing missing]
           ++ match failed with [] => [] | _ => [OverallFailures failed] end)
  ∧ ((∀ events res, events ∈ years → res ∈ consumed events → carried res = None) →
     missing = []).
Proof.
  cbv zeta. unfold batch_convert. cbn [negb].
  set (results := map _ years).
  destruct (fold_add_year_lists results initial_grand) as [Hfailed Hmissing].
  cbv zeta in Hfailed, Hmissing. cbn [initial_grand all_failed_files_reports
    grand_missing_item_reports_list app] in Hfailed, Hmissing.
  assert (flat_map yr_failed_files results
          = flat_map (λ events, failures (consumed events)) years) as Hf.
  { subst results. rewrite flat_map_map. apply flat_map_ext. intros events.
    by destruct (process_year_returns events) as [-> _]. }
  assert (flat_map (λ yr, match yr_data yr with Some (_, missing) => missing | None => [] end)
            results
          = flat_map (λ events, missing_of (consumed events)) years) as Hm.
  { subst results. rewrite flat_map_map. apply flat_map_ext. intros events.
    destruct (process_year_returns events) as [_ ->]. by destruct events. }
  rewrite Hf in Hfailed. rewrite Hm in Hmissing. rewrite Hmissing, Hfailed.
  split; [|split].
  - intros ->. split; [done|]. by eexists.
  - intros Hne.
    destruct (flat_map (λ events, missing_of (consumed events)) years); [done|].
    split; [done|]. by eexists.
  - apply no_record_no_missing.
Qed.

Lemma count_of_add_rows rows counts field :
  field ≠ "" →
  count_of (add_rows rows counts) field
  = count_of counts field
    + match rows !! field with Some row => success_count row | None => 0 end.
Proof.
  intros Hfield. unfold count_of, add_rows.
  rewrite lookup_union_with, lookup_fmap, map_lookup_filter.
  destruct (counts !! field) as [count|], (rows !! field) as [row|]; cbn;
    rewrite ?option_guard_True by done; cbn; lia.
Qed.

Lemma add_rows_empty : add_rows ∅ ∅ = ∅.
Proof.
  apply map_eq. intros field. unfold add_rows.
  by rewrite lookup_union_with, lookup_fmap, map_lookup_filter, !lookup_empty.
Qed.

Lemma report_wf_report_of acc :
  special_ok (kind_A acc) (desc_fallback acc) → report_wf (report_of acc).
Proof.
  intros Hok. split; [|by apply special_ok_report_of].
  unfold report_of, generate_stats_dict.
  cbn [total_processed_items field_extraction_success_rate]. by intros ->.
Qed.

Lemma grand_ok_add_report acc report :
  grand_ok acc → report_wf report → grand_ok (add_report acc report).
Proof.
  intros [Hacc (Hn & Hd & Hf)] [Hrows (Hn' & Hd' & Hf')]. split.
  - intros Hitems. cbn in Hitems. cbn [add_report field_success_counts].
    rewrite Hacc, Hrows by lia. apply add_rows_empty.
  - unfold special_ok, add_report, report_kind_A, report_desc_fallback in *.
    cbn [kind_A desc_fallback].
    destruct (kind_A_special_stats report), (description_fallback_stats report);
      cbn in *; repeat split; lia.
Qed.

Lemma year_reports_cons yr results :
  year_reports (yr :: results)
  = match yr_data yr with Some (report, _) => [report] | None => [] end
    ++ year_reports results.
Proof. unfold year_reports. cbn. by destruct (yr_data yr) as [[report missing]|]. Qed.

(** A quantity every year report adds to. *)
Lemma fold_add_year_measure (μ : accumulator → nat) (ν : stats_report → nat) :
  (∀ acc report, μ (add_report acc report) = μ acc + ν report) →
  ∀ results st,
    μ (grand (fold_left add_year results st))
    = μ (grand st) + sum_list_with ν (year_reports results).
Proof.
  intros Hadd results. induction results as [|yr results IH]; intros st; [cbn; lia|].
  cbn [fold_left]. rewrite IH, year_reports_cons, sum_list_with_app. cbn [add_year grand].
  destruct (yr_data yr) as [[report missing]|]; cbn [sum_list_with]; rewrite ?Hadd; lia.
Qed.

Lemma fold_add_year_ok results st :
  grand_ok (grand st) → Forall report_wf (year_reports results) →
  grand_ok (grand (fold_left add_year results st)).
Proof.
  revert st. induction results as [|yr results IH]; intros st Hst Hwf; [done|].
  cbn [fold_left]. rewrite year_reports_cons in Hwf. apply Forall_app in Hwf as [Hyr Hwf].
  apply IH; [|done]. cbn [add_year grand].
  destruct (yr_data yr) as [[report missing]|]; [|done].
  apply grand_ok_add_report; [done|]. by rewrite Forall_singleton in Hyr.
Qed.

Lemma year_reports_wf (years : list (list event)) :
  Forall report_wf (year_reports (map process_year years)).
Proof.
  induction years as [|events years IH]; [constructor|].
  cbn [map]. rewrite year_reports_cons. apply Forall_app. split; [|done].
  destruct (process_year_returns events) as [_ ->].
  destruct events; [constructor|]. apply Forall_singleton, report_wf_report_of.
  apply (run_special_ok json_size max_items_per_file max_size_bytes).
Qed.

Ltac overall_side :=
  let acc := fresh "acc" in
  let Hpos := fresh "Hpos" in
  intros acc [_ (? & ? & ?)];
  unfold report_kind_A, report_desc_fallback, report_of, generate_stats_dict;
  cbn [kind_A_special_stats description_fallback_stats];
  match goal with |- context [(0 <? ?t)%nat] => destruct (0 <? t)%nat eqn:Hpos end;
  cbn; [done|apply Nat.ltb_ge in Hpos; lia].

Ltac year_side :=
  let acc := fresh "acc" in
  let report := fresh "report" in
  intros acc report; unfold report_kind_A, report_desc_fallback, add_report;
  cbn [kind_A desc_fallback];
  destruct (kind_A_special_stats report), (description_fallback_stats report); cbn; lia.

(** X24.  The overall statistics file is written first, whatever happens later,
    and its report is the sum of the reports the years handed back, the
    interrupted years included: the number of items, the success count of
    every field, and the counts of the two special blocks (a message block
    counting as zero). *)
Theorem overall_report_sums_the_years years :
  let out := batch_convert true years in
  let reports := year_reports (bc_years out) in
  ∃ report,
    head (bc_overall out) = Some (OverallStats report)
    ∧ total_processed_items report = sum_list_with total_processed_items reports
    ∧ (∀ field, field ≠ "" →
         report_success_count report field = sum_of_reports reports field)
    ∧ total_A_items (report_kind_A report)
      = sum_list_with (λ r, total_A_items (report_kind_A r)) reports
    ∧ OpenNumber_success (report_kind_A report)
      = sum_list_with (λ r, OpenNumber_success (report_kind_A r)) reports
    ∧ OpenDate_success (report_kind_A report)
      = sum_list_with (λ r, OpenDate_success (report_kind_A r)) reports
    ∧ total_partial_missing_items (report_desc_fallback report)
      = sum_list_with (λ r, total_partial_missing_items (report_desc_fallback r)) reports
    ∧ Description_success_when_partial_missing (report_desc_fallback report)
      = sum_list_with (λ r, Description_success_when_partial_missing (report_desc_fallback r))
          reports.
Proof.
  cbv zeta. unfold batch_convert. cbn [negb].
  set (results := map _ years).
  set (st := fold_left add_year results initial_grand).
  assert (grand_ok (grand st)) as Hok.
  { apply fold_add_year_ok; [|apply year_reports_wf]. split; [apply acc_ok_empty|].
    by repeat split. }
  assert (∀ (μ : accumulator → nat) (ν : stats_report → nat),
            μ empty_accumulator = 0 →
            (∀ acc report, μ (add_report acc report) = μ acc + ν report) →
            (∀ acc, grand_ok acc → ν (report_of acc) = μ acc) →
            ν (report_of (grand st)) = sum_list_with ν (year_reports results)) as Hsum.
  { intros μ ν H1 H2 H3. rewrite H3 by done. subst st.
    rewrite (fold_add_year_measure μ ν H2). cbn [initial_grand grand]. lia. }
  exists (report_of (grand st)).
  assert (∀ results' : list year_result,
            bc_years (match grand_missing_item_reports_list st with
                      | [] => {| bc_years := results'; bc_overall := [OverallStats (report_of (grand st))];
                                 bc_raised := Some "UnboundLocalError" |}
                      | _ :: _ => {| bc_years := results';
                                     bc_overall :=
                                       [OverallStats (report_of (grand st));
                                        OverallMissing (grand_missing_item_reports_list st)]
                                       ++ match all_failed_files_reports st with
                                          | [] => []
                                          | _ :: _ => [OverallFailures (all_failed_files_reports st)]
                                          end;
                                     bc_raised := None |}
                      end) = results') as Hyears
    by (intros results'; by destruct (grand_missing_item_reports_list st)).
  rewrite Hyears.
  split; [by destruct (grand_missing_item_reports_list st)|].
  split; [|split; [|split; [|split; [|split; [|split]]]]].
  - by apply (Hsum items_count total_processed_items).
  - intros field Hfield.
    apply (Hsum (λ acc, count_of (field_success_counts acc) field)
             (λ r, report_success_count r field)).
    + unfold count_of. cbn. by rewrite lookup_empty.
    + intros acc report. cbn [add_report field_success_counts].
      by rewrite count_of_add_rows.
    + intros acc [Hacc _]. by apply report_success_count_report_of.
  - apply (Hsum (λ acc, total_A_items (kind_A acc)) (λ r, total_A_items (report_kind_A r)));
      [done|year_side|overall_side].
  - apply (Hsum (λ acc, OpenNumber_success (kind_A acc))
             (λ r, OpenNumber_success (report_kind_A r))); [done|year_side|overall_side].
  - apply (Hsum (λ acc, OpenDate_success (kind_A acc))
             (λ r, OpenDate_success (report_kind_A r))); [done|year_side|overall_side].
  - apply (Hsum (λ acc, total_partial_missing_items (desc_fallback acc))
             (λ r, total_partial_missing_items (report_desc_fallback r)));
      [done|year_side|overall_side].
  - apply (Hsum (λ acc, Description_success_when_partial_missing (desc_fallback acc))
             (λ r, Description_success_when_partial_missing (report_desc_fallback r)));
      [done|year_side|overall_side].
Qed.

End Batch_convert_properties.

(** ** [strip_prefix] *)

Lemma after_last_colon_plain k : contains ":" (after_last_colon k) = false.
Proof.
  induction k as [|c k IH]; [done|]. cbn [after_last_colon].
  by destruct (contains ":" (String c k)) eqn:Hc.
Qed.

Lemma after_last_colon_id k : contains ":" k = false → after_last_colon k = k.
Proof. destruct k as [|c k]; [done|]. cbn [after_last_colon]. by intros ->. Qed.

Lemma dict_set_new d k v : k ∉ d.*1 → dict_set d k v = d ++ [(k, v)].
Proof.
  induction d as [|[k' v'] d IH]; [done|]. cbn [fmap list_fmap fst dict_set app].
  rewrite not_elem_of_cons. intros [Hne Hnot].
  destruct (String.eqb_spec k' k); [congruence|]. by rewrite IH.
Qed.

Lemma dict_set_keys d k v :
  (dict_set d k v).*1 = if bool_decide (k ∈ d.*1) then d.*1 else d.*1 ++ [k].
Proof.
  induction d as [|[k' v'] d IH]; [done|]. cbn [fmap list_fmap fst dict_set].
  destruct (String.eqb_spec k' k) as [->|Hne].
  - rewrite bool_decide_eq_true_2 by apply list_elem_of_here. done.
  - cbn [fmap list_fmap fst]. fold (fmap (M:=list) (@fst string value)). rewrite IH.
    destruct (bool_decide (k ∈ d.*1)) eqn:Hin.
    + apply bool_decide_eq_true in Hin.
      rewrite bool_decide_eq_true_2 by (by apply list_elem_of_further). done.
    + apply bool_decide_eq_false in Hin.
      rewrite bool_decide_eq_false_2; [done|].
      rewrite not_elem_of_cons. by split.
Qed.

Lemma dict_set_NoDup d k v : NoDup d.*1 → NoDup (dict_set d k v).*1.
Proof.
  intros Hnd. rewrite dict_set_keys. destruct (bool_decide (k ∈ d.*1)) eqn:Hin; [done|].
  apply bool_decide_eq_false in Hin. apply NoDup_app. split; [done|]. split.
  - intros x Hx Hk. apply list_elem_of_singleton in Hk as ->. done.
  - apply NoDup_singleton.
Qed.

Lemma dict_set_Forall (Q : string * value → Prop) d k v :
  Forall Q d → Q (k, v) → (∀ k' v', Q (k', v') → k' = k → Q (k', v)) →
  Forall Q (dict_set d k v).
Proof.
  intros Hd Hkv Hsame. induction Hd as [|[k' v'] d Hx Hd IH]; [by repeat constructor|].
  cbn [dict_set]. destruct (String.eqb_spec k' k) as [->|Hne].
  - constructor; [|done]. by eapply Hsame.
  - by constructor.
Qed.

Lemma fold_dict_set_plain (l d : list (string * value)) :
  let Q := λ kv : string * value, contains ":" kv.1 = false ∧ plain_keys kv.2 in
  NoDup d.*1 → Forall Q d → Forall Q l →
  let d' := fold_left (λ d (kv : string * value), dict_set d kv.1 kv.2) l d in
  NoDup d'.*1 ∧ Forall Q d'.
Proof.
  cbv zeta. revert d. induction l as [|[k v] l IH]; intros d Hnd Hd Hl; [done|].
  apply Forall_cons in Hl as [Hkv Hl]. cbn [fold_left fst snd]. apply IH; [|  |done].
  - by apply dict_set_NoDup.
  - apply dict_set_Forall; [done|done|]. intros k' v' [Hk' _] ->. exact Hkv.
Qed.

Lemma fold_dict_set_id (l d : list (string * value)) :
  NoDup (d ++ l).*1 →
  fold_left (λ d (kv : string * value), dict_set d kv.1 kv.2) l d = d ++ l.
Proof.
  revert d. induction l as [|[k v] l IH]; intros d Hnd; [by rewrite app_nil_r|].
  cbn [fold_left fst snd]. rewrite dict_set_new.
  - rewrite IH; rewrite <- app_assoc; done.
  - rewrite fmap_app in Hnd. apply NoDup_app in Hnd as (_ & Hdisj & _).
    intros Hin. apply (Hdisj k Hin). apply list_elem_of_here.
Qed.

Lemma strip_prefix_plain obj : plain_keys (strip_prefix obj).
Proof.
  induction obj as [|s|items IH|elems IH] using value_ind'; cbn [strip_prefix];
    try constructor.
  - apply (fold_dict_set_plain _ []); [constructor|constructor|].
    induction IH as [|[k v] items Hv _ IHitems]; [constructor|].
    cbn [map]. constructor; [|done]. split; [apply after_last_colon_plain|done].
  - apply (fold_dict_set_plain _ []); [constructor|constructor|].
    induction IH as [|[k v] items Hv _ IHitems]; [constructor|].
    cbn [map]. constructor; [|done]. split; [apply after_last_colon_plain|done].
  - induction IH as [|v elems Hv _ IHelems]; [constructor|]. by constructor.
Qed.

Lemma strip_prefix_id obj : plain_keys obj → strip_prefix obj = obj.
Proof.
  induction obj as [|s|items IH|elems IH] using value_ind'; try done.
  - intros Hplain. inversion Hplain as [| |items' Hnd Hitems|]; subst.
    cbn [strip_prefix].
    assert (map (λ kv : string * value, (after_last_colon kv.1, strip_prefix kv.2)) items
            = items) as ->.
    { clear Hnd Hplain. induction IH as [|[k v] items Hv _ IHitems]; [done|].
      apply Forall_cons in Hitems as [[Hk Hp] Hitems]. cbn [map fst snd] in *.
      by rewrite after_last_colon_id, Hv, IHitems. }
    by rewrite (fold_dict_set_id items []).
  - intros Hplain. inversion Hplain as [| | |elems' Helems]; subst.
    cbn [strip_prefix]. f_equal.
    induction IH as [|v elems Hv _ IHelems]; [done|].
    apply Forall_cons in Helems as [Hp Helems]. cbn [map].
    rewrite Hv, IHelems; try done. by constructor.
Qed.

(** X25.  After [strip_prefix] no key of any map carries a namespace prefix and
    the keys of every map are pairwise distinct; a document that is
    already so is returned unchanged, so stripping twice is stripping
    once. *)
Theorem strip_prefix_normal_form obj :
  plain_keys (strip_prefix obj)
  ∧ (plain_keys obj → strip_prefix obj = obj)
  ∧ strip_prefix (strip_prefix obj) = strip_prefix obj.
Proof.
  split; [apply strip_prefix_plain|]. split; [apply strip_prefix_id|].
  apply strip_prefix_id, strip_prefix_plain.
Qed.

(** ** [safe_get] on a value without the key *)

(** X26.  When no map of [obj], at any depth, holds [key], [safe_get] returns
    null; in particular for an [obj] that is a string. *)
Theorem safe_get_absent_key obj key :
  (∀ p items, node_at obj p = Some (VDict items) → dict_get items key = None) →
  safe_get obj key = VNone.
Proof.
  intros Habsent. destruct (decide (is_none obj = true)) as [Hnone|Hsome].
  { by destruct obj. }
  assert (obj ≠ VNone) as Hobj by (by destruct obj).
  destruct (safe_get_deep obj key Hobj) as (results & _ & Hperm & ->).
  { intros items ->. by apply (Habsent []). }
  assert (matches key obj = []) as Hnil.
  { rewrite <- flat_map_own_at_container_paths.
    induction (container_paths obj) as [|p ps IH]; [done|]. cbn [flat_map].
    rewrite IH, app_nil_r. unfold own_at.
    destruct (node_at obj p) as [[| |items|]|] eqn:Hnode; try done.
    unfold own_results. specialize (Habsent p items Hnode).
    destruct (dict_find items key) as [[i w]|] eqn:Hfind; [|done].
    assert (dict_get items key = Some w) as Hget by (apply dict_get_find; eauto).
    congruence. }
  rewrite Hnil in Hperm. apply Permutation_nil_r in Hperm. by subst.
Qed.

(** ** [compare_folder.py] *)

Lemma lookup_unique_to_folder1 (files_in_folder1 files_in_folder2 : gmap string nat) filename :
  unique_to_folder1_or_diff_size files_in_folder1 files_in_folder2 !! filename = None
  ↔ (∀ size1, files_in_folder1 !! filename = Some size1 →
       files_in_folder2 !! filename = Some size1).
Proof.
  unfold unique_to_folder1_or_diff_size. rewrite map_lookup_imap.
  destruct (files_in_folder1 !! filename) as [size1|]; cbn; [|done].
  destruct (files_in_folder2 !! filename) as [size2|]; cbn.
  - destruct (decide (size2 = size1)) as [->|Hne]; [done|].
    split; [done|]. intros Hsame. specialize (Hsame size1 eq_refl). congruence.
  - split; [done|]. intros Hsame. by specialize (Hsame size1 eq_refl).
Qed.

Lemma lookup_unique_to_folder2 (files_in_folder1 files_in_folder2 : gmap string nat) filename :
  unique_to_folder2 files_in_folder1 files_in_folder2 !! filename = None
  ↔ (is_Some (files_in_folder2 !! filename) → is_Some (files_in_folder1 !! filename)).
Proof.
  unfold unique_to_folder2. rewrite map_lookup_imap.
  destruct (files_in_folder2 !! filename) as [size2|]; cbn.
  - destruct (files_in_folder1 !! filename) as [size1|]; cbn.
    + split; [by eauto|done].
    + split; [done|]. intros Hsome. by destruct (Hsome ltac:(eauto)).
  - split; [|done]. by intros _ [? ?].
Qed.

(** X27.  The verdict "all files match" is given exactly when the two scans are
    the same map of names to sizes.  Every file of the first folder is in
    exactly one of the two reports [matching_files] and
    [unique_to_folder1_or_diff_size], and [unique_to_folder2] lists the
    names the first folder lacks. *)
Theorem compare_folder_verdict (files_in_folder1 files_in_folder2 : gmap string nat) :
  (folders_match files_in_folder1 files_in_folder2 = true
     ↔ files_in_folder1 = files_in_folder2)
  ∧ (∀ filename,
       is_Some (files_in_folder1 !! filename)
       ↔ (is_Some (matching_files files_in_folder1 files_in_folder2 !! filename)
          ∨ is_Some (unique_to_folder1_or_diff_size files_in_folder1 files_in_folder2
                       !! filename)))
  ∧ (∀ filename,
       ¬ (is_Some (matching_files files_in_folder1 files_in_folder2 !! filename)
          ∧ is_Some (unique_to_folder1_or_diff_size files_in_folder1 files_in_folder2
                       !! filename)))
  ∧ (∀ filename,
       is_Some (unique_to_folder2 files_in_folder1 files_in_folder2 !! filename)
       ↔ (is_Some (files_in_folder2 !! filename) ∧ files_in_folder1 !! filename = None)).
Proof.
  split; [|split; [|split]].
  - unfold folders_match. rewrite bool_decide_eq_true, !map_size_empty_iff. split.
    + intros [H1 H2]. apply map_eq. intros filename.
      pose proof (proj1 (lookup_unique_to_folder1 files_in_folder1 files_in_folder2
                           filename)) as Hone.
      rewrite H1, lookup_empty in Hone. specialize (Hone eq_refl).
      pose proof (proj1 (lookup_unique_to_folder2 files_in_folder1 files_in_folder2
                           filename)) as Htwo.
      rewrite H2, lookup_empty in Htwo. specialize (Htwo eq_refl).
      destruct (files_in_folder1 !! filename) as [size1|] eqn:Hf1.
      * by rewrite (Hone size1 eq_refl).
      * destruct (files_in_folder2 !! filename) as [size2|]; [|done].
        by destruct (Htwo ltac:(eauto)).
    + intros ->. split; apply map_eq; intros filename; rewrite lookup_empty.
      * by apply lookup_unique_to_folder1.
      * by apply lookup_unique_to_folder2.
  - intros filename. unfold matching_files, unique_to_folder1_or_diff_size.
    rewrite map_lookup_filter, map_lookup_imap.
    destruct (files_in_folder1 !! filename) as [size1|]; cbn.
    2: { split; [by intros [? ?]|]. by intros [[? ?]|[? ?]]. }
    split; [|by eauto]. intros _.
    destruct (files_in_folder2 !! filename) as [size2|] eqn:Hf2; cbn.
    + destruct (decide (size2 = size1)) as [->|Hne].
      * left. rewrite option_guard_True by done. by eexists.
      * right. by eexists.
    + right. by eexists.
  - intros filename. unfold matching_files, unique_to_folder1_or_diff_size.
    rewrite map_lookup_filter, map_lookup_imap.
    destruct (files_in_folder1 !! filename) as [size1|]; cbn; [|by intros [[? ?] _]].
    destruct (files_in_folder2 !! filename) as [size2|] eqn:Hf2; cbn.
    + destruct (decide (size2 = size1)) as [->|Hne].
      * by intros [_ [? ?]].
      * rewrite option_guard_False by congruence. by intros [[? ?] _].
    + rewrite option_guard_False by done. by intros [[? ?] _].
  - intros filename. unfold unique_to_folder2. rewrite map_lookup_imap.
    destruct (files_in_folder2 !! filename) as [size2|]; cbn.
    + destruct (files_in_folder1 !! filename) as [size1|]; cbn.
      * split; [by intros [? ?]|]. by intros [_ ?].
      * split; [by eauto|]. by eauto.
    + split; [by intros [? ?]|]. by intros [[? ?] _].
Qed.


(** ** From the files to the reports *)

Section Pipeline.
Context `{PyBuiltins} `{PartyExtractors}.
Variable json_size : parsed → nat.
Variable max_items_per_file : Z.
Variable max_file_size_gb : Z.
Abbreviation max_size_bytes := (max_file_size_gb * 1024 * 1024 * 1024)%Z.
Abbreviation process_year := (process_year json_size max_items_per_file max_size_bytes).
Abbreviation run := (run json_size max_items_per_file max_size_bytes).
Abbreviation batch_convert := (batch_convert json_size max_items_per_file max_file_size_gb).

Lemma NoDup_field_names : NoDup field_names.
Proof. apply (bool_decide_unpack _). vm_compute. reflexivity. Qed.

Lemma process_xml_file_carried now file_path xml :
  let res := process_xml_file now file_path xml in
  status_ok res
  ∧ ((carried res = None ∧ fr_parsed_data res = None
      ∧ text_truthy (fr_error res) = true)
     ∨ (∃ r m, carried res = Some r ∧ fr_parsed_data res = Some r
               ∧ text_truthy (fr_error res) = false ∧ fr_missing_details res = Some m)).
Proof.
  cbv zeta. unfold status_ok, carried.
  destruct (process_xml_file_shape now file_path xml)
    as [_ [(e & -> & He & -> & -> & _)|(r & m & -> & -> & _ & -> & _ & -> & _)]].
  - split; [constructor|]. left. cbn. by destruct (String.eqb_spec e "").
  - split; [apply NoDup_field_names|]. right. by exists r, m.
Qed.

Lemma process_xml_file_summary now file_path xml :
  ("SummaryOfInvention", true) ∉ fr_extraction_status (process_xml_file now file_path xml).
Proof.
  unfold process_xml_file.
  destruct xml as [|e|data]; try (intros Hin; by apply elem_of_nil in Hin).
  destruct (dispatch data) as [[r|]|e] eqn:Hd; try (intros Hin; by apply elem_of_nil in Hin).
  set (r' := update_meta r _). cbn [fr_extraction_status].
  assert (SummaryOfInvention r' = VNone) as Hnone
    by exact (dispatch_summary_of_invention data r Hd).
  unfold extraction_status_of. rewrite list_elem_of_fmap.
  intros ([f v] & [= <- Hv] & Hin).
  assert (∀ w, ("SummaryOfInvention", w) ∈ parsed_items r' → w = SummaryOfInvention r')
    as Hone by only_binding.
  cbn [fst snd] in Hv. by rewrite (Hone v Hin), Hnone in Hv.
Qed.

Lemma failures_cons res results :
  failures (res :: results)
  = (if text_truthy (fr_error res)
     then [(fr_file_path res, default "" (fr_error res))] else [])
    ++ failures results.
Proof. unfold failures. cbn. by destruct (text_truthy (fr_error res)). Qed.

Lemma omap_cons_list {A B} (f : A → option B) (x : A) (l : list A) :
  omap f (x :: l) = option_list (f x) ++ omap f l.
Proof. cbn. by destruct (f x). Qed.

Lemma results_of_counts files :
  let results := results_of files in
  Forall status_ok results
  ∧ length (omap carried results) + length (failures results) = length files
  ∧ length (missing_of results) = length (omap carried results)
  ∧ (missing_of results = [] ↔ ∀ res, res ∈ results → fr_parsed_data res = None).
Proof.
  cbv zeta. unfold results_of.
  induction files as [|[[now file_path] xml] files (IHok & IHlen & IHmissing & IHnil)].
  { split; [constructor|]. split; [done|]. split; [done|]. split; [|done].
    intros _ res Hin. by apply elem_of_nil in Hin. }
  cbn [map fst snd].
  set (res := process_xml_file now file_path xml).
  set (results := map _ files) in *.
  rewrite failures_cons, omap_cons_list, !length_app.
  change (missing_of (res :: results))
    with (match carried res with
          | Some _ => option_list (fr_missing_details res)
          | None => []
          end ++ missing_of results).
  destruct (process_xml_file_carried now file_path xml)
    as [Hok [(Hc & Hdata & Herr)|(r & m & Hc & Hdata & Herr & Hm)]]; cbv zeta in *;
    fold res in Hok, Hc, Hdata, Herr.
  - rewrite Hc, Herr. unfold option_list. cbn [option_rect length app].
    split; [by constructor|]. split; [lia|]. split; [done|].
    rewrite IHnil. split.
    + intros Hall res'. rewrite elem_of_cons. intros [->|Hin]; [done|by apply Hall].
    + intros Hall res' Hin. apply Hall. by apply list_elem_of_further.
  - fold res in Hm. rewrite Hc, Herr, Hm. unfold option_list. cbn [option_rect length app].
    split; [by constructor|]. split; [lia|]. split; [lia|]. split; [done|].
    intros Hall. specialize (Hall _ (list_elem_of_here _ _)). congruence.
Qed.

(** X28.  For the results of [process_xml_file], every success is a parsed
    document and every parsed document has a missing-field report: the
    year's count of successes, the number of items of its report and the
    length of its missing-item list are the same number, and with the
    failures they account for every file; no status names a field twice;
    and the report has no row for [SummaryOfInvention], which no document
    ever fills. *)
Theorem parsed_documents_fill_the_missing_list files :
  let results := results_of files in
  let out := process_year (map Completed results) in
  Forall status_ok results
  ∧ yr_success out + yr_fail out = length files
  ∧ ∀ report missing,
      yr_data out = Some (report, missing) →
      total_processed_items report = yr_success out
      ∧ length missing = yr_success out
      ∧ field_extraction_success_rate report !! "SummaryOfInvention" = None.
Proof.
  cbv zeta. destruct (results_of_counts files) as (Hok & Hlen & Hmissing & _).
  cbv zeta in *. split; [done|].
  assert (length (results_of files) = length files) as Hfiles
    by (unfold results_of; by rewrite length_map).
  assert (∀ report missing,
            yr_data (process_year (map Completed (results_of files)))
            = Some (report, missing) →
            field_extraction_success_rate report !! "SummaryOfInvention" = None) as Hrow.
  { intros report missing Hdata.
    destruct (rows_of_year json_size max_items_per_file max_size_bytes _ _ _ Hdata
                "SummaryOfInvention") as [Hsome _].
    destruct (field_extraction_success_rate report !! "SummaryOfInvention") as [row|];
      [|done].
    destruct (proj1 Hsome ltac:(eauto)) as (res & parsed_data & Hin & _ & Hstatus).
    rewrite consumed_completed in Hin. unfold results_of in Hin.
    apply list_elem_of_fmap in Hin as ([[now file_path] xml] & -> & _).
    by apply process_xml_file_summary in Hstatus. }
  destruct files as [|f files].
  { split; [done|]. discriminate. }
  assert (results_of (f :: files) ≠ []) as Hne by done.
  set (results := results_of (f :: files)) in *.
  split.
  { rewrite process_year_completed by done. cbn [yr_success yr_fail].
    destruct (seal_last_chunk_fields (run results)) as (-> & -> & _).
    destruct (run_counters json_size max_items_per_file max_size_bytes results)
      as (Hsum & _). cbv zeta in Hsum. lia. }
  intros report missing Hdata. split; [|split; [|by eapply Hrow]];
    revert Hdata; rewrite process_year_completed by done;
    cbn [yr_success yr_fail yr_data];
    destruct (seal_last_chunk_fields (run results)) as (Hs & _ & _ & Ha & Hl);
    destruct (run_counters json_size max_items_per_file max_size_bytes results)
      as (Hsum & Hfailed & Hfail & Hitems & Hle & Hm); cbv zeta in *;
    rewrite Hs, Ha, Hl;
    intros [= <- <-]; cbn [total_processed_items report_of generate_stats_dict];
    rewrite ?Hm, ?Hmissing, ?Hitems; rewrite Hfail, Hfailed in Hsum; lia.
Qed.

Lemma batch_convert_raised years :
  bc_raised (batch_convert true years)
  = match flat_map (λ events, missing_of (consumed events)) years with
    | [] => Some "UnboundLocalError"
    | _ => None
    end.
Proof.
  unfold batch_convert. cbn [negb].
  set (results := map _ years).
  destruct (fold_add_year_lists results initial_grand) as [_ Hmissing].
  cbv zeta in Hmissing.
  cbn [initial_grand grand_missing_item_reports_list app] in Hmissing.
  assert (flat_map (λ yr, match yr_data yr with Some (_, missing) => missing | None => [] end)
            results
          = flat_map (λ events, missing_of (consumed events)) years) as Hm.
  { subst results. rewrite flat_map_map. apply flat_map_ext. intros events.
    destruct (process_year_returns json_size max_items_per_file max_file_size_gb events)
      as [_ ->].
    by destruct events. }
  rewrite Hm in Hmissing. rewrite Hmissing.
  by destruct (flat_map (λ events, missing_of (consumed events)) years).
Qed.

(** X29.  A batch over the results of [process_xml_file] ends normally exactly
    when at least one file of some year was parsed; when every file of
    every year failed, it is left by the exception (and the log of the
    failed files is not written). *)
Theorem batch_needs_a_parsed_document (years : list (list (string * string * loaded))) :
  let out := batch_convert true (map (λ files, map Completed (results_of files)) years) in
  (bc_raised out = None
     ↔ ∃ files res, files ∈ years ∧ res ∈ results_of files ∧ is_Some (fr_parsed_data res))
  ∧ (bc_raised out ≠ None → ∀ entries, OverallFailures entries ∉ bc_overall out).
Proof.
  cbv zeta. split.
  - rewrite batch_convert_raised, flat_map_map.
    induction years as [|files years IH]; cbn [flat_map].
    { split; [discriminate|]. intros (files & res & Hin & _). by apply elem_of_nil in Hin. }
    rewrite consumed_completed.
    destruct (results_of_counts files) as (_ & _ & _ & Hnil). cbv zeta in Hnil.
    destruct (missing_of (results_of files)) as [|m ms] eqn:Hmissing.
    + cbn [app]. rewrite IH. split.
      * intros (files' & res & Hin & Hres). exists files', res.
        split; [by apply list_elem_of_further|done].
      * intros (files' & res & Hin & Hres & Hsome).
        apply elem_of_cons in Hin as [->|Hin]; [|by eauto].
        rewrite (proj1 Hnil eq_refl res Hres) in Hsome. by destruct Hsome.
    + split; [|done]. intros _.
      destruct (decide (Forall (λ res, fr_parsed_data res = None) (results_of files)))
        as [Hall|Hsome].
      * rewrite Forall_forall in Hall. by apply Hnil in Hall.
      * apply not_Forall_Exists in Hsome; [|intros res; destruct (fr_parsed_data res);
                                             [right; congruence|by left]].
        apply Exists_exists in Hsome as (res & Hres & Hdata).
        exists files, res. split; [apply list_elem_of_here|]. split; [done|].
        cbn in Hdata. destruct (fr_parsed_data res); [by eexists|by destruct Hdata].
  - unfold batch_convert. cbn [negb].
    destruct (grand_missing_item_reports_list _); cbn [bc_raised bc_overall]; [|done].
    intros _ entries Hin. apply list_elem_of_singleton in Hin. discriminate.
Qed.

End Pipeline.

Module More_examples.
Import Ascii_text Samples Batch_samples Search_samples More_samples.
#[local] Existing Instance ascii_builtins.
#[local] Existing Instance no_parties.

Lemma calculate_date_diff_swap_witness :
  calculate_date_diff (VStr "20180105") (VStr "20210105") = Some 36%Z
  ∧ calculate_date_diff (VStr "20210105") (VStr "20180105") = Some (- 36)%Z.
Proof.
  assert (calculate_date_diff (VStr "20180105") (VStr "20210105") = Some 36%Z) as Hd
    by reflexivity.
  split; [exact Hd|].
  exact (proj1 (calculate_date_diff_swap (VStr "20180105") (VStr "20210105") 36 Hd)).
Defined.

Lemma register_date_patch_is_idle_witness :
  format_numbers (VStr "201810012345.6") (VStr "101234567") (VStr "20210105") (VStr "b")
    (VStr "20180105") = Returns granted_numbers
  ∧ kind_upper (VStr "b") = Returns (Some "B")
  ∧ (if upper_in (Some "B") ["B"; "C"] && negb (truthy (n_register_date granted_numbers))
        && truthy (VStr "20210105")
     then VStr "20210105" else n_register_date granted_numbers)
    = n_register_date granted_numbers.
Proof.
  assert (format_numbers (VStr "201810012345.6") (VStr "101234567") (VStr "20210105")
            (VStr "b") (VStr "20180105") = Returns granted_numbers) as Hf by reflexivity.
  assert (kind_upper (VStr "b") = Returns (Some "B")) as Hk by reflexivity.
  split; [exact Hf|]. split; [exact Hk|].
  exact (register_date_patch_is_idle _ _ _ _ _ _ _ Hf Hk).
Defined.

Lemma published_kind_numbering_witness :
  parser_returns published_root published_record
  ∧ kind_among ["A"] published_record
  ∧ RegisterNumber published_record = VNone
  ∧ OpenNumber published_record = VStr "101234567"
  ∧ OpenDate published_record = VStr "20210105".
Proof.
  assert (parser_returns published_root published_record) as Hr by (left; reflexivity).
  assert (kind_among ["A"] published_record) as Hk.
  { exists "A". split; [reflexivity|]. split; [discriminate|]. apply list_elem_of_here. }
  split; [exact Hr|]. split; [exact Hk|].
  split; [exact (proj1 (published_kind_numbering published_root published_record Hr Hk))|].
  split; reflexivity.
Defined.

Lemma unknown_kind_numbering_witness :
  parser_returns design_root design_record
  ∧ ¬ kind_among ["A"; "B"; "C"; "U"; "Y"] design_record
  ∧ OpenNumber design_record = VNone
  ∧ PublicationNumber design_record = VNone.
Proof.
  assert (parser_returns design_root design_record) as Hr by (left; reflexivity).
  assert (¬ kind_among ["A"; "B"; "C"; "U"; "Y"] design_record) as Hk.
  { intros (s & Hs & _ & Hin). injection Hs as <-.
    apply list_elem_of_In in Hin. simpl in Hin.
    repeat (destruct Hin as [Hin|Hin]; [discriminate Hin|]). exact Hin. }
  split; [exact Hr|]. split; [exact Hk|].
  destruct (unknown_kind_numbering design_root design_record Hr Hk)
    as (Hon & _ & _ & _ & Hpn & _).
  split; [exact Hon|exact Hpn].
Defined.

Lemma granted_kind_open_fields_witness :
  parser_returns granted_root granted_record
  ∧ kind_among ["B"; "C"] granted_record
  ∧ OpenDate granted_record = VNone
  ∧ OpenNumber granted_record = VStr "101234567".
Proof.
  assert (parser_returns granted_root granted_record) as Hr by (left; reflexivity).
  assert (kind_among ["B"; "C"] granted_record) as Hk.
  { exists "B". split; [reflexivity|]. split; [discriminate|]. apply list_elem_of_here. }
  split; [exact Hr|]. split; [exact Hk|].
  split; [exact (proj1 (granted_kind_open_fields granted_root granted_record Hr Hk))|].
  reflexivity.
Defined.

Lemma record_number_invariants_witness :
  parser_returns granted_root granted_record
  ∧ (RegisterNumber granted_record = VNone
     ∨ (truthy (RegisterNumber granted_record) = true
        ∧ RegisterNumber granted_record = ApplicationNumber granted_record)).
Proof.
  assert (parser_returns granted_root granted_record) as Hr by (left; reflexivity).
  split; [exact Hr|].
  exact (proj1 (proj2 (record_number_invariants granted_root granted_record Hr))).
Defined.

Lemma text_only_description_is_dropped_witness :
  parser_returns text_body_root text_body_record
  ∧ find_description_in_document text_body_root = Returns (VStr "A valve. It opens.")
  ∧ (∀ items, VStr "A valve. It opens." ≠ VDict items)
  ∧ Description text_body_record = VNone.
Proof.
  assert (parser_returns text_body_root text_body_record) as Hr by (left; reflexivity).
  assert (find_description_in_document text_body_root = Returns (VStr "A valve. It opens."))
    as Hfind by reflexivity.
  assert (∀ items, VStr "A valve. It opens." ≠ VDict items) as Hplain by discriminate.
  split; [exact Hr|]. split; [exact Hfind|]. split; [exact Hplain|].
  exact (proj2 (proj2 (text_only_description_is_dropped _ _ _ Hr Hfind Hplain))).
Defined.

Lemma contextual_issues_conditions_witness :
  fr_parsed_data (process_xml_file noon "in/2021/CN101234567A.xml" undated_file)
  = Some undated_record
  ∧ fr_missing_details (process_xml_file noon "in/2021/CN101234567A.xml" undated_file)
    = Some undated_missing
  ∧ issues_of undated_missing = ["Kind_A_missing_OpenDate"].
Proof.
  assert (fr_parsed_data (process_xml_file noon "in/2021/CN101234567A.xml" undated_file)
          = Some undated_record) as Hdata by reflexivity.
  assert (fr_missing_details (process_xml_file noon "in/2021/CN101234567A.xml" undated_file)
          = Some undated_missing) as Hmissing by reflexivity.
  split; [exact Hdata|]. split; [exact Hmissing|].
  exact (eq_trans (proj2 (contextual_issues_conditions _ _ _ _ _ Hdata Hmissing)) eq_refl).
Defined.

Lemma fallback_needs_a_body_description_witness :
  starts_with "cn-patent-document" (py_lower "patent") = false
  ∧ ends_with "patentdocumentandrelated" (py_lower "patent") = false
  ∧ process_xml_file noon "in/2021/stray.xml" stray_file
    = failure "in/2021/stray.xml" "알 수 없는 XML 구조".
Proof.
  assert (starts_with "cn-patent-document" (py_lower "patent") = false) as Hcn by reflexivity.
  assert (ends_with "patentdocumentandrelated" (py_lower "patent") = false) as Hbusiness
    by reflexivity.
  split; [exact Hcn|]. split; [exact Hbusiness|].
  exact (proj2 (fallback_needs_a_body_description noon "in/2021/stray.xml" "patent"
                  (VDict [("@kind", VStr "B")]) [] Hcn Hbusiness)
           [("@kind", VStr "B")] eq_refl (or_introl eq_refl)).
Defined.

Lemma status_ok_samples : Forall status_ok [first_result; second_result].
Proof.
  repeat constructor; unfold status_ok; apply (bool_decide_unpack _); vm_compute; reflexivity.
Defined.

Lemma success_counts_never_exceed_totals_witness :
  Forall status_ok (consumed two_documents)
  ∧ ∀ report missing,
      yr_data (process_year sample_size 1 1000 two_documents) = Some (report, missing) →
      report_ok report.
Proof.
  split; [exact status_ok_samples|].
  exact (proj2 (success_counts_never_exceed_totals sample_size 1 1000 two_documents
                  status_ok_samples)).
Defined.

Lemma year_totals_are_sums_of_chunk_totals_witness :
  yr_data (process_year sample_size 1 1000 (map Completed [first_result; second_result]))
  = Some (report_of (year_acc (seal_last_chunk
                                 (run sample_size 1 1000 [first_result; second_result]))),
          yearly_total_missing_item_reports
            (seal_last_chunk (run sample_size 1 1000 [first_result; second_result])))
  ∧ total_processed_items
      (report_of (year_acc (seal_last_chunk
                              (run sample_size 1 1000 [first_result; second_result]))))
    = sum_list_with total_processed_items
        (chunk_reports
           (yr_disk (process_year sample_size 1 1000
                       (map Completed [first_result; second_result])))).
Proof.
  split; [reflexivity|].
  exact (proj1 (year_totals_are_sums_of_chunk_totals sample_size 1 1000
                  [first_result; second_result] _ _ eq_refl)).
Defined.


Lemma safe_get_absent_key_witness :
  (∀ p items, node_at title_only p = Some (VDict items) → dict_get items "abstract" = None)
  ∧ safe_get title_only "abstract" = VNone.
Proof.
  assert (∀ p items, node_at title_only p = Some (VDict items) →
            dict_get items "abstract" = None) as Habsent.
  { intros [|[|i] q] items Hnode; simpl in Hnode.
    - injection Hnode as <-. reflexivity.
    - destruct q; discriminate Hnode.
    - discriminate Hnode. }
  split; [exact Habsent|]. exact (safe_get_absent_key title_only "abstract" Habsent).
Defined.

End More_examples.
